(** * AutoTagBot: a model of [main.js] and the properties of its tagging logic

    The action reads a version from a source file, looks for an existing tag
    that matches the tag format, works out the next revision and the desired
    tag name, and creates tag, reference and release unless one of its guards
    stops the run first.

    The development follows the source top-down:

    - [JsString], [JsNumber]: the ECMAScript built-ins the source calls
      ([trim], [toLowerCase], [replace] with a string pattern, [parseInt],
      addition of one, [Number.prototype.toString]);
    - [RegExpEngine], [SemVerParser]: the two libraries the source consumes
      and does not implement, as interfaces; [Mini] and [SemVer] give an
      executable instance of each, used to evaluate concrete runs;
    - [GitHub] API data, the event trace and the small monad in which [run]
      is written;
    - [getRepoTags], [searchMatchingTag], [getTagMessage], [run];
    - [Legacy], [LegacyRun]: the revision, the changelog and the run of the
      earlier version of the program, [src/unnamed/part_000];
    - the properties.

    Strings are sequences of code units in the range U+0000..U+00FF (the type
    [string] of the standard library); on that range [trim] and [toLowerCase]
    below are the ECMAScript functions. *)

From Stdlib Require Import ZArith List String Ascii Bool Lia DecimalString.
From Stdlib Require DecimalPos DecimalFacts.
Import ListNotations.
Local Open Scope string_scope.
Local Open Scope list_scope.

(* ------------------------------------------------------------------------- *)
(** ** ECMAScript strings *)

Module JsString.

(** Code unit of a character, as [N]. *)
Definition code (c : ascii) : N := N_of_ascii c.

(** WhiteSpace and LineTerminator code points below U+0100: TAB, LF, VT, FF,
    CR, SPACE and NO-BREAK SPACE.  [String.prototype.trim] strips exactly
    these (the remaining ones lie above U+00FF). *)
Definition isWhiteSpace (c : ascii) : bool :=
  let n := code c in
  ((9 <=? n) && (n <=? 13) || (n =? 32) || (n =? 160))%N.

Fixpoint trimStart (s : string) : string :=
  match s with
  | String c s' => if isWhiteSpace c then trimStart s' else s
  | EmptyString => EmptyString
  end.

Fixpoint trimEnd (s : string) : string :=
  match s with
  | String c s' =>
      let r := trimEnd s' in
      if isWhiteSpace c && (r =? "") then "" else String c r
  | EmptyString => EmptyString
  end.

(** [s.trim()] *)
Definition trim (s : string) : string := trimEnd (trimStart s).

(** Lower-case mapping of one code unit: A-Z, and the Latin-1 capitals
    U+00C0..U+00DE except the multiplication sign U+00D7. *)
Definition lowerChar (c : ascii) : ascii :=
  let n := code c in
  if ((65 <=? n) && (n <=? 90)
      || (192 <=? n) && (n <=? 222) && negb (n =? 215))%N
  then ascii_of_N (n + 32) else c.

(** [s.toLowerCase()] *)
Fixpoint toLowerCase (s : string) : string :=
  match s with
  | String c s' => String (lowerChar c) (toLowerCase s')
  | EmptyString => EmptyString
  end.

(** [s.startsWith(p)] *)
Definition startsWith (p s : string) : bool := prefix p s.

(** Remove the first [n] code units. *)
Fixpoint drop (n : nat) (s : string) : string :=
  match n, s with
  | O, _ => s
  | S n', String _ s' => drop n' s'
  | S _, EmptyString => EmptyString
  end.

(** Position of the first occurrence of [pat] in [s], as the text before it and
    the text after it; [None] when [pat] does not occur. *)
Fixpoint splitAtFirst (pat s : string) : option (string * string) :=
  if startsWith pat s then Some ("", drop (length pat) s)
  else match s with
       | String c s' =>
           match splitAtFirst pat s' with
           | Some (before, after) => Some (String c before, after)
           | None => None
           end
       | EmptyString => None
       end.

(** [s.includes(pat)] *)
Definition includes (pat s : string) : bool :=
  match splitAtFirst pat s with Some _ => true | None => false end.

(** GetSubstitution for a string pattern (no captures, no named captures):
    [$$] is a dollar sign, [$&] the matched text, [$`] the text before the
    match, [$'] the text after it; every other character, a dollar sign
    included, stands for itself. *)
Fixpoint GetSubstitution (matched before after replacement : string) : string :=
  match replacement with
  | String "$" (String "$" r) => String "$" (GetSubstitution matched before after r)
  | String "$" (String "&" r) => matched ++ GetSubstitution matched before after r
  | String "$" (String "`" r) => before ++ GetSubstitution matched before after r
  | String "$" (String "'" r) => after ++ GetSubstitution matched before after r
  | String c r => String c (GetSubstitution matched before after r)
  | EmptyString => EmptyString
  end.

(** [s.replace(pat, replacement)] with a string [pat]: only the first
    occurrence is replaced; [s] is returned unchanged when there is none. *)
Definition replace (s pat replacement : string) : string :=
  match splitAtFirst pat s with
  | Some (before, after) =>
      before ++ GetSubstitution pat before after replacement ++ after
  | None => s
  end.

(** Truthiness of a string: every string but the empty one. *)
Definition truthy (s : string) : bool := negb (s =? "").

(** [parts.join(sep)] *)
Definition join (sep : string) (parts : list string) : string :=
  String.concat sep parts.

End JsString.

(* ------------------------------------------------------------------------- *)
(** ** ECMAScript numbers *)

Module JsNumber.
Import JsString.
Local Open Scope Z_scope.

(** The Number values that arise in the program: results of [parseInt], of
    adding one to them, and the literal [1].  All of them are [NaN], an
    infinity, negative zero, or a double whose value is an integer: [Num z] is
    the double of value [z]. *)
Inductive Number : Type :=
  | NaN
  | Infinity (negative : bool)
  | NegZero
  | Num (z : Z).

Definition Number_eqb (a b : Number) : bool :=
  match a, b with
  | Infinity x, Infinity y => Bool.eqb x y
  | NegZero, NegZero => true
  | NegZero, Num z | Num z, NegZero => z =? 0
  | Num x, Num y => x =? y
  | _, _ => false
  end.

(** The double nearest to the integer [z]: 53 significant bits, ties to the
    even significand, overflow to an infinity. *)
Definition roundToDouble (z : Z) : Number :=
  let a := Z.abs z in
  if a <? 2 ^ 53 then Num z
  else
    let e := Z.log2 a - 52 in
    let q := Z.shiftr a e in
    let r := a - Z.shiftl q e in
    let half := 2 ^ (e - 1) in
    let q' := if (half <? r) || ((r =? half) && Z.odd q) then q + 1 else q in
    let m := Z.shiftl q' e in
    if 2 ^ 1024 <=? m then Infinity (z <? 0) else Num (Z.sgn z * m).

(** [x + 1] *)
Definition addOne (x : Number) : Number :=
  match x with
  | NaN => NaN
  | Infinity s => Infinity s
  | NegZero => Num 1
  | Num z => roundToDouble (z + 1)
  end.

(** Value of a digit in radix up to 36. *)
Definition digitValue (c : ascii) : option Z :=
  let n := Z.of_N (code c) in
  if (48 <=? n) && (n <=? 57) then Some (n - 48)
  else if (97 <=? n) && (n <=? 122) then Some (n - 87)
  else if (65 <=? n) && (n <=? 90) then Some (n - 55)
  else None.

(** The values of the longest prefix of [s] made of radix-[R] digits. *)
Fixpoint digitsPrefix (R : Z) (s : string) : list Z :=
  match s with
  | String c s' =>
      match digitValue c with
      | Some d => if d <? R then d :: digitsPrefix R s' else []
      | None => []
      end
  | EmptyString => []
  end.

Definition mathInt (R : Z) (ds : list Z) : Z :=
  fold_left (fun acc d => acc * R + d) ds 0.

(** [parseInt(s)] with no radix argument. *)
Definition parseInt (s : string) : Number :=
  let str := trimStart s in
  let '(negative, str) :=
    match str with
    | String "-" r => (true, r)
    | String "+" r => (false, r)
    | _ => (false, str)
    end in
  let '(R, str) :=
    if startsWith "0x" str || startsWith "0X" str then (16, drop 2 str)
    else (10, str) in
  match digitsPrefix R str with
  | [] => NaN
  | ds =>
      let m := mathInt R ds in
      if m =? 0 then (if negative then NegZero else Num 0)
      else roundToDouble (if negative then - m else m)
  end.

(** [parseInt(v)] for a value that is a string or [undefined]; the argument
    is converted with ToString first. *)
Definition parseIntValue (v : option string) : Number :=
  parseInt (match v with Some s => s | None => "undefined" end).

(** Decimal digits of a non-negative integer. *)
Definition decimal (n : Z) : string :=
  DecimalString.NilZero.string_of_uint (N.to_uint (Z.to_N n)).

Fixpoint zeros (n : nat) : string :=
  match n with O => "" | S n' => String "0" (zeros n') end.

(** The candidates [(n, k, s)] of Number::toString with [k] digits: integers
    [s] of exactly [k] digits for which [s * 10^(n-k)] rounds to [x].  The
    decimal exponent [n] is the number of digits [d] of [x] or one more. *)
Definition candidates (x d k : Z) : list (Z * Z * Z) :=
  flat_map
    (fun n =>
       if n <? k then []
       else
         let p := 10 ^ (n - k) in
         filter
           (fun '(_, _, s) =>
              (10 ^ (k - 1) <=? s) && (s <? 10 ^ k)
              && Number_eqb (roundToDouble (s * p)) (Num x))
           [(n, k, x / p); (n, k, x / p + 1)])
    [d; d + 1].

(** Among candidates of one length, the one whose value is closest to [x]. *)
Definition closest (x : Z) (cs : list (Z * Z * Z)) : option (Z * Z * Z) :=
  fold_left
    (fun best c =>
       let '(n, k, s) := c in
       match best with
       | None => Some c
       | Some (n', k', s') =>
           if Z.abs (s * 10 ^ (n - k) - x) <? Z.abs (s' * 10 ^ (n' - k') - x)
           then Some c else best
       end)
    cs None.

(** The shortest digit string that identifies the double [x > 0]. *)
Fixpoint shortest (x d : Z) (fuel : nat) (k : Z) : Z * Z * Z :=
  match fuel with
  | O => (d, d, x)
  | S fuel' =>
      match closest x (candidates x d k) with
      | Some c => c
      | None => shortest x d fuel' (k + 1)
      end
  end.

(** Number::toString for a positive integer-valued double. *)
Definition toStringPositive (x : Z) : string :=
  let d := Z.of_nat (length (decimal x)) in
  let '(n, k, s) := shortest x d 17 1 in
  if n <=? 21 then decimal s ++ zeros (Z.to_nat (n - k))
  else
    match decimal s with
    | String c rest =>
        String c (if k =? 1 then "" else "." ++ rest) ++ "e+" ++ decimal (n - 1)
    | EmptyString => EmptyString
    end.

(** [x.toString()] *)
Definition toString (x : Number) : string :=
  match x with
  | NaN => "NaN"
  | Infinity false => "Infinity"
  | Infinity true => "-Infinity"
  | NegZero => "0"
  | Num z =>
      if z =? 0 then "0"
      else if z <? 0 then "-" ++ toStringPositive (- z)
      else toStringPositive z
  end.

End JsNumber.

(* ------------------------------------------------------------------------- *)
(** ** Errors and the regular-expression interface *)

Module JsError.

(** An [Error] object: its [name] ("Error", "TypeError", "SyntaxError",
    "HttpError", ...) and its [message]. *)
Record Error : Type := mkError { name : string; message : string }.

(** [new Error(msg)] *)
Definition newError (msg : string) : Error := mkError "Error" msg.

(** [Error.prototype.toString], which a template literal applies to an error. *)
Definition toString (e : Error) : string :=
  if name e =? "" then message e
  else if message e =? "" then name e
  else name e ++ ": " ++ message e.

End JsError.

Module RegExp.
Import JsString JsError.

(** The part of a [RegExpExecArray] the program reads: where the match starts,
    the matched text, and the [groups] object.  [groups] is [undefined]
    ([None]) when the pattern has no named group; otherwise it holds every
    named group of the pattern with the text it captured, or [undefined] when
    the group took no part in the match. *)
Record RegExpExecArray : Type := mkMatch {
  index : nat;
  matched : string;
  groups : option (list (string * option string))
}.

(** Property access [groups.key]: [undefined] for an absent key. *)
Fixpoint get (key : string) (g : list (string * option string)) : option string :=
  match g with
  | (k, v) :: g' => if k =? key then v else get key g'
  | [] => None
  end.

(** The regular-expression engine of the platform.  [newRegExp pattern flags]
    is the constructor, which throws a [SyntaxError] on a malformed pattern;
    [exec re s] is the first [re.exec(s)] on a newly constructed [re] (its
    [lastIndex] is 0, so the global flag plays no part); [toString] is what a
    template literal prints for [re]. *)
Class Engine : Type := {
  RegExp : Type;
  newRegExp : string -> string -> Error + RegExp;
  exec : RegExp -> string -> option RegExpExecArray;
  toString : RegExp -> string
}.

(** What the properties below use of the ECMAScript semantics of a match: the
    [groups] object exists only when the pattern has a named group, and a
    named group is written [(?<name>...)]. *)
Class Lawful (engine : Engine) : Prop := {
  groups_need_syntax :
    forall (pattern flags : string) (re : RegExp) (s : string) (m : RegExpExecArray),
      newRegExp pattern flags = inr re ->
      exec re s = Some m ->
      includes "(?<" pattern = false ->
      groups m = None
}.

(** A second fact of that semantics: without the flag [m] the assertion [^]
    holds at the start of the input only and [$] at its end only.  In
    [^body$] both are terms of the one alternative of the pattern when [body]
    has no alternation bar, which would end that alternative, and no
    backslash, which would turn the last [$] into a character; a match of
    such a pattern is then a match of the whole input. *)
Class Anchoring (engine : Engine) : Prop := {
  anchors_bind :
    forall (body : string) (re : RegExp) (s : string) (m : RegExpExecArray),
      newRegExp ("^" ++ body ++ "$") "" = inr re ->
      includes "|" body = false ->
      includes "\" body = false ->
      exec re s = Some m ->
      index m = 0 /\ matched m = s
}.

End RegExp.

(* ------------------------------------------------------------------------- *)
(** ** An executable regular-expression engine for a fragment of the syntax

    [Mini] implements the interface for the patterns the documented
    configurations produce: literal characters, [.], [^], [$], the escapes
    [\d \D \s \S \w \W \n \r \t \v \f \0] and escaped syntax characters,
    character classes, the greedy quantifiers [* + ?] on a one-character atom,
    groups (capturing, named, non-capturing) and alternation, with the flags
    [g] and [m].  A pattern outside the fragment is reported as such and never
    matched by guesswork.  The engine backtracks in the priority order of the
    ECMAScript semantics. *)

Module Mini.
Import JsString JsError RegExp.

Inductive ClassEscape : Type := Digit | NotDigit | Space | NotSpace | Word | NotWord.

Inductive ClassItem : Type :=
  | ItemChar (c : ascii)
  | ItemRange (lo hi : ascii)
  | ItemEscape (e : ClassEscape).

Inductive CharMatcher : Type :=
  | Lit (c : ascii)
  | Dot
  | Class (negated : bool) (items : list ClassItem).

Inductive Quantifier : Type := One | ZeroOrMore | OneOrMore | ZeroOrOne.

Inductive Anchor : Type := Start | End.

Inductive Node : Type :=
  | Epsilon
  | Assert (a : Anchor)
  | Chars (m : CharMatcher) (q : Quantifier)
  | Seq (a b : Node)
  | Alt (a b : Node)
  | Group (name : option string) (body : Node).

Definition between (lo hi : N) (c : ascii) : bool :=
  ((lo <=? code c) && (code c <=? hi))%N.

Definition isDigit (c : ascii) : bool := between 48 57 c.

Definition isWordChar (c : ascii) : bool :=
  isDigit c || between 65 90 c || between 97 122 c || (code c =? 95)%N.

Definition isLineTerminator (c : ascii) : bool :=
  ((code c =? 10) || (code c =? 13))%N.

Definition escapeMatches (e : ClassEscape) (c : ascii) : bool :=
  match e with
  | Digit => isDigit c
  | NotDigit => negb (isDigit c)
  | Space => isWhiteSpace c
  | NotSpace => negb (isWhiteSpace c)
  | Word => isWordChar c
  | NotWord => negb (isWordChar c)
  end.

Definition itemMatches (it : ClassItem) (c : ascii) : bool :=
  match it with
  | ItemChar x => Ascii.eqb x c
  | ItemRange lo hi => between (code lo) (code hi) c
  | ItemEscape e => escapeMatches e c
  end.

Definition charMatches (m : CharMatcher) (c : ascii) : bool :=
  match m with
  | Lit x => Ascii.eqb x c
  | Dot => negb (isLineTerminator c)
  | Class negated items => xorb negated (existsb (fun it => itemMatches it c) items)
  end.

(** *** Parsing *)

Inductive Parse (A : Type) : Type :=
  | Ok (a : A)
  | Syntax (msg : string)
  | Unsupported (msg : string).
Arguments Ok {A} a.
Arguments Syntax {A} msg.
Arguments Unsupported {A} msg.

Definition bind {A B : Type} (p : Parse A) (f : A -> Parse B) : Parse B :=
  match p with
  | Ok a => f a
  | Syntax msg => Syntax msg
  | Unsupported msg => Unsupported msg
  end.

(** Characters that an escape turns into themselves. *)
Definition isSyntaxCharacter (c : ascii) : bool :=
  includes (String c "") "^$\.*+?()[]{}|/".

(** [\n \r \t \v \f] *)
Definition controlEscape (c : ascii) : option ascii :=
  match c with
  | "n"%char => Some (ascii_of_N 10)
  | "r"%char => Some (ascii_of_N 13)
  | "t"%char => Some (ascii_of_N 9)
  | "v"%char => Some (ascii_of_N 11)
  | "f"%char => Some (ascii_of_N 12)
  | _ => None
  end.

Definition classEscape (c : ascii) : option ClassEscape :=
  match c with
  | "d"%char => Some Digit
  | "D"%char => Some NotDigit
  | "s"%char => Some Space
  | "S"%char => Some NotSpace
  | "w"%char => Some Word
  | "W"%char => Some NotWord
  | _ => None
  end.

(** The character after a backslash, [rest] being what follows it. *)
Definition parseEscape (inClass : bool) (c : ascii) (rest : string) : Parse ClassItem :=
  match classEscape c, controlEscape c with
  | Some e, _ => Ok (ItemEscape e)
  | None, Some x => Ok (ItemChar x)
  | None, None =>
      if isSyntaxCharacter c then Ok (ItemChar c)
      else if (c =? "-")%char then Ok (ItemChar c)
      else if (c =? "0")%char then
        match rest with
        | String d _ => if isDigit d then Unsupported "octal escape"
                        else Ok (ItemChar (ascii_of_N 0))
        | EmptyString => Ok (ItemChar (ascii_of_N 0))
        end
      else if inClass && (c =? "b")%char then Ok (ItemChar (ascii_of_N 8))
      else Unsupported "escape sequence"
  end.

(** Does a range start here: a hyphen followed by something other than the
    closing bracket? *)
Definition rangeFollows (s : string) : bool :=
  match s with
  | String d (String hi _) => (d =? "-")%char && negb (hi =? "]")%char
  | _ => false
  end.

(** The items of a character class up to its closing bracket. *)
Fixpoint parseClass (s : string) (acc : list ClassItem) : Parse (list ClassItem * string) :=
  match s with
  | EmptyString => Syntax "Unterminated character class"
  | String c r =>
      if (c =? "]")%char then Ok (rev acc, r)
      else if (c =? "\")%char then
        match r with
        | EmptyString => Syntax "\ at end of pattern"
        | String e r' =>
            match parseEscape true e r' with
            | Ok it =>
                if rangeFollows r' then Unsupported "class range from an escape"
                else parseClass r' (it :: acc)
            | Syntax msg => Syntax msg
            | Unsupported msg => Unsupported msg
            end
        end
      else
        match r with
        | String d (String hi r') =>
            if rangeFollows r then
              if (hi =? "\")%char then Unsupported "class range to an escape"
              else if (code hi <? code c)%N then
                Syntax "Range out of order in character class"
              else parseClass r' (ItemRange c hi :: acc)
            else parseClass r (ItemChar c :: acc)
        | _ => parseClass r (ItemChar c :: acc)
        end
  end.

Fixpoint skipDigits (s : string) : string :=
  match s with
  | String c r => if isDigit c then skipDigits r else s
  | EmptyString => EmptyString
  end.

(** Does [s] start with a quantifier [{n}], [{n,}] or [{n,m}]?  A brace that
    does not is an ordinary character. *)
Definition bracedQuantifier (s : string) : bool :=
  match s with
  | String c r =>
      (c =? "{")%char
      && let r1 := skipDigits r in
         negb (length r1 =? length r)%nat
         && (startsWith "}" r1
             || startsWith "," r1 && startsWith "}" (skipDigits (drop 1 r1)))
  | EmptyString => false
  end.

Definition startsQuantifier (s : string) : bool :=
  startsWith "*" s || startsWith "+" s || startsWith "?" s || bracedQuantifier s.

(** The quantifier that follows a one-character atom, if any. *)
Definition parseQuantifier (m : CharMatcher) (s : string) : Parse (Node * string) :=
  let greedy q r :=
    if startsWith "?" r then Unsupported "lazy quantifier" else Ok (Chars m q, r) in
  if startsWith "*" s then greedy ZeroOrMore (drop 1 s)
  else if startsWith "+" s then greedy OneOrMore (drop 1 s)
  else if startsWith "?" s then greedy ZeroOrOne (drop 1 s)
  else if bracedQuantifier s then Unsupported "braced quantifier"
  else Ok (Chars m One, s).

Definition isNameStart (c : ascii) : bool :=
  between 65 90 c || between 97 122 c || (code c =? 95)%N || (code c =? 36)%N.

Definition isNamePart (c : ascii) : bool := isNameStart c || isDigit c.

(** The name of a group, up to the closing [>]. *)
Fixpoint parseGroupName (s : string) : option (string * string) :=
  match s with
  | String c r =>
      if (c =? ">")%char then Some ("", r)
      else if isNamePart c then
        match parseGroupName r with
        | Some (n, rest) => Some (String c n, rest)
        | None => None
        end
      else None
  | EmptyString => None
  end.

Definition validName (name : string) : bool :=
  match name with
  | String c _ => isNameStart c
  | EmptyString => false
  end.

(** The end of a group: its closing parenthesis, with no quantifier after
    it.  [name] is [None] for a group that does not capture. *)
Definition closeGroup (name : option (option string)) (body : Node) (rest : string)
  : Parse (Node * string) :=
  if startsWith ")" rest then
    if startsQuantifier (drop 1 rest) then Unsupported "quantified group"
    else Ok (match name with Some n => Group n body | None => body end, drop 1 rest)
  else Syntax "Unterminated group".

Fixpoint parseDisjunction (fuel : nat) (s : string) : Parse (Node * string) :=
  match fuel with
  | O => Unsupported "pattern too long"
  | S f =>
      bind (parseAlternative f s) (fun '(a, rest) =>
        if startsWith "|" rest then
          bind (parseDisjunction f (drop 1 rest)) (fun '(b, rest') => Ok (Alt a b, rest'))
        else Ok (a, rest))
  end
with parseAlternative (fuel : nat) (s : string) : Parse (Node * string) :=
  match fuel with
  | O => Unsupported "pattern too long"
  | S f =>
      if (s =? "") || startsWith "|" s || startsWith ")" s then Ok (Epsilon, s)
      else
        bind (parseTerm f s) (fun '(t, rest) =>
          bind (parseAlternative f rest) (fun '(u, rest') => Ok (Seq t u, rest')))
  end
with parseTerm (fuel : nat) (s : string) : Parse (Node * string) :=
  match fuel with
  | O => Unsupported "pattern too long"
  | S f =>
      match s with
      | EmptyString => Ok (Epsilon, s)
      | String c r =>
          if (c =? "^")%char then Ok (Assert Start, r)
          else if (c =? "$")%char then Ok (Assert End, r)
          else if (c =? "(")%char then
            if startsWith "?:" r then
              bind (parseDisjunction f (drop 2 r)) (fun '(body, rest) =>
                closeGroup None body rest)
            else if startsWith "?<=" r || startsWith "?<!" r then Unsupported "lookbehind"
            else if startsWith "?<" r then
              match parseGroupName (drop 2 r) with
              | Some (name, r') =>
                  if validName name then
                    bind (parseDisjunction f r') (fun '(body, rest) =>
                      closeGroup (Some (Some name)) body rest)
                  else Syntax "Invalid capture group name"
              | None => Syntax "Invalid capture group name"
              end
            else if startsWith "?=" r || startsWith "?!" r then Unsupported "lookahead"
            else if startsWith "?" r then Syntax "Invalid group"
            else
              bind (parseDisjunction f r) (fun '(body, rest) =>
                closeGroup (Some None) body rest)
          else if (c =? "*")%char || (c =? "+")%char || (c =? "?")%char then
            Syntax "Nothing to repeat"
          else if (c =? "[")%char then
            if startsWith "^" r then
              bind (parseClass (drop 1 r) []) (fun '(items, rest) =>
                parseQuantifier (Class true items) rest)
            else
              bind (parseClass r []) (fun '(items, rest) =>
                parseQuantifier (Class false items) rest)
          else if (c =? "\")%char then
            match r with
            | EmptyString => Syntax "\ at end of pattern"
            | String e r' =>
                bind (parseEscape false e r') (fun it =>
                  match it with
                  | ItemChar x => parseQuantifier (Lit x) r'
                  | _ => parseQuantifier (Class false [it]) r'
                  end)
            end
          else if (c =? ".")%char then parseQuantifier Dot r
          else if bracedQuantifier s then Syntax "Nothing to repeat"
          else parseQuantifier (Lit c) r
      end
  end.

(** Names of the named groups, in the order of their opening parentheses. *)
Fixpoint groupNames (n : Node) : list string :=
  match n with
  | Seq a b | Alt a b => groupNames a ++ groupNames b
  | Group (Some name) body => name :: groupNames body
  | Group None body => groupNames body
  | _ => []
  end.

Fixpoint hasDuplicate (l : list string) : bool :=
  match l with
  | x :: l' => existsb (String.eqb x) l' || hasDuplicate l'
  | [] => false
  end.

(** The whole pattern. *)
Definition parsePattern (pattern : string) : Parse Node :=
  bind (parseDisjunction (3 * length pattern + 3) pattern) (fun '(n, rest) =>
    if rest =? "" then
      if hasDuplicate (groupNames n) then Syntax "Duplicate capture group name"
      else Ok n
    else if startsWith ")" rest then Syntax "Unmatched ')'"
    else Unsupported "trailing input").

(** *** Matching *)

(** A point of a match: the position reached, the input left from there, and
    the captures of the named groups so far. *)
Record MState : Type := mkState {
  pos : nat;
  rest : string;
  caps : list (string * option string)
}.

Fixpoint setCap (key value : string) (g : list (string * option string))
  : list (string * option string) :=
  match g with
  | (k, v) :: g' =>
      if k =? key then (k, Some value) :: g' else (k, v) :: setCap key value g'
  | [] => []
  end.

(** The character just before position [p] of [input]. *)
Definition previous (input : string) (p : nat) : option ascii :=
  match p with O => None | S p' => String.get p' input end.

Definition assertion (multiline : bool) (input : string) (a : Anchor) (st : MState) : bool :=
  match a with
  | Start =>
      match previous input (pos st) with
      | None => true
      | Some c => multiline && isLineTerminator c
      end
  | End =>
      match rest st with
      | EmptyString => true
      | String c _ => multiline && isLineTerminator c
      end
  end.

(** Greedy repetition of a one-character atom: take as many characters as
    match, and give them back one at a time while the continuation fails. *)
Fixpoint greedy (m : CharMatcher) (k : MState -> option MState)
  (g : list (string * option string)) (s : string) (p : nat) : option MState :=
  match s with
  | String c s' =>
      if charMatches m c then
        match greedy m k g s' (S p) with
        | Some r => Some r
        | None => k (mkState p s g)
        end
      else k (mkState p s g)
  | EmptyString => k (mkState p s g)
  end.

(** The matcher of a node, in continuation-passing style: [k] is the rest of
    the pattern. *)
Fixpoint matchNode (multiline : bool) (input : string) (n : Node) (st : MState)
  (k : MState -> option MState) : option MState :=
  match n with
  | Epsilon => k st
  | Assert a => if assertion multiline input a st then k st else None
  | Chars m One =>
      match rest st with
      | String c s' =>
          if charMatches m c then k (mkState (S (pos st)) s' (caps st)) else None
      | EmptyString => None
      end
  | Chars m ZeroOrOne =>
      match rest st with
      | String c s' =>
          if charMatches m c then
            match k (mkState (S (pos st)) s' (caps st)) with
            | Some r => Some r
            | None => k st
            end
          else k st
      | EmptyString => k st
      end
  | Chars m ZeroOrMore => greedy m k (caps st) (rest st) (pos st)
  | Chars m OneOrMore =>
      match rest st with
      | String c s' =>
          if charMatches m c then greedy m k (caps st) s' (S (pos st)) else None
      | EmptyString => None
      end
  | Seq a b =>
      matchNode multiline input a st (fun st' => matchNode multiline input b st' k)
  | Alt a b =>
      match matchNode multiline input a st k with
      | Some r => Some r
      | None => matchNode multiline input b st k
      end
  | Group (Some name) body =>
      matchNode multiline input body st (fun st' =>
        k (mkState (pos st') (rest st')
             (setCap name (substring (pos st) (pos st' - pos st) input) (caps st'))))
  | Group None body => matchNode multiline input body st k
  end.

(** A compiled expression. *)
Record Compiled : Type := mkCompiled {
  source : string;
  multiline : bool;
  global : bool;
  node : Node
}.

(** Try every start position from the left. *)
Fixpoint search (re : Compiled) (input s : string) (p : nat) : option (nat * MState) :=
  let init := map (fun name => (name, None)) (groupNames (node re)) in
  match matchNode (multiline re) input (node re) (mkState p s init) Some with
  | Some st => Some (p, st)
  | None =>
      match s with
      | String _ s' => search re input s' (S p)
      | EmptyString => None
      end
  end.

Definition exec (re : Compiled) (input : string) : option RegExpExecArray :=
  match search re input input 0 with
  | Some (start, st) =>
      Some (mkMatch start (substring start (pos st - start) input)
              (match caps st with [] => None | g => Some g end))
  | None => None
  end.

(** *** Construction *)

Fixpoint validFlags (flags : string) : bool :=
  match flags with
  | String c r =>
      includes (String c "") "gimsuy" && negb (includes (String c "") r) && validFlags r
  | EmptyString => true
  end.

(** The error of a malformed pattern.  Node 12, the runtime that [action.yml]
    names, prints the pattern between slashes and leaves the flags out. *)
Definition syntaxError (pattern msg : string) : Error :=
  mkError "SyntaxError" ("Invalid regular expression: /" ++ pattern ++ "/: " ++ msg).

(** [new RegExp(pattern, flags)].  A pattern or flag outside the fragment is
    refused with an error that says so. *)
Definition compile (pattern flags : string) : Error + Compiled :=
  if negb (validFlags flags) then
    inl (mkError "SyntaxError"
           ("Invalid flags supplied to RegExp constructor '" ++ flags ++ "'"))
  else if includes "i" flags || includes "s" flags || includes "u" flags
          || includes "y" flags then
    inl (mkError "Unsupported" ("flags outside the fragment: " ++ flags))
  else
    match parsePattern pattern with
    | Ok n => inr (mkCompiled pattern (includes "m" flags) (includes "g" flags) n)
    | Syntax msg => inl (syntaxError pattern msg)
    | Unsupported msg => inl (mkError "Unsupported" ("pattern outside the fragment: " ++ msg))
    end.

(** The text of [source]: a slash outside a character class is escaped, a line
    break is written as its escape, the empty pattern is [(?:)]. *)
Fixpoint escapeSource (inClass : bool) (s : string) : string :=
  match s with
  | String "\" (String c r) => String "\" (String c (escapeSource inClass r))
  | String "/" r =>
      if inClass then String "/" (escapeSource inClass r)
      else String "\" (String "/" (escapeSource inClass r))
  | String "[" r => String "[" (escapeSource true r)
  | String "]" r => String "]" (escapeSource false r)
  | String c r =>
      if (code c =? 10)%N then "\n" ++ escapeSource inClass r
      else if (code c =? 13)%N then "\r" ++ escapeSource inClass r
      else String c (escapeSource inClass r)
  | EmptyString => EmptyString
  end.

Definition toString (re : Compiled) : string :=
  "/" ++ (if source re =? "" then "(?:)" else escapeSource false (source re)) ++ "/"
  ++ (if global re then "g" else "") ++ (if multiline re then "m" else "").

#[export] Instance engine : Engine := {|
  RegExp := Compiled;
  newRegExp := compile;
  RegExp.exec := exec;
  RegExp.toString := toString
|}.

End Mini.

(* ------------------------------------------------------------------------- *)
(** ** Semantic versions: the interface and an instance *)

Module SemVer.
Import JsString.
Local Open Scope Z_scope.

(** A prerelease identifier: a number when it is numeric, else its text. *)
Inductive Identifier : Type := Numeric (n : Z) | Text (s : string).

(** The parsed version object. *)
Record SemVer : Type := mkSemVer {
  major : Z;
  minor : Z;
  patch : Z;
  prerelease : list Identifier;
  build : list string
}.

(** [semver.parse(version)]: the version object, or [null]. *)
Class Parser : Type := { parse : string -> option SemVer }.

(** *** An instance after the grammar of the semver package (strict mode) *)

Definition MAX_LENGTH : nat := 256.
Definition MAX_SAFE_INTEGER : Z := 2 ^ 53 - 1.

Definition isDigit (c : ascii) : bool := ((48 <=? code c) && (code c <=? 57))%N.

Definition isIdChar (c : ascii) : bool :=
  (isDigit c || (65 <=? code c) && (code c <=? 90)
   || (97 <=? code c) && (code c <=? 122) || (code c =? 45))%N.

Fixpoint all (f : ascii -> bool) (s : string) : bool :=
  match s with
  | String c r => f c && all f r
  | EmptyString => true
  end.

(** Split at every occurrence of the separator. *)
Fixpoint split (sep : ascii) (s : string) : list string :=
  match s with
  | String c r =>
      if Ascii.eqb c sep then "" :: split sep r
      else match split sep r with
           | x :: l => String c x :: l
           | [] => [String c ""]
           end
  | EmptyString => [""]
  end.

Definition digitsValue (s : string) : Z :=
  fold_left (fun acc d => acc * 10 + d)
    (map (fun c => Z.of_N (code c) - 48) (list_ascii_of_string s)) 0.

(** [0|[1-9]\d*] *)
Definition numericIdentifier (s : string) : option Z :=
  match s with
  | EmptyString => None
  | String "0" EmptyString => Some 0
  | String "0" _ => None
  | _ => if all isDigit s then Some (digitsValue s) else None
  end.

(** A prerelease identifier: numeric without leading zeros, or any run of
    letters, digits and hyphens with a non-digit in it. *)
Definition prereleaseIdentifier (s : string) : option Identifier :=
  match s with
  | EmptyString => None
  | _ =>
      if all isDigit s then
        match numericIdentifier s with
        | Some n => Some (if n <? MAX_SAFE_INTEGER then Numeric n else Text s)
        | None => None
        end
      else if all isIdChar s then Some (Text s) else None
  end.

Definition buildIdentifier (s : string) : option string :=
  match s with
  | EmptyString => None
  | _ => if all isIdChar s then Some s else None
  end.

Fixpoint traverse {A B : Type} (f : A -> option B) (l : list A) : option (list B) :=
  match l with
  | x :: l' =>
      match f x, traverse f l' with
      | Some y, Some ys => Some (y :: ys)
      | _, _ => None
      end
  | [] => Some []
  end.

(** The core [major.minor.patch]: three numeric identifiers within the safe
    integers. *)
Definition mainVersion (s : string) : option (Z * Z * Z) :=
  match traverse numericIdentifier (split "." s) with
  | Some [a; b; c] =>
      if (a <=? MAX_SAFE_INTEGER) && (b <=? MAX_SAFE_INTEGER) && (c <=? MAX_SAFE_INTEGER)
      then Some (a, b, c) else None
  | _ => None
  end.

(** The text up to the first character that satisfies [stop], and the rest. *)
Fixpoint span (stop : ascii -> bool) (s : string) : string * string :=
  match s with
  | String c r =>
      if stop c then ("", s) else let '(a, b) := span stop r in (String c a, b)
  | EmptyString => ("", "")
  end.

Definition parseStrict (version : string) : option SemVer :=
  if (MAX_LENGTH <? length version)%nat then None
  else
    let s := match version with String "v" r => r | _ => version end in
    let '(main, tail) := span (fun c => Ascii.eqb c "-" || Ascii.eqb c "+") s in
    let '(pre, bld) := span (fun c => Ascii.eqb c "+") tail in
    match mainVersion main with
    | None => None
    | Some (a, b, c) =>
        let pre' :=
          match pre with
          | String "-" ids => traverse prereleaseIdentifier (split "." ids)
          | _ => Some []
          end in
        let bld' :=
          match bld with
          | String "+" ids => traverse buildIdentifier (split "." ids)
          | _ => Some []
          end in
        match pre', bld' with
        | Some p, Some q => Some (mkSemVer a b c p q)
        | _, _ => None
        end
    end.

#[export] Instance strict : Parser := {| parse := parseStrict |}.

End SemVer.

(* ------------------------------------------------------------------------- *)
(** ** The hosting API, the environment of a run, and its effects *)

Module GitHub.
Import JsError.

(** [context.repo] *)
Record Repo : Type := mkRepo { owner : string; repo : string }.

(** An item of the tag list: [tag.name] and [tag.commit.sha]. *)
Record TagItem : Type := mkTag { name : string; commit_sha : string }.

(** [commit.author], with its [login]. *)
Record Author : Type := mkAuthor { login : string }.

(** An item of a comparison: [commit.commit.message] and [commit.author],
    which is [null] for a commit without an account. *)
Record CommitItem : Type := mkCommit { message : string; author : option Author }.

(** The data of the three creation responses. *)
Record TagData : Type := mkTagData { tag : string; sha : string }.
Record RefData : Type := mkRefData { ref : string; url : string }.
Record ReleaseData : Type := mkReleaseData { release_url : string }.

(** The requests the program sends, with the parameters it passes. *)
Inductive Request : Type :=
  | ListTags (r : Repo) (per_page : Z)
  | CompareCommits (r : Repo) (base head : string)
  | CreateTag (r : Repo) (tag message object type : string)
  | CreateRef (r : Repo) (ref sha : string)
  | CreateRelease (r : Repo) (name body tag_name : string) (draft prerelease : bool).

(** A client: what the server answers to each request of the run, an error or
    the response data.  [commits] of a comparison may be missing, and an item
    of it may be [null]. *)
Record Client : Type := mkClient {
  listTags : Repo -> Z -> Error + list TagItem;
  compareCommits : Repo -> string -> string -> Error + option (list (option CommitItem));
  createTag : Repo -> string -> string -> string -> string -> Error + TagData;
  createRef : Repo -> string -> string -> Error + RefData;
  createRelease : Repo -> string -> string -> string -> bool -> bool -> Error + ReleaseData
}.

(** Does the request create a tag object, a reference or a release? *)
Definition creates (r : Request) : bool :=
  match r with
  | CreateTag _ _ _ _ _ | CreateRef _ _ _ | CreateRelease _ _ _ _ _ _ => true
  | ListTags _ _ | CompareCommits _ _ _ => false
  end.

End GitHub.

Module Effects.
Import JsError JsNumber GitHub.

(** Everything a run reads from outside: the action inputs, the file system,
    the client constructor and the workflow context. *)
Record Env : Type := mkEnv {
  getInput : string -> string;
  existsSync : string -> bool;
  readFileSync : string -> Error + string;
  newGitHub : string -> Error + Client;
  context_sha : option string;
  context_repo : Error + Repo
}.

(** The value of an output, and the argument of [core.setFailed]. *)
Inductive Value : Type := VString (s : string) | VNumber (n : Number).
Inductive Failure : Type := Message (s : string) | Caught (e : Error).

(** What a run does to the outside, in order. *)
Inductive Event : Type :=
  | Info (msg : string)
  | SetOutput (name : string) (value : Value)
  | SetFailed (f : Failure)
  | Call (r : Request).

(** How a piece of the program ends: with a value, by returning from [run],
    or by throwing. *)
Inductive Completion (A : Type) : Type :=
  | Normal (a : A)
  | Returned
  | Thrown (e : Error).
Arguments Normal {A} a.
Arguments Returned {A}.
Arguments Thrown {A} e.

(** A computation: the events it produced and how it ended. *)
Definition Action (A : Type) : Type := list Event * Completion A.

Definition ret {A : Type} (a : A) : Action A := ([], Normal a).

Definition bind {A B : Type} (m : Action A) (k : A -> Action B) : Action B :=
  match m with
  | (tr, Normal a) => let '(tr', c) := k a in (tr ++ tr', c)
  | (tr, Returned) => (tr, Returned)
  | (tr, Thrown e) => (tr, Thrown e)
  end.

Definition emit (ev : Event) : Action unit := ([ev], Normal tt).
Definition returned {A : Type} : Action A := ([], Returned).
Definition throw {A : Type} (e : Error) : Action A := ([], Thrown e).

(** A call that may throw. *)
Definition lift {A : Type} (r : Error + A) : Action A :=
  match r with inl e => throw e | inr a => ret a end.

(** [try { body } catch (e) { handler e }] *)
Definition tryCatch {A : Type} (body : Action A) (handler : Error -> Action A) : Action A :=
  match body with
  | (tr, Thrown e) => let '(tr', c) := handler e in (tr ++ tr', c)
  | _ => body
  end.

Definition info (msg : string) : Action unit := emit (Info msg).
Definition setOutput (name : string) (v : Value) : Action unit := emit (SetOutput name v).
Definition setFailed (f : Failure) : Action unit := emit (SetFailed f).

(** A request to the server: it is sent, and the answer is data or an error. *)
Definition call {A : Type} (r : Request) (answer : Error + A) : Action A :=
  bind (emit (Call r)) (fun _ => lift answer).

(** [if (cond) return last;] *)
Definition returnIf {A : Type} (cond : bool) (last : Action unit) (k : Action A) : Action A :=
  if cond then bind last (fun _ => returned) else k.

End Effects.

Declare Scope action_scope.
Delimit Scope action_scope with action.
Notation "x <- m ;; k" := (Effects.bind m (fun x => k))
  (at level 61, m at next level, right associativity) : action_scope.
Notation "m ;; k" := (Effects.bind m (fun _ => k))
  (at level 61, right associativity) : action_scope.
Notation "'when' c 'leave' a ;; k" := (Effects.returnIf c a k)
  (at level 61, c at next level, a at next level, right associativity) : action_scope.

(* ------------------------------------------------------------------------- *)
(** ** The program: [main.js] *)

Module Main.
Import JsString JsNumber GitHub Effects.
Import RegExp(Engine, RegExp, newRegExp, exec, RegExpExecArray, groups, get).
Import SemVer(Parser, parse, major, prerelease).
Local Open Scope string_scope.
Local Open Scope action_scope.

(** The line feed of the template literals. *)
Definition nl : string := String (ascii_of_N 10) "".

(** A string or [undefined]/[null] that is truthy, as the string it is. *)
Definition nonEmpty (v : option string) : option string :=
  match v with
  | Some s => if truthy s then Some s else None
  | None => None
  end.

(** [if (!v) return last;] followed by uses of [v]. *)
Definition require {A : Type} (v : option A) (last : Action unit) : Action A :=
  match v with
  | Some a => ret a
  | None => last ;; returned
  end.

(** The result of [searchMatchingTag]. *)
Record MatchingTag : Type := mkMatchingTag {
  name : string;
  sha : string;
  match_ : RegExpExecArray
}.

Section Program.
Context {engine : Engine} {semver : Parser}.

(** [getRepoTags(git, context)] *)
Definition getRepoTags (git : Client) (env : Env) : Action (list TagItem) :=
  tryCatch
    (r <- lift (context_repo env) ;;
     call (ListTags r 100) (listTags git r 100))
    (fun e => throw (JsError.newError
                       ("could not fetch repository tags: " ++ JsError.toString e))).

(** [searchMatchingTag(tags, tagRegExp)] *)
Fixpoint searchMatchingTag (tags : list TagItem) (tagRegExp : RegExp)
  : option MatchingTag :=
  match tags with
  | tag :: tags' =>
      match exec tagRegExp (toLowerCase (trim (GitHub.name tag))) with
      | Some m => Some (mkMatchingTag (GitHub.name tag) (commit_sha tag) m)
      | None => searchMatchingTag tags' tagRegExp
      end
  | [] => None
  end.

(** One turn of the loop of [getTagMessage]. *)
Definition appendCommit (message : string) (commit : option CommitItem) : string :=
  match commit with
  | Some c =>
      let message := message ++ nl ++ "* " ++ GitHub.message c in
      match author c with
      | Some a => if truthy (login a) then message ++ " (" ++ login a ++ ")" else message
      | None => message
      end
  | None => message
  end.

(** [getTagMessage(git, context, from, to)] *)
Definition getTagMessage (git : Client) (env : Env) (from to : option string)
  : Action string :=
  tryCatch
    (match nonEmpty from, nonEmpty to with
     | Some base, Some head =>
         r <- lift (context_repo env) ;;
         commits <- call (CompareCommits r base head) (compareCommits git r base head) ;;
         match commits with
         | None | Some [] => ret "Initial tag"
         | Some commits => ret (trim (fold_left appendCommit commits ""))
         end
     | _, _ => ret "Initial tag"
     end)
    (fun e => throw (JsError.newError
                       ("could not generate changelog: " ++ JsError.toString e))).

(** The pattern derived from the tag format. *)
Definition tagPattern (tagFormat version : string) : string :=
  toLowerCase
    (replace (replace ("^" ++ tagFormat ++ "$") "{version}" version)
       "{revision}" "(?<revision>[0-9]+)").

(** The next revision. *)
Definition tagRevision (matchingTag : option MatchingTag) : Number :=
  match matchingTag with
  | Some mt =>
      match groups (match_ mt) with
      | Some g => addOne (parseIntValue (get "revision" g))
      | None => Num 1
      end
  | None => Num 1
  end.

(** The desired tag name. *)
Definition tagName (tagFormat version : string) (revision : Number) : string :=
  replace (replace tagFormat "{version}" version) "{revision}" (JsNumber.toString revision).

(** The base of the comparison for the changelog. *)
Definition changelogFrom (tags : list TagItem) : option string :=
  match tags with
  | tag :: _ => Some (GitHub.name tag)
  | [] => None
  end.

(** The prerelease flag of the release. *)
Definition isPrerelease (version : string) : bool :=
  match parse version with
  | Some v => (major v =? 0)%Z || (0 <? List.length (prerelease v))%nat
  | None => false
  end.

(** [a === b] for a string and a string that may be [undefined]. *)
Definition strictEq (a : string) (b : option string) : bool :=
  match b with
  | Some s => a =? s
  | None => false
  end.

(** How a template literal prints [null]. *)
Definition orNull (v : option string) : string :=
  match v with Some s => s | None => "null" end.

(** [run()] *)
Definition run (env : Env) : Action unit :=
  let apiToken := getInput env "api_token" in
  let sourceFile := getInput env "source_file" in
  let tagFormat := getInput env "tag_format" in
  let versionPattern := getInput env "version_pattern" in
  versionRegExp <- lift (newRegExp versionPattern "gm") ;;

  when negb (existsSync env sourceFile)
  leave setFailed (Message ("Could not find source file: " ++ sourceFile)) ;;

  contents <- lift (readFileSync env sourceFile) ;;
  matches <- require (exec versionRegExp contents)
    (setFailed (Message ("Could not find version pattern in source file: "
                         ++ versionPattern))) ;;
  version <- require
    (nonEmpty (match groups matches with Some g => get "version" g | None => None end))
    (setFailed (Message ("Could not find named capture group 'version' in pattern: "
                         ++ versionPattern))) ;;

  setOutput "version" (VString version) ;;
  info ("Extracted version from source file: " ++ version) ;;

  when (version =? "0") || (version =? "0.0") || (version =? "0.0.0")
  leave info ("Aborting execution as version [" ++ version ++ "] can not be all zeros") ;;

  tagRegExp <- lift (newRegExp (tagPattern tagFormat version) "") ;;
  info ("Searching for existing tag with pattern: " ++ RegExp.toString tagRegExp) ;;

  git <- lift (newGitHub env apiToken) ;;
  tags <- getRepoTags git env ;;
  let matchingTag := searchMatchingTag tags tagRegExp in
  info ("Search result for tag pattern: "
        ++ match matchingTag with Some mt => name mt | None => "not-found" end) ;;

  match matchingTag with
  | Some mt =>
      when strictEq (sha mt) (context_sha env)
      leave info ("Aborting execution as tag [" ++ name mt
                  ++ "] points to current commit [" ++ sha mt ++ "]") ;;
      ret tt
  | None => ret tt
  end ;;

  let tagRevision := tagRevision matchingTag in
  let tagName := tagName tagFormat version tagRevision in
  info ("Determined desired tag name: " ++ tagName) ;;

  match matchingTag with
  | Some mt =>
      when (name mt =? tagName)
      leave info ("Aborting execution as current tag [" ++ name mt
                  ++ "] matches desired tag") ;;
      ret tt
  | None => ret tt
  end ;;

  sha <- require (nonEmpty (context_sha env))
    (setFailed (Message "Can not create new tag as commit SHA is missing in context")) ;;

  let changelogFrom := changelogFrom tags in
  let changelogTo := sha in
  info ("Generating tag message from [" ++ orNull changelogFrom ++ "] to ["
        ++ changelogTo ++ "]") ;;

  tagMessage <- getTagMessage git env changelogFrom (Some changelogTo) ;;
  info ("Generated tag message: " ++ tagMessage) ;;

  info ("Creating new tag [" ++ tagName ++ "] at [" ++ sha ++ "]...") ;;
  r <- lift (context_repo env) ;;
  tag <- (let message := tagName ++ nl ++ nl ++ tagMessage in
          call (CreateTag r tagName message sha "commit")
            (createTag git r tagName message sha "commit")) ;;
  info ("Created new tag [" ++ GitHub.tag tag ++ "] at [" ++ sha ++ "]") ;;

  info ("Creating new reference [" ++ GitHub.tag tag ++ " => " ++ GitHub.sha tag ++ "]...") ;;
  r <- lift (context_repo env) ;;
  tagRef <- (let ref := "refs/tags/" ++ GitHub.tag tag in
             call (CreateRef r ref (GitHub.sha tag)) (createRef git r ref (GitHub.sha tag))) ;;
  info ("Created new reference [" ++ ref tagRef ++ "] at [" ++ url tagRef ++ "]") ;;

  info ("Creating new release [" ++ tagName ++ "]...") ;;
  r <- lift (context_repo env) ;;
  release <- (let prerelease := isPrerelease version in
              call (CreateRelease r tagName tagMessage tagName false prerelease)
                (createRelease git r tagName tagMessage tagName false prerelease)) ;;
  info ("Created new release [" ++ release_url release ++ "]") ;;

  setOutput "tag_name" (VString tagName) ;;
  setOutput "tag_revision" (VNumber tagRevision) ;;
  setOutput "tag_sha" (VString (GitHub.sha tag)) ;;
  setOutput "tag_uri" (VString (url tagRef)) ;;
  setOutput "release_uri" (VString (release_url release)) ;;

  info ("Created new tag [" ++ tagName ++ "] for commit [" ++ sha ++ "]").

(** [run().catch(err => core.setFailed(err))]: the events of the whole
    execution. *)
Definition main (env : Env) : list Event :=
  match run env with
  | (tr, Thrown e) => (tr ++ [SetFailed (Caught e)])%list
  | (tr, _) => tr
  end.

End Program.
End Main.

(* ------------------------------------------------------------------------- *)
(** ** The revision in the earlier version of the action *)

Module Legacy.
Import JsString JsNumber JsError GitHub Effects Main.
Import RegExp(groups, get).
Local Open Scope string_scope.

(** What reading [revision] of an [undefined] [groups] throws (Node 12, the
    runtime of [action.yml]). *)
Definition noGroups : Error :=
  mkError "TypeError" "Cannot read property 'revision' of undefined".

(** [src/unnamed/part_000], line 115:
    [matchingTag ? parseInt(matchingTag.match.groups.revision) + 1 : 1],
    without the test of [match.groups] that [main.js] has. *)
Definition tagRevision (matchingTag : option MatchingTag) : Error + Number :=
  match matchingTag with
  | Some mt =>
      match groups (match_ mt) with
      | Some g => inr (addOne (parseIntValue (get "revision" g)))
      | None => inl noGroups
      end
  | None => inr (Num 1)
  end.

(** [src/unnamed/part_000], lines 48-69: [getTagMessage] as [main.js] has
    it, but for the first value of [message], which is a line feed. *)
Definition getTagMessage (git : Client) (env : Env) (from to : option string)
  : Action string :=
  tryCatch
    (match nonEmpty from, nonEmpty to with
     | Some base, Some head =>
         (r <- lift (context_repo env) ;;
          commits <- call (CompareCommits r base head) (compareCommits git r base head) ;;
          match commits with
          | None | Some [] => ret "Initial tag"
          | Some commits => ret (trim (fold_left appendCommit commits nl))
          end)%action
     | _, _ => ret "Initial tag"
     end)
    (fun e => throw (JsError.newError
                       ("could not generate changelog: " ++ JsError.toString e))).

End Legacy.

(** The effects of the earlier version: the events of [main.js], and the
    lines of [core.debug], which [main.js] no longer writes. *)
Module LegacyEffects.
Import JsError GitHub Effects.

Inductive Event : Type :=
  | Debug (msg : string)
  | Core (ev : Effects.Event).

Definition Action (A : Type) : Type := list Event * Completion A.

Definition ret {A : Type} (a : A) : Action A := ([], Normal a).

Definition bind {A B : Type} (m : Action A) (k : A -> Action B) : Action B :=
  match m with
  | (tr, Normal a) => let '(tr', c) := k a in (tr ++ tr', c)
  | (tr, Returned) => (tr, Returned)
  | (tr, Thrown e) => (tr, Thrown e)
  end.

Definition emit (ev : Event) : Action unit := ([ev], Normal tt).
Definition returned {A : Type} : Action A := ([], Returned).
Definition throw {A : Type} (e : Error) : Action A := ([], Thrown e).

Definition lift {A : Type} (r : Error + A) : Action A :=
  match r with inl e => throw e | inr a => ret a end.

(** A computation of [main.js] inside the earlier version. *)
Definition core {A : Type} (m : Effects.Action A) : Action A :=
  (map Core (fst m), snd m).

Definition tryCatch {A : Type} (body : Action A) (handler : Error -> Action A) : Action A :=
  match body with
  | (tr, Thrown e) => let '(tr', c) := handler e in (tr ++ tr', c)
  | _ => body
  end.

Definition debug (msg : string) : Action unit := emit (Debug msg).
Definition info (msg : string) : Action unit := emit (Core (Info msg)).
Definition setOutput (name : string) (v : Value) : Action unit :=
  emit (Core (SetOutput name v)).
Definition setFailed (f : Failure) : Action unit := emit (Core (SetFailed f)).

Definition call {A : Type} (r : Request) (answer : Error + A) : Action A :=
  bind (emit (Core (Call r))) (fun _ => lift answer).

Definition returnIf {A : Type} (cond : bool) (last : Action unit) (k : Action A) : Action A :=
  if cond then bind last (fun _ => returned) else k.

Definition require {A : Type} (v : option A) (last : Action unit) : Action A :=
  match v with
  | Some a => ret a
  | None => bind last (fun _ => returned)
  end.

End LegacyEffects.

Declare Scope legacy_scope.
Delimit Scope legacy_scope with legacy.
Notation "x <- m ;; k" := (LegacyEffects.bind m (fun x => k))
  (at level 61, m at next level, right associativity) : legacy_scope.
Notation "m ;; k" := (LegacyEffects.bind m (fun _ => k))
  (at level 61, right associativity) : legacy_scope.
Notation "'when' c 'leave' a ;; k" := (LegacyEffects.returnIf c a k)
  (at level 61, c at next level, a at next level, right associativity) : legacy_scope.

(** [run] of [src/unnamed/part_000], lines 75-161: no release, the changelog
    alone as the message of the tag object, and the whole body inside
    [try]. *)
Module LegacyRun.
Import JsString JsNumber GitHub Effects Main LegacyEffects.
Import RegExp(Engine, RegExp, newRegExp, exec, RegExpExecArray, groups, get).
Local Open Scope string_scope.
Local Open Scope legacy_scope.

Section Program.
Context {engine : Engine}.

Definition run (env : Env) : Action unit :=
  tryCatch
    (let apiToken := getInput env "api_token" in
     let sourceFile := getInput env "source_file" in
     let tagFormat := getInput env "tag_format" in
     let versionPattern := getInput env "version_pattern" in
     versionRegExp <- lift (newRegExp versionPattern "gm") ;;

     when negb (existsSync env sourceFile)
     leave setFailed (Message ("Could not find source file: " ++ sourceFile)) ;;

     contents <- lift (readFileSync env sourceFile) ;;
     matches <- require (exec versionRegExp contents)
       (setFailed (Message ("Could not find version pattern in source file: "
                            ++ versionPattern))) ;;
     version <- require
       (nonEmpty (match groups matches with Some g => get "version" g | None => None end))
       (setFailed (Message ("Could not find named capture group 'version' in pattern: "
                            ++ versionPattern))) ;;

     setOutput "version" (VString version) ;;
     debug ("Extracted version from source file: " ++ version) ;;

     when (version =? "0") || (version =? "0.0") || (version =? "0.0.0")
     leave info ("Aborting execution as version [" ++ version
                 ++ "] can not be all zeros") ;;

     tagRegExp <- lift (newRegExp (tagPattern tagFormat version) "") ;;
     debug ("Searching for existing tag with pattern: " ++ RegExp.toString tagRegExp) ;;

     git <- lift (newGitHub env apiToken) ;;
     tags <- core (getRepoTags git env) ;;
     let matchingTag := searchMatchingTag tags tagRegExp in
     debug ("Search result for tag pattern: "
            ++ match matchingTag with Some mt => name mt | None => "not-found" end) ;;

     match matchingTag with
     | Some mt =>
         when strictEq (sha mt) (context_sha env)
         leave info ("Aborting execution as tag [" ++ name mt
                     ++ "] points to current commit [" ++ sha mt ++ "]") ;;
         ret tt
     | None => ret tt
     end ;;

     tagRevision <- lift (Legacy.tagRevision matchingTag) ;;
     let tagName := tagName tagFormat version tagRevision in
     debug ("Determined desired tag name: " ++ tagName) ;;

     match matchingTag with
     | Some mt =>
         when (name mt =? tagName)
         leave info ("Aborting execution as current tag [" ++ name mt
                     ++ "] matches desired tag") ;;
         ret tt
     | None => ret tt
     end ;;

     sha <- require (nonEmpty (context_sha env))
       (setFailed (Message "Can not create new tag as commit SHA is missing in context")) ;;

     let changelogFrom := changelogFrom tags in
     let changelogTo := sha in
     debug ("Generating tag message from [" ++ orNull changelogFrom ++ "] to ["
            ++ changelogTo ++ "]") ;;

     tagMessage <- core (Legacy.getTagMessage git env changelogFrom (Some changelogTo)) ;;
     debug ("Generated tag message: " ++ tagMessage) ;;

     r <- lift (context_repo env) ;;
     tag <- call (CreateTag r tagName tagMessage sha "commit")
              (createTag git r tagName tagMessage sha "commit") ;;
     debug ("Created new tag: " ++ GitHub.sha tag) ;;

     r <- lift (context_repo env) ;;
     tagRef <- (let ref := "refs/tags/" ++ GitHub.tag tag in
                call (CreateRef r ref (GitHub.sha tag))
                  (createRef git r ref (GitHub.sha tag))) ;;
     debug ("Created new reference [" ++ ref tagRef ++ "] at [" ++ url tagRef ++ "]") ;;

     setOutput "tag_name" (VString tagName) ;;
     setOutput "tag_revision" (VNumber tagRevision) ;;
     (* [typeof tag === 'object' && typeof tagRef === 'object'] holds of the two
        responses, which are objects *)
     setOutput "tag_sha" (VString (GitHub.sha tag)) ;;
     setOutput "tag_uri" (VString (url tagRef)) ;;

     info ("Created new tag [" ++ tagName ++ "] for commit [" ++ sha ++ "]"))
    (fun e => setFailed (Caught e) ;; returned).

(** [run()]: the events of the whole execution. *)
Definition main (env : Env) : list Event := fst (run env).

(** The events of [main.js] among them. *)
Fixpoint events (tr : list Event) : list Effects.Event :=
  match tr with
  | Core ev :: tr' => ev :: events tr'
  | Debug _ :: tr' => events tr'
  | [] => []
  end.

End Program.
End LegacyRun.

(* ------------------------------------------------------------------------- *)
(** ** Concrete environments, for evaluating runs *)

Module Sample.
Import JsString JsNumber GitHub Effects Main.
Local Open Scope string_scope.

(** A server that accepts every request: it lists [tags], reports [commits]
    for any comparison, and echoes what it is asked to create. *)
Definition client (tags : list TagItem) (commits : list (option CommitItem)) : Client :=
  mkClient
    (fun _ _ => inr tags)
    (fun _ _ _ => inr (Some commits))
    (fun _ tag _ _ _ => inr (mkTagData tag "7a9c"))
    (fun _ ref _ => inr (mkRefData ref ("https://api.example/" ++ ref)))
    (fun _ _ _ tag _ _ => inr (mkReleaseData ("https://api.example/releases/" ++ tag))).

(** The configuration of the README: [package.json] holds the version. *)
Definition env (tagFormat version : string) (tags : list TagItem)
  (commits : list (option CommitItem)) (sha : option string) : Env :=
  mkEnv
    (fun key =>
       if key =? "api_token" then "token"
       else if key =? "source_file" then "package.json"
       else if key =? "version_pattern" then "^version=(?<version>.+)$"
       else if key =? "tag_format" then tagFormat
       else "")
    (fun path => path =? "package.json")
    (fun _ => inr ("name=demo" ++ nl ++ "version=" ++ version ++ nl))
    (fun _ => inr (client tags commits))
    sha
    (inr (mkRepo "snapserv" "demo")).

Definition main : Env -> list Event := @Main.main Mini.engine SemVer.strict.

End Sample.


(* ------------------------------------------------------------------------- *)
(** ** Reading a trace *)

Module Trace.
Import GitHub Effects.

(** The requests of a trace, in order. *)
Fixpoint calls (tr : list Event) : list Request :=
  match tr with
  | Call r :: tr' => r :: calls tr'
  | _ :: tr' => calls tr'
  | [] => []
  end.

(** The requests that create a tag object, a reference or a release. *)
Definition creations (tr : list Event) : list Request := filter creates (calls tr).

(** The failures reported with [core.setFailed]; a run succeeds when there is
    none. *)
Fixpoint failures (tr : list Event) : list Failure :=
  match tr with
  | SetFailed f :: tr' => f :: failures tr'
  | _ :: tr' => failures tr'
  | [] => []
  end.

(** The outputs set, in order. *)
Fixpoint outputs (tr : list Event) : list (string * Value) :=
  match tr with
  | SetOutput k v :: tr' => (k, v) :: outputs tr'
  | _ :: tr' => outputs tr'
  | [] => []
  end.

End Trace.

(* ------------------------------------------------------------------------- *)
(** ** Shapes of strings *)

Module Text.
Import JsString.
Local Open Scope string_scope.

(** [rest] is what is left of [s] after some prefix. *)
Definition suffixOf (rest s : string) : Prop := exists x, s = x ++ rest.

(** The last code unit of a string. *)
Fixpoint lastChar (s : string) : option ascii :=
  match s with
  | EmptyString => None
  | String c EmptyString => Some c
  | String _ r => lastChar r
  end.

(** The first code unit of a string. *)
Definition firstChar (s : string) : option ascii :=
  match s with
  | String c _ => Some c
  | EmptyString => None
  end.

(** Every code unit of [s] is white space. *)
Fixpoint blank (s : string) : bool :=
  match s with
  | String c r => isWhiteSpace c && blank r
  | EmptyString => true
  end.

(** Trimming, as the specification words it: [t] is [s] without its leading
    and trailing white space.  What is cut off at either end is white space,
    and [t] neither starts nor ends with white space. *)
Definition Trimmed (s t : string) : Prop :=
  (exists l r, s = l ++ t ++ r /\ blank l = true /\ blank r = true)
  /\ (forall c, firstChar t = Some c -> isWhiteSpace c = false)
  /\ (forall c, lastChar t = Some c -> isWhiteSpace c = false).

(** A string that starts with [^] and ends with [$]. *)
Definition anchored (s : string) : Prop := exists body, s = "^" ++ body ++ "$".

(** The number of occurrences of [pat] in [s]. *)
Fixpoint count (pat s : string) : nat :=
  (if startsWith pat s then 1 else 0)
  + match s with
    | String _ r => count pat r
    | EmptyString => 0
    end.

(** No code unit of [s] is [c]. *)
Fixpoint free (c : ascii) (s : string) : bool :=
  match s with
  | String d r => negb (Ascii.eqb c d) && free c r
  | EmptyString => true
  end.

(** A placeholder: an opening brace followed by text without one. *)
Definition placeholder (q : string) : Prop :=
  exists q', q = String "{" q' /\ free "{" q' = true.

End Text.

(* ------------------------------------------------------------------------- *)
(** ** Invariants of the executable engine *)

Module Invariants.
Import JsString RegExp Mini Text.
Local Open Scope string_scope.

(** A parser that yields no named group on input without [(?<]. *)
Definition NoGroups (parse : string -> Parse (Node * string)) : Prop :=
  forall s n rest,
    includes "(?<" s = false -> parse s = Ok (n, rest) ->
    groupNames n = [] /\ suffixOf rest s.

(** A match that starts without captures ends without captures. *)
Definition Bare (k : MState -> option MState) : Prop :=
  forall st r, caps st = [] -> k st = Some r -> caps r = [].

(** A parser that leaves a part of its input. *)
Definition Advances (parse : string -> Parse (Node * string)) : Prop :=
  forall s n rest, parse s = Ok (n, rest) -> suffixOf rest s.

(** The state is a point of [input]: [pos] code units lie before it and
    [rest] is what follows. *)
Definition At (input : string) (st : MState) : Prop :=
  exists x, input = x ++ rest st /\ length x = pos st.

Definition isEnd (n : Node) : bool :=
  match n with Assert End => true | _ => false end.

Definition isEpsilon (n : Node) : bool :=
  match n with Epsilon => true | _ => false end.

(** The last term of a sequence of terms is the assertion [$]. *)
Fixpoint endsAtEnd (n : Node) : bool :=
  match n with
  | Seq t u => isEnd t && isEpsilon u || endsAtEnd u
  | _ => false
  end.

(** One alternative, from the assertion [^] to the assertion [$]. *)
Definition spans (n : Node) : bool :=
  match n with
  | Seq (Assert Start) u => endsAtEnd u
  | _ => false
  end.

End Invariants.

(* ------------------------------------------------------------------------- *)
(** ** The paths of a run *)

Module Paths.
Import JsString JsNumber GitHub Effects Main Trace.
Import RegExp(Engine, RegExp, newRegExp, exec, RegExpExecArray, groups, get).
Import SemVer(Parser, parse, major, prerelease).
Local Open Scope string_scope.

(** The version is one of the three that stop the run. *)
Definition allZeros (version : string) : bool :=
  (version =? "0") || (version =? "0.0") || (version =? "0.0.0").

Section Program.
Context {engine : Engine} {semver : Parser}.

(** The run read [version] from the source file. *)
Definition Extracted (env : Env) (version : string) : Prop :=
  exists versionRegExp contents matches g,
    newRegExp (getInput env "version_pattern") "gm" = inr versionRegExp /\
    existsSync env (getInput env "source_file") = true /\
    readFileSync env (getInput env "source_file") = inr contents /\
    exec versionRegExp contents = Some matches /\
    groups matches = Some g /\
    get "version" g = Some version /\
    truthy version = true.

(** The run got as far as the search: it read [version], built [tagRegExp]
    from the tag format, and the server listed [tags]. *)
Definition Searched (env : Env) (version : string) (tagRegExp : RegExp)
  (git : Client) (r : Repo) (tags : list TagItem) : Prop :=
  Extracted env version /\
  allZeros version = false /\
  newRegExp (tagPattern (getInput env "tag_format") version) "" = inr tagRegExp /\
  newGitHub env (getInput env "api_token") = inr git /\
  context_repo env = inr r /\
  listTags git r 100 = inr tags.

(** The same two facts, computed: the version a run reads, and what a run
    has at hand when it gets as far as the search. *)
Definition extract (env : Env) : option string :=
  match newRegExp (getInput env "version_pattern") "gm" with
  | inr versionRegExp =>
      if existsSync env (getInput env "source_file") then
        match readFileSync env (getInput env "source_file") with
        | inr contents =>
            match exec versionRegExp contents with
            | Some matches =>
                nonEmpty (match groups matches with
                          | Some g => get "version" g
                          | None => None
                          end)
            | None => None
            end
        | inl _ => None
        end
      else None
  | inl _ => None
  end.

Definition reach (env : Env)
  : option (string * RegExp * Client * Repo * list TagItem) :=
  match extract env with
  | Some version =>
      if allZeros version then None
      else
        match newRegExp (tagPattern (getInput env "tag_format") version) "",
              newGitHub env (getInput env "api_token"),
              context_repo env with
        | inr tagRegExp, inr git, inr r =>
            match listTags git r 100 with
            | inr tags => Some (version, tagRegExp, git, r, tags)
            | inl _ => None
            end
        | _, _, _ => None
        end
  | None => None
  end.

(** What every run that got as far as the search has done by then. *)
Definition searchEvents (version : string) (tagRegExp : RegExp) (r : Repo)
  (matchingTag : option MatchingTag) : list Event :=
  [ SetOutput "version" (VString version);
    Info ("Extracted version from source file: " ++ version);
    Info ("Searching for existing tag with pattern: " ++ RegExp.toString tagRegExp);
    Call (ListTags r 100);
    Info ("Search result for tag pattern: "
          ++ match matchingTag with Some mt => name mt | None => "not-found" end) ].

(** The two guards let the run pass: the matching tag, if any, is neither at
    the current commit nor named as desired. *)
Definition Unguarded (env : Env) (matchingTag : option MatchingTag) (desired : string) : Prop :=
  match matchingTag with
  | Some mt => strictEq (sha mt) (context_sha env) = false /\ (name mt =? desired) = false
  | None => True
  end.

(** The part of [run] from the changelog on, for a run that passed the guards
    with a commit [sha]. *)
Definition publish (env : Env) (version : string) (git : Client) (tags : list TagItem)
  (sha tagName : string) (tagRevision : Number) : Action unit :=
  (info ("Generating tag message from [" ++ orNull (changelogFrom tags) ++ "] to ["
         ++ sha ++ "]") ;;
   tagMessage <- getTagMessage git env (changelogFrom tags) (Some sha) ;;
   info ("Generated tag message: " ++ tagMessage) ;;
   info ("Creating new tag [" ++ tagName ++ "] at [" ++ sha ++ "]...") ;;
   r <- lift (context_repo env) ;;
   tag <- (let message := tagName ++ nl ++ nl ++ tagMessage in
           call (CreateTag r tagName message sha "commit")
             (createTag git r tagName message sha "commit")) ;;
   info ("Created new tag [" ++ GitHub.tag tag ++ "] at [" ++ sha ++ "]") ;;
   info ("Creating new reference [" ++ GitHub.tag tag ++ " => " ++ GitHub.sha tag ++ "]...") ;;
   r <- lift (context_repo env) ;;
   tagRef <- (let ref := "refs/tags/" ++ GitHub.tag tag in
              call (CreateRef r ref (GitHub.sha tag)) (createRef git r ref (GitHub.sha tag))) ;;
   info ("Created new reference [" ++ ref tagRef ++ "] at [" ++ url tagRef ++ "]") ;;
   info ("Creating new release [" ++ tagName ++ "]...") ;;
   r <- lift (context_repo env) ;;
   release <- (let prerelease := isPrerelease version in
               call (CreateRelease r tagName tagMessage tagName false prerelease)
                 (createRelease git r tagName tagMessage tagName false prerelease)) ;;
   info ("Created new release [" ++ release_url release ++ "]") ;;
   setOutput "tag_name" (VString tagName) ;;
   setOutput "tag_revision" (VNumber tagRevision) ;;
   setOutput "tag_sha" (VString (GitHub.sha tag)) ;;
   setOutput "tag_uri" (VString (url tagRef)) ;;
   setOutput "release_uri" (VString (release_url release)) ;;
   info ("Created new tag [" ++ tagName ++ "] for commit [" ++ sha ++ "]"))%action.

(** The events of a whole execution whose [run] is [m]. *)
Definition finish (m : Action unit) : list Event :=
  match m with
  | (tr, Thrown e) => (tr ++ [SetFailed (Caught e)])%list
  | (tr, _) => tr
  end.

(** The name the pattern is tried on. *)
Definition normalised (tag : TagItem) : string := toLowerCase (trim (GitHub.name tag)).

End Program.

(** *** The changelog *)

(** The line of one commit, as the specification words it. *)
Definition changelogLine (c : CommitItem) : string :=
  "* " ++ GitHub.message c
  ++ match author c with
     | Some a => if truthy (login a) then " (" ++ login a ++ ")" else ""
     | None => ""
     end.

(** The commits of a comparison that are not [null]. *)
Fixpoint present (commits : list (option CommitItem)) : list CommitItem :=
  match commits with
  | Some c :: rest => c :: present rest
  | None :: rest => present rest
  | [] => []
  end.

(** The changelog as the specification words it: the lines joined by line
    feeds, trimmed. *)
Definition render (commits : list (option CommitItem)) : string :=
  trim (join nl (map changelogLine (present commits))).

End Paths.

(* ------------------------------------------------------------------------- *)
(** ** The stages of a run *)

Module Stages.
Import JsString JsError GitHub Effects.
Local Open Scope string_scope.

(** The first two events of a run that read [version]. *)
Definition head (version : string) : list Event :=
  [ SetOutput "version" (VString version);
    Info ("Extracted version from source file: " ++ version) ].

(** The place of a request in the order of the program text. *)
Definition stage (rq : Request) : nat :=
  match rq with
  | ListTags _ _ => 0
  | CompareCommits _ _ _ => 1
  | CreateTag _ _ _ _ _ => 2
  | CreateRef _ _ _ => 3
  | CreateRelease _ _ _ _ _ _ => 4
  end.

(** The repository a request addresses. *)
Definition repoOf (rq : Request) : Repo :=
  match rq with
  | ListTags r _ | CompareCommits r _ _ | CreateTag r _ _ _ _ | CreateRef r _ _
  | CreateRelease r _ _ _ _ _ => r
  end.

(** The names of the outputs of a trace, in order. *)
Definition outputNames (tr : list Event) : list string := map fst (Trace.outputs tr).

(** What the server answers to a request, when it is an error. *)
Definition refusal (git : Client) (rq : Request) : option Error :=
  match rq with
  | ListTags r n =>
      match listTags git r n with inl e => Some e | inr _ => None end
  | CompareCommits r base head =>
      match compareCommits git r base head with inl e => Some e | inr _ => None end
  | CreateTag r tag message object type =>
      match createTag git r tag message object type with inl e => Some e | inr _ => None end
  | CreateRef r ref sha =>
      match createRef git r ref sha with inl e => Some e | inr _ => None end
  | CreateRelease r name body tag_name draft prerelease =>
      match createRelease git r name body tag_name draft prerelease with
      | inl e => Some e
      | inr _ => None
      end
  end.

End Stages.

(* ------------------------------------------------------------------------- *)
(** ** Environments in which something is missing or refused *)

Module Faulty.
Import JsString JsError GitHub Effects.
Local Open Scope string_scope.

(** The answer of a server that refuses a request. *)
Definition refused : Error := mkError "HttpError" "Validation Failed".

(** [git], but the server refuses to create a reference. *)
Definition noReference (git : Client) : Client :=
  mkClient (listTags git) (compareCommits git) (createTag git)
    (fun _ _ _ => inl refused) (createRelease git).

(** [env] with the server [git]. *)
Definition withClient (env : Env) (git : Client) : Env :=
  mkEnv (getInput env) (existsSync env) (readFileSync env) (fun _ => inr git)
    (context_sha env) (context_repo env).

(** [env] without any file. *)
Definition withoutFile (env : Env) : Env :=
  mkEnv (getInput env) (fun _ => false) (readFileSync env) (newGitHub env)
    (context_sha env) (context_repo env).

End Faulty.

(* ------------------------------------------------------------------------- *)
(** ** What a computation of the earlier version sends *)

Module LegacyStages.
Import GitHub Effects LegacyEffects.

(** Every request of [m] satisfies [P]. *)
Definition Sends (P : Request -> Prop) {A : Type} (m : LegacyEffects.Action A) : Prop :=
  forall rq, In (Core (Call rq)) (fst m) -> P rq.

(** The same of a computation of [main.js]. *)
Definition CoreSends (P : Request -> Prop) {A : Type} (m : Effects.Action A) : Prop :=
  forall rq, In (Call rq) (fst m) -> P rq.

End LegacyStages.

(* ------------------------------------------------------------------------- *)
(** ** Facts about strings *)

Module StringFacts.
Import JsString.
Local Open Scope string_scope.
#[local] Arguments startsWith : simpl never.

Lemma append_nil_r (s : string) : s ++ "" = s.
Proof. induction s as [|c s IH]; simpl; [reflexivity | now rewrite IH]. Qed.

Lemma append_assoc (a b c : string) : (a ++ b) ++ c = a ++ (b ++ c).
Proof. induction a as [|x a IH]; simpl; [reflexivity | now rewrite IH]. Qed.

Lemma length_append (a b : string) : length (a ++ b) = (length a + length b)%nat.
Proof. induction a as [|x a IH]; simpl; [reflexivity | now rewrite IH]. Qed.

Lemma append_inv_head (a b c : string) : a ++ b = a ++ c -> b = c.
Proof. induction a as [|x a IH]; simpl; intros H; [exact H | injection H; auto]. Qed.

(** [startsWith p s] holds exactly when [s] is [p] followed by something. *)
Lemma startsWith_spec (p s : string) :
  startsWith p s = true <-> exists r, s = p ++ r.
Proof.
  unfold startsWith. revert s; induction p as [|c p IH]; intros s.
  - split; [intros _; exists s; reflexivity | intros _; destruct s; reflexivity].
  - destruct s as [|d s]; simpl.
    + split; [discriminate | intros [r H]; discriminate H].
    + destruct (ascii_dec c d) as [->|Hne].
      * rewrite IH. split; intros [r H]; exists r; [now rewrite H | now injection H].
      * split; [discriminate | intros [r H]; injection H; intros _ E; now elim Hne].
Qed.

Lemma drop_append (a b : string) : drop (length a) (a ++ b) = b.
Proof. induction a as [|x a IH]; simpl; [reflexivity | exact IH]. Qed.

Lemma toLowerCase_append (a b : string) :
  toLowerCase (a ++ b) = toLowerCase a ++ toLowerCase b.
Proof. induction a as [|x a IH]; simpl; [reflexivity | now rewrite IH]. Qed.

Lemma length_toLowerCase (s : string) : length (toLowerCase s) = length s.
Proof. induction s as [|c s IH]; simpl; [reflexivity | now rewrite IH]. Qed.

(** [splitAtFirst] cuts [s] around an occurrence of [pat] ... *)
Lemma splitAtFirst_sound (pat s before after : string) :
  splitAtFirst pat s = Some (before, after) -> s = before ++ pat ++ after.
Proof.
  revert before; induction s as [|c s IH]; intros before; simpl.
  - destruct (startsWith pat "") eqn:E; [|discriminate].
    intros H; injection H as <- <-.
    apply startsWith_spec in E as [r E]. destruct pat; [|discriminate E].
    reflexivity.
  - destruct (startsWith pat (String c s)) eqn:E.
    + intros H; injection H as <- <-.
      apply startsWith_spec in E as [r E]. rewrite E at 1.
      simpl. f_equal. rewrite E, drop_append. reflexivity.
    + destruct (splitAtFirst pat s) as [[b a]|]; [|discriminate].
      intros H; injection H as <- <-. simpl. f_equal. now apply IH.
Qed.

(** ... which is the first one: [pat] does not start at any earlier
    position. *)
Lemma splitAtFirst_first (pat s before after x y : string) :
  splitAtFirst pat s = Some (before, after) ->
  s = x ++ pat ++ y -> (length before <= length x)%nat.
Proof.
  revert before x; induction s as [|c s IH]; intros before x; simpl.
  - destruct (startsWith pat ""); [|discriminate].
    intros H; injection H as <- <-. intros _; simpl; lia.
  - destruct (startsWith pat (String c s)) eqn:E.
    + intros H; injection H as <- <-. intros _; simpl; lia.
    + destruct (splitAtFirst pat s) as [[b a]|] eqn:Es; [|discriminate].
      intros H; injection H as <- <-. intros Hs.
      destruct x as [|d x].
      * simpl in Hs. assert (startsWith pat (String c s) = true) as E'
          by (apply startsWith_spec; exists y; exact Hs).
        congruence.
      * simpl in Hs. injection Hs as _ Hs. simpl.
        apply le_n_S. eapply IH; [reflexivity | exact Hs].
Qed.

(** [splitAtFirst] finds an occurrence whenever there is one. *)
Lemma splitAtFirst_complete (pat s x y : string) :
  s = x ++ pat ++ y -> splitAtFirst pat s <> None.
Proof.
  revert x; induction s as [|c s IH]; intros x Hs; simpl.
  - destruct x; [|discriminate Hs]. destruct pat; [|discriminate Hs].
    simpl. discriminate.
  - destruct (startsWith pat (String c s)) eqn:E; [discriminate|].
    destruct x as [|d x].
    + simpl in Hs. assert (startsWith pat (String c s) = true) as E'
        by (apply startsWith_spec; exists y; exact Hs).
      congruence.
    + simpl in Hs. injection Hs as _ Hs.
      specialize (IH x Hs). destruct (splitAtFirst pat s) as [[b a]|]; [discriminate|].
      now elim IH.
Qed.

(** Two cuts of one string at the same position are the same cut. *)
Lemma append_eq_length (a b c d : string) :
  a ++ b = c ++ d -> length a = length c -> a = c /\ b = d.
Proof.
  revert c; induction a as [|x a IH]; intros [|y c]; simpl; intros H L;
    try discriminate L.
  - auto.
  - injection H as -> H. injection L as L. destruct (IH _ H L) as [-> ->]. auto.
Qed.

(** The specification of [replace]: the first occurrence of the pattern, and
    only that one, gives way to the substitution. *)
Lemma replace_first (s pat replacement before after : string) :
  s = before ++ pat ++ after ->
  (forall x y, s = x ++ pat ++ y -> (length before <= length x)%nat) ->
  replace s pat replacement
  = before ++ GetSubstitution pat before after replacement ++ after.
Proof.
  intros Hs Hfirst. unfold replace.
  destruct (splitAtFirst pat s) as [[b a]|] eqn:E.
  - pose proof (splitAtFirst_sound _ _ _ _ E) as Hs'.
    pose proof (splitAtFirst_first _ _ _ _ _ _ E Hs) as L1.
    pose proof (Hfirst _ _ Hs') as L2.
    assert (b = before /\ pat ++ a = pat ++ after) as [-> Ha].
    { apply append_eq_length; [congruence | lia]. }
    apply append_inv_head in Ha. subst a. reflexivity.
  - now elim (splitAtFirst_complete _ _ _ _ Hs).
Qed.

Lemma replace_absent (s pat replacement : string) :
  (forall x y, s <> x ++ pat ++ y) -> replace s pat replacement = s.
Proof.
  intros H. unfold replace.
  destruct (splitAtFirst pat s) as [[b a]|] eqn:E; [|reflexivity].
  elim (H b a). now apply splitAtFirst_sound.
Qed.

Lemma includes_spec (pat s : string) :
  includes pat s = true <-> exists x y, s = x ++ pat ++ y.
Proof.
  unfold includes. destruct (splitAtFirst pat s) as [[b a]|] eqn:E.
  - split; [intros _ | reflexivity]. exists b, a. now apply splitAtFirst_sound.
  - split; [discriminate|]. intros (x & y & H).
    now elim (splitAtFirst_complete _ _ _ _ H).
Qed.

(** A line feed in front does not survive [trim]. *)
Lemma trim_leading_whitespace (c : ascii) (s : string) :
  isWhiteSpace c = true -> trim (String c s) = trim s.
Proof. intros H. unfold trim. simpl. now rewrite H. Qed.

(** *** The last code unit, and single code units *)

Lemma lastChar_append (x y : string) :
  y <> "" -> Text.lastChar (x ++ y) = Text.lastChar y.
Proof.
  intros Hy. induction x as [|c x IH]; [reflexivity|].
  cbn [append Text.lastChar]. rewrite IH.
  destruct (x ++ y) eqn:E; [|reflexivity].
  destruct x; [simpl in E; congruence | discriminate E].
Qed.

Lemma includes_char_cons (c d : ascii) (s : string) :
  includes (String c "") (String d s) = Ascii.eqb c d || includes (String c "") s.
Proof.
  unfold includes. cbn [splitAtFirst]. unfold startsWith at 1. cbn [prefix].
  destruct (ascii_dec c d) as [->|Hne].
  - rewrite Ascii.eqb_refl. now destruct s.
  - apply Ascii.eqb_neq in Hne. rewrite Hne. cbn [orb].
    now destruct (splitAtFirst (String c "") s) as [[b a]|].
Qed.

Lemma includes_char_append (c : ascii) (a b : string) :
  includes (String c "") (a ++ b) = includes (String c "") a || includes (String c "") b.
Proof.
  induction a as [|d a IH]; [reflexivity|].
  cbn [append]. now rewrite !includes_char_cons, IH, orb_assoc.
Qed.

(** *** [trim] against the wording of the specification *)

Lemma trimStart_spec (s : string) :
  exists l, s = l ++ trimStart s /\ Text.blank l = true
            /\ forall c, Text.firstChar (trimStart s) = Some c -> isWhiteSpace c = false.
Proof.
  induction s as [|c s (l & Hs & Hl & Hc)]; cbn [trimStart].
  - exists "". repeat split. discriminate.
  - destruct (isWhiteSpace c) eqn:E.
    + exists (String c l). cbn [append Text.blank]. rewrite E, Hl, <- Hs. auto.
    + exists "". repeat split. cbn [Text.firstChar]. now intros c' [= <-].
Qed.

Lemma trimEnd_spec (s : string) :
  exists r, s = trimEnd s ++ r /\ Text.blank r = true
            /\ forall c, Text.lastChar (trimEnd s) = Some c -> isWhiteSpace c = false.
Proof.
  induction s as [|c s (r & Hs & Hr & Hc)]; cbn [trimEnd].
  - exists "". repeat split. discriminate.
  - cbv zeta. destruct (isWhiteSpace c) eqn:E; cbn [andb].
    + destruct (trimEnd s) as [|d t] eqn:Et; cbn [String.eqb].
      * exists (String c s). cbn [append Text.blank]. rewrite E.
        cbn [append] in Hs. rewrite Hs, Hr. repeat split. discriminate.
      * exists r. split; [cbn [append]; f_equal; exact Hs|]. split; [exact Hr|].
        exact Hc.
    + exists r. split; [cbn [append]; f_equal; exact Hs|]. split; [exact Hr|].
      destruct (trimEnd s) as [|d t] eqn:Et; [|exact Hc].
      cbn [Text.lastChar]. now intros c' [= <-].
Qed.

Lemma trimEnd_firstChar (s : string) (c : ascii) :
  Text.firstChar (trimEnd s) = Some c -> Text.firstChar s = Some c.
Proof.
  destruct s as [|d s]; cbn [trimEnd]; [discriminate|]. cbv zeta.
  destruct (isWhiteSpace d && (trimEnd s =? "")); [discriminate | exact (fun H => H)].
Qed.

(** [trim] removes white space from both ends, all of it and nothing else. *)
Lemma trim_Trimmed (s : string) : Text.Trimmed s (trim s).
Proof.
  unfold trim.
  destruct (trimStart_spec s) as (l & Hs & Hl & Hfirst).
  destruct (trimEnd_spec (trimStart s)) as (r & Ht & Hr & Hlast).
  split; [|split].
  - exists l, r. rewrite <- Ht. auto.
  - intros c H. apply Hfirst. now apply trimEnd_firstChar.
  - exact Hlast.
Qed.

Lemma trimStart_blank (l s : string) :
  Text.blank l = true -> trimStart (l ++ s) = trimStart s.
Proof.
  induction l as [|c l IH]; cbn [append Text.blank trimStart]; [reflexivity|].
  intros H. apply andb_true_iff in H as [-> H]. now apply IH.
Qed.

Lemma trimEnd_blank (r : string) : Text.blank r = true -> trimEnd r = "".
Proof.
  induction r as [|c r IH]; cbn [Text.blank trimEnd]; [reflexivity|].
  intros H. apply andb_true_iff in H as [-> H]. now rewrite (IH H).
Qed.

Lemma trimEnd_kept (t r : string) :
  Text.blank r = true ->
  (forall c, Text.lastChar t = Some c -> isWhiteSpace c = false) ->
  trimEnd (t ++ r) = t.
Proof.
  intros Hr. induction t as [|c t IH]; intros Hlast; cbn [append].
  - now apply trimEnd_blank.
  - cbn [trimEnd]. cbv zeta. destruct t as [|d t].
    + cbn [append]. rewrite (trimEnd_blank r Hr), (Hlast c eq_refl). reflexivity.
    + rewrite IH by exact Hlast. now rewrite andb_false_r.
Qed.

(** The wording leaves one result only, the one of [trim]. *)
Lemma Trimmed_trim (s t : string) : Text.Trimmed s t -> t = trim s.
Proof.
  intros ((l & r & -> & Hl & Hr) & Hfirst & Hlast). unfold trim.
  rewrite (trimStart_blank _ _ Hl). destruct t as [|c t].
  - cbn [append]. rewrite <- (append_nil_r r) at 1.
    rewrite (trimStart_blank _ _ Hr). reflexivity.
  - cbn [append trimStart]. rewrite (Hfirst c eq_refl).
    symmetry. now apply (trimEnd_kept (String c t)).
Qed.

End StringFacts.

(* ------------------------------------------------------------------------- *)
(** ** The executable engine is lawful *)

Module MiniFacts.
Import JsString StringFacts RegExp Mini Text Invariants.
Local Open Scope string_scope.
#[local] Arguments startsWith : simpl never.

Lemma suffixOf_refl (s : string) : suffixOf s s.
Proof. now exists "". Qed.

Lemma suffixOf_trans (a b c : string) : suffixOf a b -> suffixOf b c -> suffixOf a c.
Proof. intros [x ->] [y ->]. exists (y ++ x). now rewrite append_assoc. Qed.

Lemma suffixOf_cons (rest s : string) (c : ascii) :
  suffixOf rest s -> suffixOf rest (String c s).
Proof. intros [x ->]. now exists (String c x). Qed.

Lemma suffixOf_drop (n : nat) (s : string) : suffixOf (drop n s) s.
Proof.
  revert s; induction n as [|n IH]; intros s; [apply suffixOf_refl|].
  destruct s as [|c s]; [apply suffixOf_refl|]. cbn [drop].
  apply suffixOf_cons, IH.
Qed.

Lemma includes_suffixOf (pat rest s : string) :
  suffixOf rest s -> includes pat s = false -> includes pat rest = false.
Proof.
  intros [x ->] H. destruct (includes pat rest) eqn:E; [|reflexivity].
  apply includes_spec in E as (a & b & ->).
  assert (includes pat (x ++ a ++ pat ++ b) = true) as H'.
  { apply includes_spec. exists (x ++ a), b. now rewrite !append_assoc. }
  congruence.
Qed.

Lemma parseClass_suffixOf (s : string) :
  forall acc items rest, parseClass s acc = Ok (items, rest) -> suffixOf rest s.
Proof.
  remember (length s) as n eqn:Hn. revert s Hn.
  induction n as [n IH] using lt_wf_ind. intros s Hn acc items rest.
  destruct s as [|c r]; cbn [parseClass]; [discriminate|].
  cbn [length] in Hn.
  destruct (c =? "]")%char.
  { intros H; injection H as _ <-. apply suffixOf_cons, suffixOf_refl. }
  destruct (c =? "\")%char.
  { destruct r as [|e r']; [discriminate|].
    destruct (parseEscape true e r'); try discriminate.
    destruct (rangeFollows r'); [discriminate|].
    intros H. do 2 apply suffixOf_cons.
    eapply (IH (length r')); [cbn [length] in Hn; lia | reflexivity | exact H]. }
  assert (forall acc', parseClass r acc' = Ok (items, rest) -> suffixOf rest (String c r))
    as one.
  { intros acc' H. apply suffixOf_cons.
    eapply (IH (length r)); [lia | reflexivity | exact H]. }
  destruct r as [|d [|hi r']]; [apply one | apply one |].
  destruct (rangeFollows (String d (String hi r'))); [|apply one].
  destruct (hi =? "\")%char; [discriminate|].
  destruct (code hi <? code c)%N; [discriminate|].
  intros H. do 3 apply suffixOf_cons.
  eapply (IH (length r')); [cbn [length] in Hn; lia | reflexivity | exact H].
Qed.

Lemma parseQuantifier_spec (m : CharMatcher) (s : string) (n : Node) (rest : string) :
  parseQuantifier m s = Ok (n, rest) -> groupNames n = [] /\ suffixOf rest s.
Proof.
  unfold parseQuantifier. cbv zeta.
  repeat match goal with
         | |- context [if ?b then _ else _] => destruct b
         end;
    intros H; try discriminate H; injection H as <- <-;
    (split; [reflexivity | first [apply (suffixOf_drop 1) | apply suffixOf_refl]]).
Qed.

Lemma closeGroup_spec (name : option (option string)) (body : Node) (rest : string)
  (n : Node) (rest' : string) :
  closeGroup name body rest = Ok (n, rest') ->
  n = match name with Some nm => Group nm body | None => body end /\ suffixOf rest' rest.
Proof.
  unfold closeGroup. destruct (startsWith ")" rest); [|discriminate].
  destruct (startsQuantifier (drop 1 rest)); [discriminate|].
  intros H; injection H as <- <-. split; [reflexivity | apply (suffixOf_drop 1)].
Qed.

Lemma includes_group_syntax (r : string) :
  startsWith "?<" r = true -> includes "(?<" (String "(" r) = true.
Proof.
  intros H. apply startsWith_spec in H as [y ->].
  apply includes_spec. now exists "", y.
Qed.

Lemma parse_no_groups (fuel : nat) :
  NoGroups (parseDisjunction fuel) /\ NoGroups (parseAlternative fuel)
  /\ NoGroups (parseTerm fuel).
Proof.
  induction fuel as [|f (D & A & T)].
  { split; [|split]; intros s n rest _ H; discriminate H. }
  assert (forall s s', suffixOf s' s -> includes "(?<" s = false ->
                       includes "(?<" s' = false) as keep
    by (intros a b Hab; now apply includes_suffixOf).
  split; [|split]; intros s n rest Hs; cbn [parseDisjunction parseAlternative parseTerm].
  - destruct (parseAlternative f s) as [[a r1]| |] eqn:Ea; cbn [bind]; try discriminate.
    destruct (A _ _ _ Hs Ea) as [Ga S1].
    destruct (startsWith "|" r1).
    + destruct (parseDisjunction f (drop 1 r1)) as [[b r2]| |] eqn:Eb; cbn [bind];
        try discriminate.
      assert (suffixOf (drop 1 r1) s) as S2
        by (eapply suffixOf_trans; [apply suffixOf_drop | exact S1]).
      destruct (D _ _ _ (keep _ _ S2 Hs) Eb) as [Gb S3].
      intros H; injection H as <- <-. split.
      * cbn [groupNames]. now rewrite Ga, Gb.
      * eapply suffixOf_trans; eassumption.
    + intros H; injection H as <- <-. auto.
  - destruct ((s =? "") || startsWith "|" s || startsWith ")" s).
    { intros H; injection H as <- <-. split; [reflexivity | apply suffixOf_refl]. }
    destruct (parseTerm f s) as [[t r1]| |] eqn:Et; cbn [bind]; try discriminate.
    destruct (T _ _ _ Hs Et) as [Gt S1].
    destruct (parseAlternative f r1) as [[u r2]| |] eqn:Eu; cbn [bind]; try discriminate.
    destruct (A _ _ _ (keep _ _ S1 Hs) Eu) as [Gu S2].
    intros H; injection H as <- <-. split.
    + cbn [groupNames]. now rewrite Gt, Gu.
    + eapply suffixOf_trans; eassumption.
  - destruct s as [|c r].
    { intros H; injection H as <- <-. split; [reflexivity | apply suffixOf_refl]. }
    assert (forall m r' , suffixOf r' (String c r) ->
              parseQuantifier m r' = Ok (n, rest) ->
              groupNames n = [] /\ suffixOf rest (String c r)) as quantified.
    { intros m r' Hr' H. apply parseQuantifier_spec in H as [G S1].
      split; [exact G | eapply suffixOf_trans; eassumption]. }
    assert (suffixOf r (String c r)) as Sr by apply suffixOf_cons, suffixOf_refl.
    destruct (c =? "^")%char.
    { intros H; injection H as <- <-. now split. }
    destruct (c =? "$")%char.
    { intros H; injection H as <- <-. now split. }
    destruct (c =? "(")%char eqn:Ec.
    { apply Ascii.eqb_eq in Ec. subst c.
      destruct (startsWith "?:" r).
      { destruct (parseDisjunction f (drop 2 r)) as [[body r1]| |] eqn:Eb; cbn [bind];
          try discriminate.
        assert (suffixOf (drop 2 r) (String "(" r)) as S0
          by (eapply suffixOf_trans; [apply suffixOf_drop | exact Sr]).
        destruct (D _ _ _ (keep _ _ S0 Hs) Eb) as [Gb S1].
        intros H. apply closeGroup_spec in H as [-> S2]. split; [exact Gb|].
        eapply suffixOf_trans; [exact S2|]. eapply suffixOf_trans; eassumption. }
      destruct (startsWith "?<=" r || startsWith "?<!" r); [discriminate|].
      destruct (startsWith "?<" r) eqn:En.
      { apply includes_group_syntax in En. congruence. }
      destruct (startsWith "?=" r || startsWith "?!" r); [discriminate|].
      destruct (startsWith "?" r); [discriminate|].
      destruct (parseDisjunction f r) as [[body r1]| |] eqn:Eb; cbn [bind];
        try discriminate.
      destruct (D _ _ _ (keep _ _ Sr Hs) Eb) as [Gb S1].
      intros H. apply closeGroup_spec in H as [-> S2]. split; [exact Gb|].
      eapply suffixOf_trans; [exact S2|]. eapply suffixOf_trans; eassumption. }
    destruct ((c =? "*")%char || (c =? "+")%char || (c =? "?")%char); [discriminate|].
    destruct (c =? "[")%char.
    { destruct (startsWith "^" r).
      - destruct (parseClass (drop 1 r) []) as [[items r1]| |] eqn:Ek; cbn [bind];
          try discriminate.
        apply parseClass_suffixOf in Ek. apply quantified.
        eapply suffixOf_trans; [exact Ek|].
        eapply suffixOf_trans; [apply suffixOf_drop | exact Sr].
      - destruct (parseClass r []) as [[items r1]| |] eqn:Ek; cbn [bind];
          try discriminate.
        apply parseClass_suffixOf in Ek. apply quantified.
        eapply suffixOf_trans; eassumption. }
    destruct (c =? "\")%char.
    { destruct r as [|e r']; [discriminate|].
      destruct (parseEscape false e r') as [it| |]; cbn [bind]; try discriminate.
      assert (suffixOf r' (String c (String e r'))) as S0
        by (do 2 apply suffixOf_cons; apply suffixOf_refl).
      destruct it; now apply quantified. }
    destruct (c =? ".")%char; [now apply quantified|].
    destruct (bracedQuantifier (String c r)); [discriminate|].
    now apply quantified.
Qed.

Lemma parsePattern_no_groups (pattern : string) (n : Node) :
  includes "(?<" pattern = false -> parsePattern pattern = Ok n -> groupNames n = [].
Proof.
  intros Hp. unfold parsePattern.
  destruct (parseDisjunction (3 * length pattern + 3) pattern) as [[n' rest]| |] eqn:E;
    cbn [bind]; try discriminate.
  destruct (proj1 (parse_no_groups _) _ _ _ Hp E) as [G _].
  destruct (rest =? ""); [|destruct (startsWith ")" rest); discriminate].
  destruct (hasDuplicate (groupNames n')); [discriminate|].
  intros H; injection H as <-. exact G.
Qed.

Lemma greedy_bare (m : CharMatcher) (k : MState -> option MState) (s : string) :
  Bare k -> forall p r, greedy m k [] s p = Some r -> caps r = [].
Proof.
  intros Hk. induction s as [|c s IH]; intros p r; cbn [greedy].
  - intros H. eapply Hk; [|exact H]. reflexivity.
  - destruct (charMatches m c).
    + destruct (greedy m k [] s (S p)) as [r'|] eqn:E.
      * intros H; injection H as <-. now apply (IH _ _ E).
      * intros H. eapply Hk; [|exact H]. reflexivity.
    + intros H. eapply Hk; [|exact H]. reflexivity.
Qed.

Lemma matchNode_bare (multiline : bool) (input : string) (n : Node) :
  forall k, Bare k -> Bare (fun st => matchNode multiline input n st k).
Proof.
  induction n as [|a|m q|a IHa b IHb|a IHa b IHb|name body IH]; intros k Hk st r Hst;
    cbn [matchNode].
  - now apply Hk.
  - destruct (assertion multiline input a st); [now apply Hk | discriminate].
  - destruct st as [p s g]. cbn [caps rest pos] in *. subst g.
    destruct q;
      repeat match goal with
             | |- context [match ?s with EmptyString => _ | String _ _ => _ end] =>
                 destruct s
             | |- context [if ?b then _ else _] => destruct b
             | |- context [match k ?x with Some _ => _ | None => _ end] =>
                 destruct (k x) eqn:?
             end;
      intros H; try discriminate H;
      first [ now apply (greedy_bare _ _ _ Hk _ _ H)
            | eapply Hk; [|eassumption]; reflexivity
            | injection H as <-; eapply Hk; [|eassumption]; reflexivity ].
  - apply (IHa (fun st' => matchNode multiline input b st' k)); [|exact Hst].
    now apply IHb.
  - destruct (matchNode multiline input a st k) as [r'|] eqn:E.
    + intros H; injection H as <-. now apply (IHa k Hk st).
    + now apply (IHb k Hk st).
  - destruct name as [name|].
    + apply (IH (fun st' =>
                   k (mkState (pos st') (rest st')
                        (setCap name (substring (pos st) (pos st' - pos st) input)
                           (caps st'))))); [|exact Hst].
      intros st' r' Hst' H. eapply Hk; [|exact H].
      cbn [caps]. now rewrite Hst'.
    + now apply (IH k Hk st).
Qed.

Lemma Bare_Some : Bare Some.
Proof. intros st r Hst H. injection H as <-. exact Hst. Qed.

Lemma search_bare (re : Compiled) (input s : string) :
  groupNames (node re) = [] ->
  forall p start st, search re input s p = Some (start, st) -> caps st = [].
Proof.
  intros G. induction s as [|c s IH]; intros p start st; cbn [search]; rewrite G;
    cbn [map];
    destruct (matchNode (multiline re) input (node re) (mkState p _ []) Some)
      as [r|] eqn:E;
    try discriminate.
  - intros H; injection H as _ <-.
    eapply (matchNode_bare _ _ _ _ Bare_Some); [|exact E]. reflexivity.
  - intros H; injection H as _ <-.
    eapply (matchNode_bare _ _ _ _ Bare_Some); [|exact E]. reflexivity.
  - apply IH.
Qed.

Lemma exec_no_groups (re : Compiled) (input : string) (m : RegExpExecArray) :
  groupNames (node re) = [] -> exec re input = Some m -> groups m = None.
Proof.
  intros G. unfold exec.
  destruct (search re input input 0) as [[start st]|] eqn:E; [|discriminate].
  apply (search_bare _ _ _ G) in E. intros H; injection H as <-.
  cbn [groups]. now rewrite E.
Qed.

#[export] Instance lawful : Lawful engine.
Proof.
  constructor. intros pattern flags re s m Hre Hm Hp.
  apply (exec_no_groups re s m); [|exact Hm].
  cbn in Hre. unfold compile in Hre.
  destruct (negb (validFlags flags)); [discriminate|].
  destruct (includes "i" flags || includes "s" flags || includes "u" flags
            || includes "y" flags); [discriminate|].
  destruct (parsePattern pattern) as [n| |] eqn:E; try discriminate.
  injection Hre as <-. cbn [node]. exact (parsePattern_no_groups _ _ Hp E).
Qed.

End MiniFacts.

(* ------------------------------------------------------------------------- *)
(** ** The executable engine binds [^] and [$] to the ends of the input *)

Module MiniAnchors.
Import JsString StringFacts RegExp Mini Text Invariants MiniFacts.
Local Open Scope string_scope.
#[local] Arguments startsWith : simpl never.

(** *** The matcher *)

Lemma At_step (input : string) (p : nat) (c : ascii) (s : string)
  (g g' : list (string * option string)) :
  At input (mkState p (String c s) g) -> At input (mkState (S p) s g').
Proof.
  intros (x & Hx & Hp). cbn [rest pos] in *. exists (x ++ String c "").
  cbn [rest pos]. rewrite append_assoc, length_append. cbn [append length].
  split; [exact Hx | lia].
Qed.

(** Whatever a match returns, it returns through the continuation, at a
    point of the input. *)
Lemma greedy_At (input : string) (m : CharMatcher) (k : MState -> option MState)
  (g : list (string * option string)) (s : string) :
  forall p r, At input (mkState p s g) -> greedy m k g s p = Some r ->
              exists st, At input st /\ k st = Some r.
Proof.
  induction s as [|c s IH]; intros p r Hat; cbn [greedy].
  - intros H. eauto.
  - destruct (charMatches m c); [|intros H; eauto].
    destruct (greedy m k g s (S p)) as [r'|] eqn:E.
    + intros H; injection H as <-. apply (IH (S p)); [|exact E].
      eapply At_step, Hat.
    + intros H. eauto.
Qed.

Lemma matchNode_At (multiline : bool) (input : string) (n : Node) :
  forall st k r, At input st -> matchNode multiline input n st k = Some r ->
                 exists st', At input st' /\ k st' = Some r.
Proof.
  induction n as [|a|m q|a IHa b IHb|a IHa b IHb|name body IH]; intros st k r Hat;
    cbn [matchNode].
  - eauto.
  - destruct (assertion multiline input a st); [eauto | discriminate].
  - destruct st as [p s g]. cbn [caps rest pos] in *.
    destruct q; [| apply greedy_At; exact Hat | |];
      (destruct s as [|c s]; [try discriminate; eauto|]);
      (destruct (charMatches m c); [|try discriminate; eauto]).
    + intros H. eexists. split; [eapply At_step, Hat | exact H].
    + apply greedy_At. eapply At_step, Hat.
    + destruct (k (mkState (S p) s g)) as [r'|] eqn:E.
      * intros H; injection H as <-. eexists. split; [eapply At_step, Hat | exact E].
      * eauto.
  - intros H. apply (IHa _ _ _ Hat) in H as (st' & Hat' & H).
    now apply (IHb _ _ _ Hat') in H.
  - destruct (matchNode multiline input a st k) as [r'|] eqn:E.
    + intros H; injection H as <-. now apply (IHa _ _ _ Hat) in E.
    + now apply IHb.
  - destruct name as [name|]; [|now apply IH].
    intros H. apply (IH _ _ _ Hat) in H as (st' & Hat' & H).
    eexists. split; [|exact H]. exact Hat'.
Qed.

(** After a sequence of terms that ends with [$], nothing is left of the
    input. *)
Lemma endsAtEnd_rest (input : string) (u : Node) :
  endsAtEnd u = true ->
  forall st k r, At input st -> matchNode false input u st k = Some r ->
                 exists st', At input st' /\ rest st' = "" /\ k st' = Some r.
Proof.
  induction u as [| | |t _ u IH| |]; cbn [endsAtEnd]; try discriminate.
  intros He st k r Hat. cbn [matchNode]. intros H.
  apply orb_true_iff in He as [He|He].
  - apply andb_true_iff in He as [Ht Hu].
    destruct t as [|[|]| | | |]; try discriminate Ht.
    destruct u; try discriminate Hu.
    cbn [matchNode assertion] in H.
    destruct (rest st) as [|c s] eqn:E; [|discriminate H].
    exists st. auto.
  - apply (matchNode_At _ _ _ _ _ _ Hat) in H as (st' & Hat' & H).
    now apply (IH He _ _ _ Hat').
Qed.

Lemma get_None (s : string) (n : nat) : String.get n s = None -> length s <= n.
Proof.
  revert n; induction s as [|c s IH]; intros n; cbn [length]; [lia|].
  destruct n as [|n]; cbn [String.get]; [discriminate|].
  intros H. apply IH in H. lia.
Qed.

(** A match of a pattern that spans starts at the first position and ends at
    the last. *)
Lemma spans_match (input : string) (n : Node) :
  spans n = true ->
  forall st r, At input st -> matchNode false input n st Some = Some r ->
               pos st = 0 /\ pos r = length input.
Proof.
  destruct n as [| | |[|[|]| | | |] u| |]; cbn [spans]; try discriminate.
  intros Hu st r Hat. cbn [matchNode assertion].
  destruct (previous input (pos st)) as [c|] eqn:E; [discriminate|].
  intros H. apply (endsAtEnd_rest _ _ Hu _ _ _ Hat) in H as (st' & (x & Hx & Hp) & Hr & H).
  injection H as <-. split.
  - destruct Hat as (y & Hy & Hq). unfold previous in E.
    destruct (pos st) as [|p]; [reflexivity|].
    apply get_None in E. apply (f_equal length) in Hy.
    rewrite length_append in Hy. lia.
  - rewrite Hr, append_nil_r in Hx. now subst x.
Qed.

Lemma search_spans (re : Compiled) (input s : string) :
  spans (node re) = true -> multiline re = false ->
  forall p start st,
    (exists x, input = x ++ s /\ length x = p) ->
    search re input s p = Some (start, st) -> start = 0 /\ pos st = length input.
Proof.
  intros Hn Hm. induction s as [|c s IH]; intros p start st Hat; cbn [search];
    rewrite Hm;
    destruct (matchNode false input (node re) (mkState p _ _) Some) as [r|] eqn:E;
    try discriminate.
  - intros H; injection H as <- <-. apply (spans_match _ _ Hn) in E; [exact E | exact Hat].
  - intros H; injection H as <- <-. apply (spans_match _ _ Hn) in E; [exact E | exact Hat].
  - apply IH. destruct Hat as (x & Hx & Hp). exists (x ++ String c "").
    rewrite append_assoc, length_append. cbn [append length]. split; [exact Hx | lia].
Qed.

Lemma substring_all (s : string) : substring 0 (length s) s = s.
Proof. induction s as [|c s IH]; cbn [length substring]; [reflexivity | now rewrite IH]. Qed.

Lemma exec_spans (re : Compiled) (input : string) (m : RegExpExecArray) :
  spans (node re) = true -> multiline re = false ->
  Mini.exec re input = Some m -> index m = 0 /\ matched m = input.
Proof.
  intros Hn Hm. unfold Mini.exec.
  destruct (search re input input 0) as [[start st]|] eqn:E; [|discriminate].
  apply (search_spans _ _ _ Hn Hm) in E as [-> Hp]; [|now exists ""].
  intros H; injection H as <-. cbn [index matched].
  now rewrite Hp, Nat.sub_0_r, substring_all.
Qed.

(** *** The parser *)

Lemma parseGroupName_suffixOf (s name rest : string) :
  parseGroupName s = Some (name, rest) -> suffixOf rest s.
Proof.
  revert name; induction s as [|c s IH]; intros name; cbn [parseGroupName];
    [discriminate|].
  destruct (c =? ">")%char.
  { intros H; injection H as _ <-. apply suffixOf_cons, suffixOf_refl. }
  destruct (isNamePart c); [|discriminate].
  destruct (parseGroupName s) as [[n r]|]; [|discriminate].
  intros H; injection H as _ <-. apply suffixOf_cons. now apply (IH n).
Qed.

Lemma parse_advances (fuel : nat) :
  Advances (parseDisjunction fuel) /\ Advances (parseAlternative fuel)
  /\ Advances (parseTerm fuel).
Proof.
  induction fuel as [|f (D & A & T)].
  { split; [|split]; intros s n rest H; discriminate H. }
  split; [|split]; intros s n rest; cbn [parseDisjunction parseAlternative parseTerm].
  - destruct (parseAlternative f s) as [[a r1]| |] eqn:Ea; cbn [bind]; try discriminate.
    pose proof (A _ _ _ Ea) as S1.
    destruct (startsWith "|" r1).
    + destruct (parseDisjunction f (drop 1 r1)) as [[b r2]| |] eqn:Eb; cbn [bind];
        try discriminate.
      intros H; injection H as <- <-.
      eapply suffixOf_trans; [exact (D _ _ _ Eb)|].
      eapply suffixOf_trans; [apply suffixOf_drop | exact S1].
    + intros H; injection H as <- <-. exact S1.
  - destruct ((s =? "") || startsWith "|" s || startsWith ")" s).
    { intros H; injection H as <- <-. apply suffixOf_refl. }
    destruct (parseTerm f s) as [[t r1]| |] eqn:Et; cbn [bind]; try discriminate.
    destruct (parseAlternative f r1) as [[u r2]| |] eqn:Eu; cbn [bind]; try discriminate.
    intros H; injection H as <- <-.
    eapply suffixOf_trans; [exact (A _ _ _ Eu) | exact (T _ _ _ Et)].
  - destruct s as [|c r].
    { intros H; injection H as <- <-. apply suffixOf_refl. }
    assert (forall m r', suffixOf r' (String c r) ->
              parseQuantifier m r' = Ok (n, rest) -> suffixOf rest (String c r))
      as quantified.
    { intros m r' Hr' H. apply parseQuantifier_spec in H as [_ S1].
      eapply suffixOf_trans; eassumption. }
    assert (forall name r', suffixOf r' (String c r) ->
              bind (parseDisjunction f r') (fun '(body, rest) => closeGroup name body rest)
              = Ok (n, rest) -> suffixOf rest (String c r))
      as grouped.
    { intros name r' Hr'.
      destruct (parseDisjunction f r') as [[body r1]| |] eqn:Eb; cbn [bind];
        try discriminate.
      intros H. apply closeGroup_spec in H as [_ S2].
      eapply suffixOf_trans; [exact S2|].
      eapply suffixOf_trans; [exact (D _ _ _ Eb) | exact Hr']. }
    assert (suffixOf r (String c r)) as Sr by apply suffixOf_cons, suffixOf_refl.
    destruct (c =? "^")%char.
    { intros H; injection H as <- <-. exact Sr. }
    destruct (c =? "$")%char.
    { intros H; injection H as <- <-. exact Sr. }
    destruct (c =? "(")%char.
    { destruct (startsWith "?:" r).
      { apply grouped. eapply suffixOf_trans; [apply suffixOf_drop | exact Sr]. }
      destruct (startsWith "?<=" r || startsWith "?<!" r); [discriminate|].
      destruct (startsWith "?<" r).
      { destruct (parseGroupName (drop 2 r)) as [[name r']|] eqn:En; [|discriminate].
        destruct (validName name); [|discriminate].
        apply grouped. eapply suffixOf_trans; [exact (parseGroupName_suffixOf _ _ _ En)|].
        eapply suffixOf_trans; [apply suffixOf_drop | exact Sr]. }
      destruct (startsWith "?=" r || startsWith "?!" r); [discriminate|].
      destruct (startsWith "?" r); [discriminate|].
      now apply grouped. }
    destruct ((c =? "*")%char || (c =? "+")%char || (c =? "?")%char); [discriminate|].
    destruct (c =? "[")%char.
    { destruct (startsWith "^" r).
      - destruct (parseClass (drop 1 r) []) as [[items r1]| |] eqn:Ek; cbn [bind];
          try discriminate.
        apply parseClass_suffixOf in Ek. apply quantified.
        eapply suffixOf_trans; [exact Ek|].
        eapply suffixOf_trans; [apply suffixOf_drop | exact Sr].
      - destruct (parseClass r []) as [[items r1]| |] eqn:Ek; cbn [bind];
          try discriminate.
        apply parseClass_suffixOf in Ek. apply quantified.
        eapply suffixOf_trans; eassumption. }
    destruct (c =? "\")%char.
    { destruct r as [|e r']; [discriminate|].
      destruct (parseEscape false e r') as [it| |]; cbn [bind]; try discriminate.
      assert (suffixOf r' (String c (String e r'))) as S0
        by (do 2 apply suffixOf_cons; apply suffixOf_refl).
      destruct it; now apply quantified. }
    destruct (c =? ".")%char; [now apply quantified|].
    destruct (bracedQuantifier (String c r)); [discriminate|].
    now apply quantified.
Qed.

(** A character class ends with its closing bracket. *)
Lemma parseClass_closed (s : string) :
  forall acc items rest,
    parseClass s acc = Ok (items, rest) -> suffixOf (String "]" rest) s.
Proof.
  remember (length s) as n eqn:Hn. revert s Hn.
  induction n as [n IH] using lt_wf_ind. intros s Hn acc items rest.
  destruct s as [|c r]; cbn [parseClass]; [discriminate|].
  cbn [length] in Hn.
  destruct (c =? "]")%char eqn:Ec.
  { apply Ascii.eqb_eq in Ec. subst c.
    intros H; injection H as _ <-. apply suffixOf_refl. }
  destruct (c =? "\")%char.
  { destruct r as [|e r']; [discriminate|].
    destruct (parseEscape true e r'); try discriminate.
    destruct (rangeFollows r'); [discriminate|].
    intros H. do 2 apply suffixOf_cons.
    eapply (IH (length r')); [cbn [length] in Hn; lia | reflexivity | exact H]. }
  assert (forall acc', parseClass r acc' = Ok (items, rest) ->
                       suffixOf (String "]" rest) (String c r))
    as one.
  { intros acc' H. apply suffixOf_cons.
    eapply (IH (length r)); [lia | reflexivity | exact H]. }
  destruct r as [|d [|hi r']]; [apply one | apply one |].
  destruct (rangeFollows (String d (String hi r'))); [|apply one].
  destruct (hi =? "\")%char; [discriminate|].
  destruct (code hi <? code c)%N; [discriminate|].
  intros H. do 3 apply suffixOf_cons.
  eapply (IH (length r')); [cbn [length] in Hn; lia | reflexivity | exact H].
Qed.

(** What a string ends with. *)
Lemma suffixOf_lastChar (rest s : string) :
  suffixOf rest s -> rest <> "" -> lastChar s = lastChar rest.
Proof. intros [x ->] H. now apply lastChar_append. Qed.

(** An atom with its quantifier, at the end of the input, does not end with
    a dollar sign when the atom does not. *)
Lemma quantified_last (m : CharMatcher) (r : string) (t : Node) (c : ascii) (s : string) :
  parseQuantifier m r = Ok (t, "") -> suffixOf (String c r) s -> c <> "$"%char ->
  lastChar s <> Some "$"%char.
Proof.
  intros H Hs Hc. rewrite (suffixOf_lastChar _ _ Hs) by discriminate.
  revert H. unfold parseQuantifier. cbv zeta.
  destruct (startsWith "*" r) eqn:E1.
  { apply startsWith_spec in E1 as [r' ->]. cbn [append drop].
    destruct (startsWith "?" r'); [discriminate|].
    intros H; injection H as _ ->. cbn. discriminate. }
  destruct (startsWith "+" r) eqn:E2.
  { apply startsWith_spec in E2 as [r' ->]. cbn [append drop].
    destruct (startsWith "?" r'); [discriminate|].
    intros H; injection H as _ ->. cbn. discriminate. }
  destruct (startsWith "?" r) eqn:E3.
  { apply startsWith_spec in E3 as [r' ->]. cbn [append drop].
    destruct (startsWith "?" r'); [discriminate|].
    intros H; injection H as _ ->. cbn. discriminate. }
  destruct (bracedQuantifier r); [discriminate|].
  intros H; injection H as _ ->. cbn. congruence.
Qed.

(** A group at the end of the input ends with its closing parenthesis. *)
Lemma closeGroup_last (name : option (option string)) (body : Node) (rest : string)
  (t : Node) (s : string) :
  closeGroup name body rest = Ok (t, "") -> suffixOf rest s ->
  lastChar s <> Some "$"%char.
Proof.
  unfold closeGroup. destruct (startsWith ")" rest) eqn:E; [|discriminate].
  apply startsWith_spec in E as [r' ->]. cbn [append drop].
  destruct (startsQuantifier r'); [discriminate|].
  intros H; injection H as _ ->. intros Hs.
  rewrite (suffixOf_lastChar _ _ Hs) by discriminate. cbn. discriminate.
Qed.

(** A term that takes all of an input ending with a dollar sign, in which no
    backslash occurs, is the assertion [$]. *)
Lemma term_consumed (f : nat) (s : string) (t : Node) :
  includes "\" s = false -> lastChar s = Some "$"%char ->
  parseTerm f s = Ok (t, "") -> t = Assert End.
Proof.
  intros Hs Hlast. destruct f as [|f]; [discriminate|].
  destruct s as [|c r]; [discriminate Hlast|].
  rewrite includes_char_cons in Hs. apply orb_false_iff in Hs as [Hc _].
  cbn [parseTerm].
  assert (forall name r', suffixOf r' (String c r) ->
            bind (parseDisjunction f r') (fun '(body, rest) => closeGroup name body rest)
            = Ok (t, "") -> t = Assert End)
    as grouped.
  { intros name r' Hr'.
    destruct (parseDisjunction f r') as [[body r1]| |] eqn:Eb; cbn [bind];
      try discriminate.
    intros H. exfalso. apply (closeGroup_last _ _ _ _ (String c r)) in H; [auto|].
    eapply suffixOf_trans; [exact (proj1 (parse_advances f) _ _ _ Eb) | exact Hr']. }
  assert (forall m d r', suffixOf (String d r') (String c r) -> d <> "$"%char ->
            parseQuantifier m r' = Ok (t, "") -> t = Assert End)
    as quantified.
  { intros m d r' Hr' Hd H. exfalso.
    now apply (quantified_last _ _ _ _ _ H Hr' Hd). }
  assert (suffixOf r (String c r)) as Sr by apply suffixOf_cons, suffixOf_refl.
  destruct (c =? "^")%char eqn:E1.
  { apply Ascii.eqb_eq in E1. subst c. intros H; injection H as _ ->.
    discriminate Hlast. }
  destruct (c =? "$")%char eqn:E2.
  { now intros H; injection H as <- _. }
  apply Ascii.eqb_neq in E2.
  destruct (c =? "(")%char.
  { destruct (startsWith "?:" r).
    { apply grouped. eapply suffixOf_trans; [apply suffixOf_drop | exact Sr]. }
    destruct (startsWith "?<=" r || startsWith "?<!" r); [discriminate|].
    destruct (startsWith "?<" r).
    { destruct (parseGroupName (drop 2 r)) as [[name r']|] eqn:En; [|discriminate].
      destruct (validName name); [|discriminate].
      apply grouped. eapply suffixOf_trans; [exact (parseGroupName_suffixOf _ _ _ En)|].
      eapply suffixOf_trans; [apply suffixOf_drop | exact Sr]. }
    destruct (startsWith "?=" r || startsWith "?!" r); [discriminate|].
    destruct (startsWith "?" r); [discriminate|].
    now apply grouped. }
  destruct ((c =? "*")%char || (c =? "+")%char || (c =? "?")%char); [discriminate|].
  destruct (c =? "[")%char.
  { destruct (startsWith "^" r).
    - destruct (parseClass (drop 1 r) []) as [[items r1]| |] eqn:Ek; cbn [bind];
        try discriminate.
      apply parseClass_closed in Ek. apply (quantified _ "]"%char); [|discriminate].
      eapply suffixOf_trans; [exact Ek|].
      eapply suffixOf_trans; [apply suffixOf_drop | exact Sr].
    - destruct (parseClass r []) as [[items r1]| |] eqn:Ek; cbn [bind];
        try discriminate.
      apply parseClass_closed in Ek. apply (quantified _ "]"%char); [|discriminate].
      eapply suffixOf_trans; eassumption. }
  destruct (c =? "\")%char eqn:E3.
  { apply Ascii.eqb_eq in E3. subst c. discriminate Hc. }
  destruct (c =? ".")%char; [apply (quantified _ c); [apply suffixOf_refl | exact E2]|].
  destruct (bracedQuantifier (String c r)); [discriminate|].
  apply (quantified _ c); [apply suffixOf_refl | exact E2].
Qed.

(** The terms of an alternative that takes all of such an input end with the
    assertion [$]. *)
Lemma alternative_ends (f : nat) :
  forall s u,
    includes "\" s = false -> lastChar s = Some "$"%char ->
    parseAlternative f s = Ok (u, "") -> endsAtEnd u = true.
Proof.
  induction f as [|f IH]; intros s u Hs Hlast; cbn [parseAlternative]; [discriminate|].
  destruct ((s =? "") || startsWith "|" s || startsWith ")" s).
  { intros H; injection H as _ ->. discriminate Hlast. }
  destruct (parseTerm f s) as [[t r1]| |] eqn:Et; cbn [bind]; try discriminate.
  destruct (parseAlternative f r1) as [[u' r2]| |] eqn:Eu; cbn [bind]; try discriminate.
  intros H; injection H as <- ->. cbn [endsAtEnd].
  destruct r1 as [|d r1].
  - apply term_consumed in Et as ->; [|assumption..].
    destruct f as [|f]; [discriminate Eu|]. cbn in Eu. injection Eu as <-. reflexivity.
  - apply orb_true_iff. right.
    pose proof (proj2 (proj2 (parse_advances f)) _ _ _ Et) as S1.
    apply (IH (String d r1)); [| |exact Eu].
    + now apply (includes_suffixOf _ _ _ S1).
    + now rewrite <- (suffixOf_lastChar _ _ S1).
Qed.

(** The pattern [^body$], with neither an alternation bar nor a backslash in
    [body], is parsed as one alternative from [^] to [$]. *)
Lemma parsePattern_spans (body : string) (n : Node) :
  includes "|" body = false -> includes "\" body = false ->
  parsePattern ("^" ++ body ++ "$") = Ok n -> spans n = true.
Proof.
  intros Hbar Hback. unfold parsePattern.
  destruct (parseDisjunction _ ("^" ++ body ++ "$")) as [[n' rest]| |] eqn:E;
    cbn [bind]; try discriminate.
  destruct (rest =? "") eqn:Er; [|destruct (startsWith ")" rest); discriminate].
  apply String.eqb_eq in Er. subst rest.
  destruct (hasDuplicate (groupNames n')); [discriminate|].
  intros H; injection H as <-.
  destruct (3 * length ("^" ++ body ++ "$") + 3) as [|f]; [discriminate E|].
  cbn [parseDisjunction] in E.
  destruct (parseAlternative f ("^" ++ body ++ "$")) as [[a r1]| |] eqn:Ea;
    cbn [bind] in E; try discriminate E.
  assert (startsWith "|" r1 = false) as Hr1.
  { destruct (startsWith "|" r1) eqn:E1; [|reflexivity].
    apply startsWith_spec in E1 as [r' ->].
    pose proof (proj1 (proj2 (parse_advances f)) _ _ _ Ea) as S1.
    assert (includes "|" ("^" ++ body ++ "$") = false) as Hp.
    { cbn [append]. rewrite includes_char_cons, includes_char_append, Hbar. reflexivity. }
    apply (includes_suffixOf _ _ _ S1) in Hp.
    cbn [append] in Hp. rewrite includes_char_cons in Hp. discriminate Hp. }
  rewrite Hr1 in E. injection E as <- ->.
  destruct f as [|f]; [discriminate Ea|].
  cbn [append parseAlternative] in Ea.
  change (startsWith "|" (String "^" (body ++ "$"))) with false in Ea.
  change (startsWith ")" (String "^" (body ++ "$"))) with false in Ea.
  cbn [String.eqb orb] in Ea.
  destruct f as [|f]; [discriminate Ea|].
  cbn [parseTerm] in Ea. cbn [Ascii.eqb Bool.eqb andb bind] in Ea.
  destruct (parseAlternative (S f) (body ++ "$")) as [[u r2]| |] eqn:Eu;
    cbn [bind] in Ea; try discriminate Ea.
  injection Ea as <- ->. cbn [spans].
  apply (alternative_ends _ _ _) in Eu; [exact Eu | |].
  - rewrite includes_char_append, Hback. reflexivity.
  - now rewrite lastChar_append.
Qed.

#[export] Instance anchoring : Anchoring engine.
Proof.
  constructor. intros body re s m Hre Hbar Hback Hm.
  change (compile ("^" ++ body ++ "$") "" = inr re) in Hre. unfold compile in Hre.
  change (negb (validFlags "")) with false in Hre.
  change (includes "i" "" || includes "s" "" || includes "u" "" || includes "y" "")
    with false in Hre.
  cbv iota in Hre.
  destruct (parsePattern ("^" ++ body ++ "$")) as [n| |] eqn:E; try discriminate.
  injection Hre as <-.
  change (Mini.exec (mkCompiled ("^" ++ body ++ "$") false false n) s = Some m) in Hm.
  apply (exec_spans (mkCompiled ("^" ++ body ++ "$") false false n) s m);
    [exact (parsePattern_spans _ _ Hbar Hback E) | reflexivity | exact Hm].
Qed.

End MiniAnchors.

(* ------------------------------------------------------------------------- *)
(** ** Facts about traces *)

Module TraceFacts.
Import GitHub Effects Trace.

Lemma calls_app (a b : list Event) : calls (a ++ b) = calls a ++ calls b.
Proof.
  induction a as [|ev a IH]; simpl; [reflexivity|].
  destruct ev; simpl; rewrite IH; reflexivity.
Qed.

Lemma in_calls (tr : list Event) (r : Request) : In r (calls tr) <-> In (Call r) tr.
Proof.
  induction tr as [|ev tr IH]; simpl; [tauto|].
  destruct ev; simpl; rewrite IH; split; intros H;
    try (destruct H as [H|H]; [discriminate H|]); auto.
  - destruct H as [H|H]; [left; congruence | right; exact H].
  - destruct H as [H|H]; [left; congruence | right; exact H].
Qed.

End TraceFacts.

(* ------------------------------------------------------------------------- *)
(** ** Properties of the run *)

Module Run.
Import JsString JsNumber GitHub Effects Main Trace TraceFacts Paths.
Import RegExp(Engine, RegExp, newRegExp, exec, RegExpExecArray, groups, get).
Import SemVer(Parser, parse, major, prerelease).
Local Open Scope string_scope.

(** Unfold the plumbing of [Action] and nothing else. *)
Ltac reduce :=
  cbn [Effects.bind Effects.lift Effects.ret Effects.throw Effects.returnIf
       Effects.emit Effects.info Effects.setOutput Effects.setFailed Effects.call
       Effects.returned Effects.tryCatch require nonEmpty negb fst snd app].

Ltac reduce_in H :=
  cbn [Effects.bind Effects.lift Effects.ret Effects.throw Effects.returnIf
       Effects.emit Effects.info Effects.setOutput Effects.setFailed Effects.call
       Effects.returned Effects.tryCatch require nonEmpty negb fst snd app] in H.

Section Paths.
Context {engine : Engine} {semver : Parser}.

Lemma extract_Extracted (env : Env) (version : string) :
  extract env = Some version -> Extracted env version.
Proof.
  unfold extract, Extracted.
  destruct (newRegExp _ "gm") as [e|vre]; [intros H; cbn [nonEmpty] in H; discriminate H|].
  destruct (existsSync env _); [|intros H; cbn [nonEmpty] in H; discriminate H].
  destruct (readFileSync env _) as [e|contents]; [intros H; cbn [nonEmpty] in H; discriminate H|].
  destruct (exec vre contents) as [m|] eqn:Em; [|intros H; cbn [nonEmpty] in H; discriminate H].
  destruct (groups m) as [g|] eqn:Eg; [|intros H; cbn [nonEmpty] in H; discriminate H].
  destruct (get "version" g) as [v|] eqn:Ev; cbn [nonEmpty]; [|intros H; discriminate H].
  destruct (truthy v) eqn:Et; [|intros H; cbn [nonEmpty] in H; discriminate H].
  intros H; injection H as <-. exists vre, contents, m, g. auto 10.
Qed.

Lemma reach_Searched (env : Env) (version : string) (re : RegExp) (git : Client)
  (r : Repo) (tags : list TagItem) :
  reach env = Some (version, re, git, r, tags) -> Searched env version re git r tags.
Proof.
  unfold reach, Searched.
  destruct (extract env) as [v|] eqn:Ex; [|intros H; cbn [nonEmpty] in H; discriminate H].
  destruct (allZeros v) eqn:Ez; [intros H; cbn [nonEmpty] in H; discriminate H|].
  destruct (newRegExp _ "") as [e|re'] eqn:E1; [intros H; cbn [nonEmpty] in H; discriminate H|].
  destruct (newGitHub env _) as [e|git'] eqn:E2; [intros H; cbn [nonEmpty] in H; discriminate H|].
  destruct (context_repo env) as [e|r'] eqn:E3; [intros H; cbn [nonEmpty] in H; discriminate H|].
  destruct (listTags git' r' 100) as [e|tags'] eqn:E4; [intros H; cbn [nonEmpty] in H; discriminate H|].
  intros H; injection H as <- <- <- <- <-.
  repeat split; auto. now apply extract_Extracted.
Qed.

Lemma finish_app (tr : list Event) (m : Action unit) :
  finish ((tr ++ fst m)%list, snd m) = (tr ++ finish m)%list.
Proof.
  destruct m as [tr' [a| |e]]; simpl; [reflexivity | reflexivity |].
  now rewrite app_assoc.
Qed.

Lemma finish_bind {A : Type} (m : Action A) (k : A -> Action unit) :
  finish (Effects.bind m k)
  = (fst m ++ match snd m with
              | Normal a => finish (k a)
              | Returned => []
              | Thrown e => [SetFailed (Caught e)]
              end)%list.
Proof.
  destruct m as [tr [a| |e]]; cbn [Effects.bind fst snd].
  - destruct (k a) as [tr' [[]| |e]]; cbn [finish]; [reflexivity | reflexivity |].
    now rewrite app_assoc.
  - cbn [finish]. now rewrite app_nil_r.
  - reflexivity.
Qed.

(** Walk along a computation: take its events step by step, and split on
    every answer of the environment on the way. *)
Ltac plumb :=
  cbn [fst snd app Effects.bind Effects.call Effects.info Effects.setOutput
       Effects.setFailed Effects.emit Effects.ret Effects.throw].

Ltac answer :=
  match goal with
  | |- context [Effects.lift ?ans] =>
      lazymatch ans with
      | inl _ => idtac
      | inr _ => idtac
      | _ => destruct ans
      end;
      cbn [Effects.lift]; plumb
  end.

Ltac walk := repeat (rewrite finish_bind; plumb; repeat answer).

(** A run whose version is all zeros. *)
Lemma main_allZeros (env : Env) (version : string) :
  Extracted env version -> allZeros version = true ->
  main env =
    [ SetOutput "version" (VString version);
      Info ("Extracted version from source file: " ++ version);
      Info ("Aborting execution as version [" ++ version ++ "] can not be all zeros") ].
Proof.
  intros (vre & contents & m & g & H1 & H2 & H3 & H4 & H5 & H6 & H7) Hz.
  unfold main, run; cbv zeta.
  rewrite H1; reduce. rewrite H2; reduce. rewrite H3; reduce. rewrite H4; reduce.
  rewrite H5, H6; reduce. rewrite H7; reduce.
  unfold allZeros in Hz; rewrite Hz; reduce. reflexivity.
Qed.

(** A run that got as far as the search, up to the first guard. *)
Lemma run_Searched (env : Env) (version : string) (re : RegExp) (git : Client)
  (r : Repo) (tags : list TagItem) :
  Searched env version re git r tags ->
  let matchingTag := searchMatchingTag tags re in
  let desired := tagName (getInput env "tag_format") version (tagRevision matchingTag) in
  main env =
    (searchEvents version re r matchingTag ++
     match matchingTag with
     | Some mt =>
         if strictEq (sha mt) (context_sha env) then
           [ Info ("Aborting execution as tag [" ++ name mt
                   ++ "] points to current commit [" ++ sha mt ++ "]") ]
         else
           Info ("Determined desired tag name: " ++ desired) ::
           if name mt =? desired then
             [ Info ("Aborting execution as current tag [" ++ name mt
                     ++ "] matches desired tag") ]
           else
             match nonEmpty (context_sha env) with
             | Some sha =>
                 finish (publish env version git tags sha desired (tagRevision matchingTag))
             | None =>
                 [ SetFailed (Message
                     "Can not create new tag as commit SHA is missing in context") ]
             end
     | None =>
         Info ("Determined desired tag name: " ++ desired) ::
         match nonEmpty (context_sha env) with
         | Some sha =>
             finish (publish env version git tags sha desired (tagRevision matchingTag))
         | None =>
             [ SetFailed (Message
                 "Can not create new tag as commit SHA is missing in context") ]
         end
     end)%list.
Proof.
  intros ((vre & contents & m & g & H1 & H2 & H3 & H4 & H5 & H6 & H7)
          & Hz & Hre & Hgit & Hrepo & Htags).
  intros matchingTag desired.
  unfold main, run, getRepoTags; cbv zeta.
  rewrite H1; reduce. rewrite H2; reduce. rewrite H3; reduce. rewrite H4; reduce.
  rewrite H5, H6; reduce. rewrite H7; reduce.
  unfold allZeros in Hz; rewrite Hz; reduce.
  rewrite Hre; reduce. rewrite Hgit; reduce. rewrite Hrepo; reduce.
  rewrite Htags; reduce.
  fold matchingTag. fold desired.
  unfold searchEvents.
  destruct matchingTag as [mt|]; reduce.
  - destruct (strictEq (sha mt) (context_sha env)); reduce; [reflexivity|].
    destruct (name mt =? desired); reduce; [reflexivity|].
    destruct (context_sha env) as [s|]; reduce; [|reflexivity].
    destruct (truthy s); reduce; [|reflexivity].
    unfold publish. rewrite Hrepo. reduce.
    destruct (getTagMessage git env (changelogFrom tags) (Some s)) as [tr [msg| |e]];
      reduce; try reflexivity.
    destruct (createTag git r desired _ s "commit") as [e|tag]; reduce; try reflexivity.
    destruct (createRef git r _ _) as [e|tagRef]; reduce; try reflexivity.
    destruct (createRelease git r _ _ _ _ _) as [e|release]; reduce; reflexivity.
  - destruct (context_sha env) as [s|]; reduce; [|reflexivity].
    destruct (truthy s); reduce; [|reflexivity].
    unfold publish. rewrite Hrepo. reduce.
    destruct (getTagMessage git env (changelogFrom tags) (Some s)) as [tr [msg| |e]];
      reduce; try reflexivity.
    destruct (createTag git r desired _ s "commit") as [e|tag]; reduce; try reflexivity.
    destruct (createRef git r _ _) as [e|tagRef]; reduce; try reflexivity.
    destruct (createRelease git r _ _ _ _ _) as [e|release]; reduce; reflexivity.
Qed.

(** *** The changelog *)

Lemma appendCommit_line (message : string) (c : CommitItem) :
  appendCommit message (Some c) = message ++ nl ++ changelogLine c.
Proof.
  unfold appendCommit, changelogLine.
  destruct (author c) as [a|]; [destruct (truthy (login a))|];
    repeat rewrite StringFacts.append_assoc; simpl;
    repeat rewrite StringFacts.append_assoc; simpl;
    try rewrite StringFacts.append_nil_r; reflexivity.
Qed.

Lemma concat_empty_cons (x : string) (l : list string) :
  String.concat "" (x :: l) = x ++ String.concat "" l.
Proof.
  destruct l; cbn [String.concat append]; [now rewrite StringFacts.append_nil_r | reflexivity].
Qed.

(** The loop appends, for every commit, a line feed and its line. *)
Lemma fold_appendCommit (commits : list (option CommitItem)) (message : string) :
  fold_left appendCommit commits message
  = message ++ String.concat "" (map (fun c => nl ++ changelogLine c) (present commits)).
Proof.
  revert message; induction commits as [|[c|] commits IH]; intros message.
  - simpl. now rewrite StringFacts.append_nil_r.
  - cbn [fold_left present map]. rewrite IH, appendCommit_line, concat_empty_cons.
    now rewrite !StringFacts.append_assoc.
  - cbn [fold_left present]. unfold appendCommit at 2. apply IH.
Qed.

Lemma concat_lines (lines : list string) :
  lines <> [] ->
  String.concat "" (map (fun l => nl ++ l) lines) = nl ++ join nl lines.
Proof.
  unfold join. induction lines as [|l lines IH]; [congruence|]. intros _.
  cbn [map]. rewrite concat_empty_cons.
  destruct lines as [|l' lines].
  - simpl. now rewrite StringFacts.append_nil_r.
  - rewrite IH by discriminate. cbn [String.concat].
    now rewrite !StringFacts.append_assoc.
Qed.

(** The message the loop builds, trimmed, is the rendering of the
    specification. *)
Lemma loop_render (commits : list (option CommitItem)) :
  trim (fold_left appendCommit commits "") = render commits.
Proof.
  rewrite fold_appendCommit. unfold render. cbn [append].
  rewrite <- map_map with (f := changelogLine) (g := fun l => nl ++ l).
  destruct (map changelogLine (present commits)) as [|l lines] eqn:E.
  - reflexivity.
  - rewrite concat_lines by discriminate.
    unfold nl. cbn [append]. now apply StringFacts.trim_leading_whitespace.
Qed.

(** [getTagMessage], case by case. *)
Lemma getTagMessage_cases (git : Client) (env : Env) (from to : option string) :
  getTagMessage git env from to =
  match nonEmpty from, nonEmpty to with
  | Some base, Some head =>
      match context_repo env with
      | inl e =>
          ([], Thrown (JsError.newError
                         ("could not generate changelog: " ++ JsError.toString e)))
      | inr r =>
          match compareCommits git r base head with
          | inl e =>
              ([Call (CompareCommits r base head)],
               Thrown (JsError.newError
                         ("could not generate changelog: " ++ JsError.toString e)))
          | inr None | inr (Some []) =>
              ([Call (CompareCommits r base head)], Normal "Initial tag")
          | inr (Some commits) =>
              ([Call (CompareCommits r base head)], Normal (render commits))
          end
      end
  | _, _ => ([], Normal "Initial tag")
  end.
Proof.
  unfold getTagMessage.
  destruct (nonEmpty from) as [base|]; [|reflexivity].
  destruct (nonEmpty to) as [head|]; [|reflexivity].
  destruct (context_repo env) as [e|r]; [reflexivity|]. reduce.
  destruct (compareCommits git r base head) as [e|[[|c commits]|]]; try reflexivity.
  reduce. rewrite loop_render. reflexivity.
Qed.

(** *** What a run can send *)

(** Rewrite with the facts at hand about what the environment answers. *)
Ltac answers :=
  repeat match goal with
         | E : ?x = _ |- context [?x] => rewrite E; reduce
         end.

(** The requests of the publishing part. *)
Lemma publish_calls (env : Env) (version : string) (git : Client) (tags : list TagItem)
  (sha desired : string) (revision : Number) (rq : Request) :
  In (Call rq) (finish (publish env version git tags sha desired revision)) ->
  (exists r base, rq = CompareCommits r base sha /\
                  nonEmpty (changelogFrom tags) = Some base /\ truthy sha = true)
  \/ (exists r message, rq = CreateTag r desired (desired ++ nl ++ nl ++ message) sha "commit")
  \/ (exists r tag, rq = CreateRef r ("refs/tags/" ++ GitHub.tag tag) (GitHub.sha tag))
  \/ (exists r message,
        rq = CreateRelease r desired message desired false (isPrerelease version)).
Proof.
  unfold publish. rewrite getTagMessage_cases. cbn [nonEmpty].
  rewrite finish_bind; plumb.
  destruct (context_repo env) as [e|r] eqn:Er;
    destruct (nonEmpty (changelogFrom tags)) as [base|] eqn:Ef;
    destruct (truthy sha) eqn:Es;
    try destruct (compareCommits git r base sha) as [e'|[[|c commits]|]];
    walk; cbn [In]; intros H;
    repeat (destruct H as [H|H]; [try discriminate H; injection H as <-|]);
    try contradiction;
    first [ left; do 2 eexists; repeat split; reflexivity
          | right; left; do 2 eexists; reflexivity
          | right; right; left; do 2 eexists; reflexivity
          | right; right; right; do 2 eexists; reflexivity ].
Qed.

(** A request other than the listing of tags is sent by the publishing part
    of a run that passed both guards. *)
Lemma main_late_call (env : Env) (rq : Request) :
  In (Call rq) (main env) ->
  (forall r n, rq <> ListTags r n) ->
  exists version re git r tags sha,
    Searched env version re git r tags /\
    Unguarded env (searchMatchingTag tags re)
      (tagName (getInput env "tag_format") version
         (tagRevision (searchMatchingTag tags re))) /\
    nonEmpty (context_sha env) = Some sha /\
    In (Call rq)
      (finish (publish env version git tags sha
                 (tagName (getInput env "tag_format") version
                    (tagRevision (searchMatchingTag tags re)))
                 (tagRevision (searchMatchingTag tags re)))).
Proof.
  intros H Hlate.
  assert (forall tr : list Event,
             main env = tr -> (forall r, In (Call r) tr -> exists p n, r = ListTags p n) -> False)
    as early.
  { intros tr E Htr. rewrite E in H. destruct (Htr _ H) as (p & n & ->).
    now elim (Hlate p n). }
  destruct (newRegExp (getInput env "version_pattern") "gm") as [e|vre] eqn:E1.
  { exfalso. eapply early.
    - unfold main, run; cbv zeta. answers. reflexivity.
    - simpl. intuition discriminate. }
  destruct (existsSync env (getInput env "source_file")) eqn:E2.
  2:{ exfalso. eapply early.
    - unfold main, run; cbv zeta. answers. reflexivity.
    - simpl. intuition discriminate. }
  destruct (readFileSync env (getInput env "source_file")) as [e|contents] eqn:E3.
  { exfalso. eapply early.
    - unfold main, run; cbv zeta. answers. reflexivity.
    - simpl. intuition discriminate. }
  destruct (exec vre contents) as [m|] eqn:E4.
  2:{ exfalso. eapply early.
    - unfold main, run; cbv zeta. answers. reflexivity.
    - simpl. intuition discriminate. }
  destruct (groups m) as [g|] eqn:E5.
  2:{ exfalso. eapply early.
    - unfold main, run; cbv zeta. answers. reflexivity.
    - simpl. intuition discriminate. }
  destruct (get "version" g) as [version|] eqn:E6.
  2:{ exfalso. eapply early.
    - unfold main, run; cbv zeta. answers. reflexivity.
    - simpl. intuition discriminate. }
  destruct (truthy version) eqn:E7.
  2:{ exfalso. eapply early.
    - unfold main, run; cbv zeta. answers. reflexivity.
    - simpl. intuition discriminate. }
  assert (Extracted env version) as Hx by (exists vre, contents, m, g; auto 10).
  destruct (allZeros version) eqn:Ez.
  { exfalso. eapply early.
    - apply main_allZeros; eassumption.
    - simpl. intuition discriminate. }
  destruct (newRegExp (tagPattern (getInput env "tag_format") version) "") as [e|re] eqn:E8.
  { exfalso. unfold allZeros in Ez. eapply early.
    - unfold main, run; cbv zeta. answers. reflexivity.
    - simpl. intuition discriminate. }
  destruct (newGitHub env (getInput env "api_token")) as [e|git] eqn:E9.
  { exfalso. unfold allZeros in Ez. eapply early.
    - unfold main, run; cbv zeta. answers. reflexivity.
    - simpl. intuition discriminate. }
  destruct (context_repo env) as [e|r] eqn:E10.
  { exfalso. unfold allZeros in Ez. eapply early.
    - unfold main, run, getRepoTags; cbv zeta. answers. reflexivity.
    - simpl. intuition discriminate. }
  destruct (listTags git r 100) as [e|tags] eqn:E11.
  { exfalso. unfold allZeros in Ez. eapply early.
    - unfold main, run, getRepoTags; cbv zeta. answers. reflexivity.
    - simpl. intros rq' [?|[?|[?|[?|[?|[]]]]]]; try discriminate.
      injection H0 as <-. eauto. }
  assert (Searched env version re git r tags) as Hs by (repeat split; assumption).
  pose proof (run_Searched _ _ _ _ _ _ Hs) as Hrun. cbv zeta in Hrun.
  exists version, re, git, r, tags.
  set (matchingTag := searchMatchingTag tags re) in *.
  set (desired := tagName (getInput env "tag_format") version (tagRevision matchingTag)) in *.
  assert (forall tr : list Event,
             main env = (searchEvents version re r matchingTag ++ tr)%list ->
             (forall rq', ~ In (Call rq') tr) -> False) as early'.
  { intros tr E Htr. eapply early; [exact E|].
    intros rq' Hin. apply in_app_or in Hin as [Hin|Hin]; [|now elim (Htr rq')].
    simpl in Hin. destruct Hin as [?|[?|[?|[Hin|[?|[]]]]]]; try discriminate.
    injection Hin as <-. eauto. }
  unfold Unguarded.
  destruct matchingTag as [mt|].
  - destruct (strictEq (sha mt) (context_sha env)).
    { exfalso. eapply early'; [exact Hrun|]. simpl. intuition discriminate. }
    destruct (name mt =? desired).
    { exfalso. eapply early'; [exact Hrun|]. simpl. intuition discriminate. }
    destruct (nonEmpty (context_sha env)) as [s|].
    2:{ exfalso. eapply early'; [exact Hrun|]. simpl. intuition discriminate. }
    exists s. repeat split; auto.
    rewrite Hrun in H. apply in_app_or in H as [H|H].
    + simpl in H. destruct H as [?|[?|[?|[H|[?|[]]]]]]; try discriminate.
      injection H as <-. now elim (Hlate r 100%Z).
    + destruct H as [H|H]; [discriminate H | exact H].
  - destruct (nonEmpty (context_sha env)) as [s|].
    2:{ exfalso. eapply early'; [exact Hrun|]. simpl. intuition discriminate. }
    exists s. repeat split; auto.
    rewrite Hrun in H. apply in_app_or in H as [H|H].
    + simpl in H. destruct H as [?|[?|[?|[H|[?|[]]]]]]; try discriminate.
      injection H as <-. now elim (Hlate r 100%Z).
    + destruct H as [H|H]; [discriminate H | exact H].
Qed.

(** *** The guards and what follows them *)

Lemma nonEmpty_Some (v : option string) (s : string) :
  nonEmpty v = Some s -> v = Some s /\ truthy s = true.
Proof.
  unfold nonEmpty. destruct v as [x|]; [|discriminate].
  destruct (truthy x) eqn:E; [|discriminate]. intros H; injection H as <-. auto.
Qed.

Lemma isPrerelease_true (version : string) :
  isPrerelease version = true <->
  exists v, parse version = Some v /\ (major v = 0%Z \/ prerelease v <> []).
Proof.
  unfold isPrerelease. destruct (parse version) as [v|].
  - rewrite orb_true_iff, Z.eqb_eq, Nat.ltb_lt. split.
    + intros [H|H]; exists v; split; auto. right. destruct (prerelease v); [inversion H | discriminate].
    + intros (v' & E & [H|H]); injection E as <-; [now left | right].
      destruct (prerelease v); [congruence | simpl; lia].
  - split; [discriminate | intros (v & E & _); discriminate E].
Qed.

(** C5.  When the extracted version is ["0"], ["0.0"] or ["0.0.0"], the run
    sets the [version] output, reports no failure, and sends no request at
    all: it creates no tag, no reference and no release. *)
Theorem zero_version_stops (env : Env) (version : string) :
  Extracted env version ->
  version = "0" \/ version = "0.0" \/ version = "0.0.0" ->
  main env =
    [ SetOutput "version" (VString version);
      Info ("Extracted version from source file: " ++ version);
      Info ("Aborting execution as version [" ++ version ++ "] can not be all zeros") ]
  /\ failures (main env) = []
  /\ outputs (main env) = [("version", VString version)]
  /\ calls (main env) = [].
Proof.
  intros Hx Hz.
  assert (allZeros version = true) as Hz'
    by (destruct Hz as [->|[->| ->]]; reflexivity).
  rewrite (main_allZeros env version Hx Hz'). repeat split.
Qed.


(** C6.  The changelog is ["Initial tag"] when an endpoint is missing or
    empty and when the comparison holds no commits; otherwise it is the lines
    of the commits in the order of the comparison, each ["* "] and the
    message, with the login in parentheses when the commit has an author with
    one, joined by line feeds and trimmed: what is cut off the joined lines at
    either end is white space, and the changelog neither starts nor ends with
    white space. *)
Theorem changelog_message (git : Client) (env : Env) (from to : option string) :
  (nonEmpty from = None \/ nonEmpty to = None ->
   getTagMessage git env from to = ([], Normal "Initial tag"))
  /\ (forall base head r commits,
        nonEmpty from = Some base -> nonEmpty to = Some head ->
        context_repo env = inr r ->
        compareCommits git r base head = inr commits ->
        getTagMessage git env from to =
          ([Call (CompareCommits r base head)],
           Normal match commits with
                  | None | Some [] => "Initial tag"
                  | Some commits =>
                      trim (join nl (map changelogLine (present commits)))
                  end)
        /\ exists message,
             snd (getTagMessage git env from to) = Normal message /\
             match commits with
             | None | Some [] => message = "Initial tag"
             | Some commits =>
                 Text.Trimmed (join nl (map changelogLine (present commits))) message
             end).
Proof.
  rewrite getTagMessage_cases. split.
  - intros [H|H]; rewrite H; [reflexivity|]. destruct (nonEmpty from); reflexivity.
  - intros base head r commits Hf Ht Hr Hc. rewrite Hf, Ht, Hr, Hc.
    destruct commits as [[|c commits]|];
      (split; [reflexivity | eexists; split; [reflexivity|]]);
      try reflexivity.
    apply StringFacts.trim_Trimmed.
Qed.

(** C7.  In every run that reaches the changelog, the comparison goes from
    the name of the first tag of the list the server returned, whichever tag
    matched, to the current commit; with no tag at all the base is [null] and
    no comparison is requested. *)
Theorem changelog_endpoints (env : Env) (version : string) (re : RegExp)
  (git : Client) (r : Repo) (tags : list TagItem) (current : string) :
  Searched env version re git r tags ->
  Unguarded env (searchMatchingTag tags re)
    (tagName (getInput env "tag_format") version
       (tagRevision (searchMatchingTag tags re))) ->
  nonEmpty (context_sha env) = Some current ->
  In (Info ("Generating tag message from ["
            ++ match tags with tag :: _ => GitHub.name tag | [] => "null" end
            ++ "] to [" ++ current ++ "]")) (main env)
  /\ (forall r' base head,
        In (Call (CompareCommits r' base head)) (main env) ->
        head = current /\ exists tag rest, tags = tag :: rest /\ base = GitHub.name tag)
  /\ (forall tag rest,
        tags = tag :: rest -> GitHub.name tag <> "" ->
        In (Call (CompareCommits r (GitHub.name tag) current)) (main env)).
Proof.
  intros Hs Hg Hsha.
  pose proof (run_Searched _ _ _ _ _ _ Hs) as Hrun. cbv zeta in Hrun.
  set (matchingTag := searchMatchingTag tags re) in *.
  set (desired := tagName (getInput env "tag_format") version (tagRevision matchingTag)) in *.
  assert (main env =
            (searchEvents version re r matchingTag ++
             Info ("Determined desired tag name: " ++ desired) ::
             finish (publish env version git tags current desired (tagRevision matchingTag)))%list)
    as Hmain.
  { rewrite Hrun. f_equal. unfold Unguarded in Hg.
    destruct matchingTag as [mt|]; [destruct Hg as [-> ->]|]; now rewrite Hsha. }
  clear Hrun. rewrite Hmain.
  destruct (nonEmpty_Some _ _ Hsha) as [_ Htruthy].
  assert (forall ev, In ev (finish (publish env version git tags current desired
                                      (tagRevision matchingTag))) ->
                     In ev (searchEvents version re r matchingTag ++
                            Info ("Determined desired tag name: " ++ desired) ::
                            finish (publish env version git tags current desired
                                      (tagRevision matchingTag)))%list) as later.
  { intros ev H. apply in_or_app. right. right. exact H. }
  split; [|split].
  - apply later. unfold publish. rewrite finish_bind; plumb. left.
    destruct tags; reflexivity.
  - intros r' base head H. apply in_app_or in H as [H|[H|H]].
    + simpl in H. repeat (destruct H as [H|H]; [discriminate H|]). contradiction.
    + discriminate H.
    + apply publish_calls in H as [(r0 & b & E & Hb & _)|[(r0 & m & E)|[(r0 & t0 & E)|(r0 & m & E)]]];
        try discriminate E.
      injection E as -> -> ->. split; [reflexivity|].
      apply nonEmpty_Some in Hb as [Hb _].
      destruct tags as [|tag rest]; [discriminate Hb|].
      injection Hb as <-. eauto.
  - intros tag rest -> Hname. apply later.
    unfold publish. rewrite getTagMessage_cases. cbn [changelogFrom nonEmpty].
    rewrite Htruthy.
    assert (truthy (GitHub.name tag) = true) as ->.
    { unfold truthy. apply negb_true_iff, String.eqb_neq, Hname. }
    destruct Hs as (_ & _ & _ & _ & Hrepo & _). rewrite Hrepo.
    rewrite finish_bind; plumb. right.
    destruct (compareCommits git r (GitHub.name tag) current) as [e|[[|c commits]|]];
      rewrite finish_bind; plumb; left; reflexivity.
Qed.

(** C8.  The prerelease flag of every release the run creates is true exactly
    when the extracted version parses as a semantic version whose major
    component is 0 or that has a prerelease component; it is false when the
    version does not parse. *)
Theorem release_prerelease_flag (env : Env) (r : Repo) (name body tag_name : string)
  (draft flag : bool) :
  In (Call (CreateRelease r name body tag_name draft flag)) (main env) ->
  exists version,
    Extracted env version /\
    (flag = true <->
     exists v, parse version = Some v /\ (major v = 0%Z \/ prerelease v <> [])) /\
    (parse version = None -> flag = false).
Proof.
  intros H.
  apply main_late_call in H as (version & re & git & r0 & tags & current & Hs & _ & _ & H);
    [|discriminate].
  apply publish_calls in H as [(r1 & b & E & _)|[(r1 & m & E)|[(r1 & t0 & E)|(r1 & m & E)]]];
    try discriminate E.
  injection E as _ _ _ _ _ ->.
  exists version. split; [exact (proj1 Hs)|]. split.
  - apply isPrerelease_true.
  - intros Hp. unfold isPrerelease. now rewrite Hp.
Qed.

(** C10 (as amended).  The second guard compares the original name of the
    matching tag with the desired name by exact equality, though the match
    was made on the trimmed, lower-cased name.  For every matching tag at
    another commit whose original name is not the desired name, the guard
    lets the run pass: it goes on to the changelog and, once that is built,
    requests a tag of the desired name at the current commit. *)
Theorem name_guard_is_exact (env : Env) (version : string) (re : RegExp)
  (git : Client) (r : Repo) (tags : list TagItem) (mt : MatchingTag)
  (current : string) :
  Searched env version re git r tags ->
  searchMatchingTag tags re = Some mt ->
  nonEmpty (context_sha env) = Some current ->
  sha mt <> current ->
  let desired := tagName (getInput env "tag_format") version (tagRevision (Some mt)) in
  name mt <> desired ->
  In (Info ("Generating tag message from [" ++ orNull (changelogFrom tags)
            ++ "] to [" ++ current ++ "]")) (main env)
  /\ (forall message,
        snd (getTagMessage git env (changelogFrom tags) (Some current)) = Normal message ->
        In (Call (CreateTag r desired (desired ++ nl ++ nl ++ message) current "commit"))
          (main env)).
Proof.
  intros Hs Hmt Hsha Hdiff desired Hname.
  pose proof (run_Searched _ _ _ _ _ _ Hs) as Hrun. cbv zeta in Hrun.
  rewrite Hmt in Hrun. fold desired in Hrun.
  destruct (nonEmpty_Some _ _ Hsha) as [Hctx _].
  assert (strictEq (sha mt) (context_sha env) = false) as E1.
  { rewrite Hctx. cbn [strictEq]. now apply String.eqb_neq. }
  assert ((name mt =? desired) = false) as E2 by now apply String.eqb_neq.
  rewrite E1, E2, Hsha in Hrun. rewrite Hrun.
  assert (forall ev, In ev (finish (publish env version git tags current desired
                                      (tagRevision (Some mt)))) ->
                     In ev (searchEvents version re r (Some mt) ++
                            Info ("Determined desired tag name: " ++ desired) ::
                            finish (publish env version git tags current desired
                                      (tagRevision (Some mt))))%list) as later.
  { intros ev H. apply in_or_app. right. right. exact H. }
  split.
  - apply later. unfold publish. rewrite finish_bind; plumb. left. reflexivity.
  - intros message Hmsg. apply later. unfold publish.
    destruct Hs as (_ & _ & _ & _ & Hrepo & _). rewrite Hrepo.
    destruct (getTagMessage git env (changelogFrom tags) (Some current)) as [tr c].
    cbn [snd] in Hmsg. subst c.
    walk; cbn [finish]; right; rewrite ?in_app_iff; cbn [In]; auto 10.
Qed.

End Paths.

(** *** Concrete runs, with the executable engine and parser *)

Ltac conjs := repeat match goal with |- _ /\ _ => split end.
Ltac evaluate := vm_compute; reflexivity.
Ltac member := vm_compute; repeat (first [left; reflexivity | right]).

(** The run of [Sample.env] reads the version and reaches the search. *)
Ltac extracted := apply extract_Extracted; evaluate.
Ltac searched := eapply reach_Searched; evaluate.

(** A source file at version 0.0. *)
Lemma zero_version_stops_witness :
  calls (Sample.main (Sample.env "v{version}" "0.0" [mkTag "v0.0" "def456"] [] (Some "abc123")))
  = [].
Proof.
  edestruct (@zero_version_stops Mini.engine SemVer.strict
               (Sample.env "v{version}" "0.0" [mkTag "v0.0" "def456"] [] (Some "abc123"))
               "0.0")
    as (_ & _ & _ & H); [extracted | right; left; reflexivity | exact H].
Defined.



(** Two commits, the second without an account and with the line feed that
    ends its message: the changelog ends with the text of the message. *)
Lemma changelog_message_witness :
  @getTagMessage
    (Sample.client [] [Some (mkCommit "Fix parser" (Some (mkAuthor "alice")));
                       Some (mkCommit ("Bump version " ++ nl) None)])
    (Sample.env "v{version}" "1.0.0" [] [] (Some "abc123"))
    (Some "v0.9.0") (Some "abc123")
  = ([Call (CompareCommits (mkRepo "snapserv" "demo") "v0.9.0" "abc123")],
     Normal ("* Fix parser (alice)" ++ nl ++ "* Bump version"))
  /\ Text.Trimmed ("* Fix parser (alice)" ++ nl ++ "* Bump version " ++ nl)
       ("* Fix parser (alice)" ++ nl ++ "* Bump version").
Proof.
  destruct (changelog_message
              (Sample.client [] [Some (mkCommit "Fix parser" (Some (mkAuthor "alice")));
                                 Some (mkCommit ("Bump version " ++ nl) None)])
              (Sample.env "v{version}" "1.0.0" [] [] (Some "abc123"))
              (Some "v0.9.0") (Some "abc123")) as [_ H].
  destruct (H "v0.9.0" "abc123" (mkRepo "snapserv" "demo")
              (Some [Some (mkCommit "Fix parser" (Some (mkAuthor "alice")));
                     Some (mkCommit ("Bump version " ++ nl) None)])
              eq_refl eq_refl eq_refl eq_refl) as [Hrun (message & Hmessage & Htrimmed)].
  split; [exact Hrun|].
  rewrite Hrun in Hmessage. injection Hmessage as <-. exact Htrimmed.
Defined.

(** The first tag listed is not the one that matches: the comparison starts
    from the first. *)
Lemma changelog_endpoints_witness :
  In (Call (CompareCommits (mkRepo "snapserv" "demo") "nightly" "abc123"))
    (Sample.main (Sample.env "v{version}-{revision}" "2.3.0"
                    [mkTag "nightly" "0d1e2f"; mkTag "v2.3.0-1" "def456"] []
                    (Some "abc123"))).
Proof.
  edestruct (@changelog_endpoints Mini.engine SemVer.strict
               (Sample.env "v{version}-{revision}" "2.3.0"
                  [mkTag "nightly" "0d1e2f"; mkTag "v2.3.0-1" "def456"] []
                  (Some "abc123")) "2.3.0")
    as (_ & _ & compared); [searched | vm_compute; split; reflexivity | evaluate |].
  exact (compared (mkTag "nightly" "0d1e2f") [mkTag "v2.3.0-1" "def456"] eq_refl
           (fun H => match H in _ = s return match s with "" => False | _ => True end
                     with eq_refl => I end)).
Defined.

(** A release of version 0.1.0 is a prerelease. *)
Lemma release_prerelease_flag_witness :
  exists version,
    @Extracted Mini.engine (Sample.env "v{version}" "0.1.0" [] [] (Some "abc123")) version /\
    (true = true <->
     exists v, SemVer.parseStrict version = Some v
               /\ (major v = 0%Z \/ prerelease v <> [])) /\
    (SemVer.parseStrict version = None -> true = false).
Proof.
  refine (@release_prerelease_flag Mini.engine SemVer.strict
            (Sample.env "v{version}" "0.1.0" [] [] (Some "abc123"))
            (mkRepo "snapserv" "demo") "v0.1.0" "Initial tag" "v0.1.0" false true _).
  member.
Defined.

(** The tag [V1.0.0] at another commit matches [v1.0.0] through the
    normalisation only, and the run requests the tag [v1.0.0]. *)
Lemma name_guard_is_exact_witness :
  toLowerCase (trim "V1.0.0") = toLowerCase (trim "v1.0.0") /\
  In (Call (CreateTag (mkRepo "snapserv" "demo") "v1.0.0"
              ("v1.0.0" ++ nl ++ nl ++ "Initial tag") "abc123" "commit"))
    (Sample.main (Sample.env "v{version}" "1.0.0" [mkTag "V1.0.0" "def456"] []
                    (Some "abc123"))).
Proof.
  split; [reflexivity|].
  edestruct (@name_guard_is_exact Mini.engine SemVer.strict
               (Sample.env "v{version}" "1.0.0" [mkTag "V1.0.0" "def456"] []
                  (Some "abc123")) "1.0.0")
    as [_ requested];
    [searched | evaluate | evaluate | discriminate | vm_compute; discriminate |].
  exact (requested "Initial tag" eq_refl).
Defined.

(** The claim as stated fails for the format [V{version}]: the tag [V1.0.0]
    at another commit is matched through the normalisation only, its name is
    the desired one, and the guard stops the run. *)
Lemma name_guard_stops_normalised_match :
  exists re,
    @newRegExp Mini.engine (tagPattern "V{version}" "1.0.0") "" = inr re /\
    @exec Mini.engine re "V1.0.0" = None /\
    @searchMatchingTag Mini.engine [mkTag "V1.0.0" "def456"] re
    = Some (mkMatchingTag "V1.0.0" "def456" (RegExp.mkMatch 0 "v1.0.0" None)) /\
    "def456" <> "abc123" /\
    Sample.main (Sample.env "V{version}" "1.0.0" [mkTag "V1.0.0" "def456"] []
                   (Some "abc123"))
    = (searchEvents "1.0.0" re (mkRepo "snapserv" "demo")
         (Some (mkMatchingTag "V1.0.0" "def456" (RegExp.mkMatch 0 "v1.0.0" None)))
       ++ [ Info "Determined desired tag name: V1.0.0";
            Info "Aborting execution as current tag [V1.0.0] matches desired tag" ])%list /\
    creations
      (Sample.main (Sample.env "V{version}" "1.0.0" [mkTag "V1.0.0" "def456"] []
                      (Some "abc123")))
    = [].
Proof.
  eexists. conjs; try evaluate. discriminate.
Defined.

End Run.

(* ------------------------------------------------------------------------- *)
(** ** The claims about the revision *)

Module Revision.
Import JsString JsNumber GitHub Effects Main.
Import RegExp(Engine, Lawful, groups_need_syntax, RegExp, newRegExp, exec, RegExpExecArray,
  groups, get).
Local Open Scope string_scope.

(** Integers up to [2^53] in absolute value are doubles. *)
Lemma roundToDouble_exact (z : Z) :
  (Z.abs z <= 2 ^ 53)%Z -> roundToDouble z = Num z.
Proof.
  intros H. unfold roundToDouble.
  destruct (Z.abs z <? 2 ^ 53)%Z eqn:E; [reflexivity|].
  apply Z.ltb_ge in E.
  assert (z = 2 ^ 53 \/ z = - 2 ^ 53)%Z as [-> | ->] by lia; reflexivity.
Qed.

(** Split a conjunction into its parts, and evaluate closed goals. *)
Ltac conjs := repeat match goal with |- _ /\ _ => split end.
Ltac evaluate := vm_compute; reflexivity.

Section Generic.
Context {engine : Engine} {lawful : Lawful engine}.

(** The match of the tag found is a match of its normalised name. *)
Lemma searchMatchingTag_exec (tags : list TagItem) (re : RegExp) (mt : MatchingTag) :
  searchMatchingTag tags re = Some mt ->
  exists tag, In tag tags /\ exec re (toLowerCase (trim (GitHub.name tag))) = Some (match_ mt).
Proof.
  induction tags as [|tag tags IH]; cbn [searchMatchingTag]; [discriminate|].
  destruct (exec re (toLowerCase (trim (GitHub.name tag)))) as [m|] eqn:E.
  - intros H; injection H as <-. exists tag. split; [now left | exact E].
  - intros H. destruct (IH H) as (tag' & Hin & Hm). exists tag'. split; [now right | exact Hm].
Qed.

(** C1 (as amended).  For every tag format that contains [{revision}] and
    every tag list with a matching tag whose captured [revision] group parses
    as the integer [N], the desired revision is [N + 1], provided [N] is
    below [2^53] in absolute value, the range in which a Number holds
    [N + 1] exactly. *)
Theorem revision_increment (tagFormat version : string) (tags : list TagItem)
  (re : RegExp) (mt : MatchingTag) (g : list (string * option string))
  (text : string) (N : Z) :
  includes "{revision}" tagFormat = true ->
  newRegExp (tagPattern tagFormat version) "" = inr re ->
  searchMatchingTag tags re = Some mt ->
  groups (match_ mt) = Some g ->
  get "revision" g = Some text ->
  parseInt text = Num N ->
  (- 2 ^ 53 <= N < 2 ^ 53)%Z ->
  tagRevision (searchMatchingTag tags re) = Num (N + 1).
Proof.
  intros _ _ Hmt Hg Htext HN Hrange.
  rewrite Hmt. unfold tagRevision. rewrite Hg, Htext.
  unfold parseIntValue. rewrite HN. cbn [addOne].
  apply roundToDouble_exact. lia.
Qed.

(** C2 (as amended).  For every tag format that does not contain
    [{revision}], provided the pattern derived from the format and the
    version holds no named-group syntax [(?<] (neither the version nor the
    format is escaped, and either can bring a group into the pattern): the
    desired revision is always 1, whether a tag of the list matches or
    not. *)
Theorem revision_default (tagFormat version : string) (tags : list TagItem)
  (re : RegExp) :
  includes "{revision}" tagFormat = false ->
  includes "(?<" (tagPattern tagFormat version) = false ->
  newRegExp (tagPattern tagFormat version) "" = inr re ->
  tagRevision (searchMatchingTag tags re) = Num 1.
Proof.
  intros _ Hp Hre. unfold tagRevision.
  destruct (searchMatchingTag tags re) as [mt|] eqn:E; [|reflexivity].
  apply searchMatchingTag_exec in E as (tag & _ & Hm).
  now rewrite (groups_need_syntax _ _ _ _ _ Hre Hm Hp).
Qed.

End Generic.

(** *** Concrete instances, with the executable engine *)

(** The format of the README with the third revision already tagged: the
    next one is the fourth. *)
Lemma revision_increment_witness :
  exists re,
    @newRegExp Mini.engine (tagPattern "{version}-{revision}" "1.0.0") "" = inr re /\
    tagRevision
      (@searchMatchingTag Mini.engine
         [mkTag "1.0.0-3" "def456"; mkTag "1.0.0-2" "9fceb0"] re)
    = Num 4.
Proof.
  eexists. split; [vm_compute; reflexivity|].
  eapply (@revision_increment Mini.engine "{version}-{revision}" "1.0.0") with (N := 3%Z);
    [evaluate | evaluate | evaluate | evaluate | evaluate | evaluate | lia].
Defined.

(** The claim as stated fails at the revision [2^53]: the captured group
    parses as that integer, and the next revision is the same number. *)
Lemma revision_increment_stalls :
  exists re mt,
    includes "{revision}" "v{version}-{revision}" = true /\
    @newRegExp Mini.engine (tagPattern "v{version}-{revision}" "1.0.0") "" = inr re /\
    @searchMatchingTag Mini.engine [mkTag "v1.0.0-9007199254740992" "def456"] re = Some mt /\
    groups (match_ mt) = Some [("revision", Some "9007199254740992")] /\
    parseInt "9007199254740992" = Num 9007199254740992 /\
    tagRevision (Some mt) = Num 9007199254740992 /\
    tagRevision (Some mt) <> Num (9007199254740992 + 1).
Proof.
  do 2 eexists. conjs; try evaluate.
  vm_compute. discriminate.
Defined.

(** A format without [{revision}] and a version that holds the text
    [{revision}]: the derived pattern has the named group, and the revision of
    the matching tag is incremented. *)
Lemma revision_default_overridden :
  exists re,
    includes "{revision}" "v{version}" = false /\
    @newRegExp Mini.engine (tagPattern "v{version}" "1-{revision}") "" = inr re /\
    tagRevision (@searchMatchingTag Mini.engine [mkTag "v1-5" "def456"] re) = Num 6 /\
    tagRevision (@searchMatchingTag Mini.engine [mkTag "v1-5" "def456"] re) <> Num 1.
Proof.
  eexists. conjs; try evaluate.
  vm_compute. discriminate.
Defined.

(** The format [v{version}]: with the tag of the version at another commit,
    and with no tag that matches. *)
Lemma revision_default_witness :
  exists re,
    @newRegExp Mini.engine (tagPattern "v{version}" "1.0.0") "" = inr re /\
    @searchMatchingTag Mini.engine [mkTag "v1.0.0" "def456"] re
    = Some (mkMatchingTag "v1.0.0" "def456" (RegExp.mkMatch 0 "v1.0.0" None)) /\
    tagRevision (@searchMatchingTag Mini.engine [mkTag "v1.0.0" "def456"] re) = Num 1 /\
    @searchMatchingTag Mini.engine [mkTag "v0.9.0" "def456"] re = None /\
    tagRevision (@searchMatchingTag Mini.engine [mkTag "v0.9.0" "def456"] re) = Num 1.
Proof.
  eexists. split; [vm_compute; reflexivity|].
  split; [evaluate|]. split; [|split; [evaluate|]].
  - apply (@revision_default Mini.engine MiniFacts.lawful "v{version}" "1.0.0"
             [mkTag "v1.0.0" "def456"]); evaluate.
  - apply (@revision_default Mini.engine MiniFacts.lawful "v{version}" "1.0.0"
             [mkTag "v0.9.0" "def456"]); evaluate.
Defined.

End Revision.

(* ------------------------------------------------------------------------- *)
(** ** The derived pattern and the search *)

Module Pattern.
Import JsString JsNumber GitHub Effects Main StringFacts Text Paths.
Import RegExp(Engine, Anchoring, anchors_bind, RegExp, newRegExp, exec, RegExpExecArray,
  index, matched, groups, get).
Local Open Scope string_scope.
#[local] Arguments startsWith : simpl never.

Lemma lastChar_split (s : string) (c : ascii) :
  lastChar s = Some c -> exists s', s = s' ++ String c "".
Proof.
  induction s as [|d s IH]; [discriminate|].
  destruct s as [|e s].
  - intros H; injection H as ->. now exists "".
  - intros H. destruct (IH H) as [s' E]. exists (String d s'). simpl. now rewrite <- E.
Qed.

(** Replacing a placeholder keeps the anchors in place. *)
Lemma replace_anchored (s pat replacement : string) (first last : ascii) (middle : string) :
  pat = String first middle -> first <> "^"%char ->
  lastChar pat = Some last -> last <> "$"%char ->
  anchored s -> anchored (replace s pat replacement).
Proof.
  intros Hpat Hfirst Hlast Hlast' [body ->]. unfold replace.
  destruct (splitAtFirst pat ("^" ++ body ++ "$")) as [[b a]|] eqn:E;
    [|now exists body].
  apply splitAtFirst_sound in E.
  destruct b as [|c b].
  { exfalso. rewrite Hpat in E. simpl in E. injection E as E _. congruence. }
  simpl in E. injection E as <- E.
  assert (lastChar a = Some "$"%char) as Ha.
  { destruct a as [|d a].
    - exfalso. assert (lastChar (body ++ "$") = lastChar (b ++ pat ++ "")) as L by now rewrite E.
      rewrite lastChar_append in L by discriminate.
      rewrite append_nil_r, lastChar_append in L by (rewrite Hpat; discriminate).
      rewrite Hlast in L. simpl in L. congruence.
    - assert (lastChar (body ++ "$") = lastChar (b ++ pat ++ String d a)) as L by now rewrite E.
      rewrite lastChar_append in L by discriminate.
      rewrite <- append_assoc, lastChar_append in L by discriminate.
      now rewrite <- L. }
  destruct (lastChar_split _ _ Ha) as [a' ->].
  exists (b ++ GetSubstitution pat (String "^" b) (a' ++ "$") replacement ++ a').
  simpl. now rewrite !append_assoc.
Qed.

(** The derived pattern is the lower-cased format between [^] and [$]. *)
Lemma tagPattern_anchored (tagFormat version : string) :
  anchored (tagPattern tagFormat version).
Proof.
  unfold tagPattern.
  assert (anchored (replace (replace ("^" ++ tagFormat ++ "$") "{version}" version)
                      "{revision}" "(?<revision>[0-9]+)")) as [body ->].
  { eapply replace_anchored; [reflexivity | discriminate | reflexivity | discriminate |].
    eapply replace_anchored; [reflexivity | discriminate | reflexivity | discriminate |].
    now exists tagFormat. }
  exists (toLowerCase body).
  now rewrite !toLowerCase_append.
Qed.

Section Search.
Context {engine : Engine}.

(** The search returns the first tag of the list whose normalised name the
    expression matches ... *)
Lemma search_first (re : RegExp) (before after : list TagItem) (tag : TagItem)
  (m : RegExpExecArray) :
  (forall t, In t before -> exec re (normalised t) = None) ->
  exec re (normalised tag) = Some m ->
  searchMatchingTag (before ++ tag :: after) re
  = Some (mkMatchingTag (GitHub.name tag) (commit_sha tag) m).
Proof.
  intros Hbefore Hm. induction before as [|t before IH]; cbn [app searchMatchingTag].
  - unfold normalised in Hm. now rewrite Hm.
  - pose proof (Hbefore t (or_introl eq_refl)) as Ht. unfold normalised in Ht.
    rewrite Ht. apply IH. intros t' Hin. apply Hbefore. now right.
Qed.

(** ... and whatever it returns is such a tag ... *)
Lemma search_found (re : RegExp) (tags : list TagItem) (mt : MatchingTag) :
  searchMatchingTag tags re = Some mt ->
  exists before tag after,
    tags = (before ++ tag :: after)%list /\
    (forall t, In t before -> exec re (normalised t) = None) /\
    exec re (normalised tag) = Some (match_ mt) /\
    name mt = GitHub.name tag /\ sha mt = commit_sha tag.
Proof.
  induction tags as [|t tags IH]; cbn [searchMatchingTag]; [discriminate|].
  destruct (exec re (toLowerCase (trim (GitHub.name t)))) as [m|] eqn:E.
  - intros H; injection H as <-. exists [], t, tags.
    split; [reflexivity|]. split; [intros ? []|]. cbn. auto.
  - intros H. destruct (IH H) as (before & tag & after & -> & Hb & Hm & Hn & Hs).
    exists (t :: before), tag, after. repeat split; auto.
    intros t' [<-|Hin]; [exact E | now apply Hb].
Qed.

(** ... and it returns nothing exactly when no tag of the list matches. *)
Lemma search_none (re : RegExp) (tags : list TagItem) :
  searchMatchingTag tags re = None <->
  forall t, In t tags -> exec re (normalised t) = None.
Proof.
  induction tags as [|t tags IH]; cbn [searchMatchingTag].
  - split; [intros _ t [] | reflexivity].
  - destruct (exec re (toLowerCase (trim (GitHub.name t)))) as [m|] eqn:E.
    + split; [discriminate|]. intros H. specialize (H t (or_introl eq_refl)).
      unfold normalised in H. congruence.
    + rewrite IH. split.
      * intros H t' [<-|Hin]; [exact E | now apply H].
      * intros H t' Hin. apply H. now right.
Qed.

(** Where the derived pattern has neither an alternation bar nor a
    backslash, a match is a match of the whole name. *)
Lemma exec_whole (anchoring : Anchoring engine) (tagFormat version : string)
  (re : RegExp) (s : string) (m : RegExpExecArray) :
  includes "|" (tagPattern tagFormat version) = false ->
  includes "\" (tagPattern tagFormat version) = false ->
  newRegExp (tagPattern tagFormat version) "" = inr re ->
  exec re s = Some m ->
  index m = 0 /\ matched m = s.
Proof.
  destruct (tagPattern_anchored tagFormat version) as [body ->].
  cbn [append]. rewrite !includes_char_cons, !includes_char_append.
  intros Hbar Hback Hre Hm.
  apply orb_false_iff in Hbar as [_ Hbar]. apply orb_false_iff in Hbar as [Hbar _].
  apply orb_false_iff in Hback as [_ Hback]. apply orb_false_iff in Hback as [Hback _].
  exact (anchors_bind body re s m Hre Hbar Hback Hm).
Qed.

End Search.

(** C3 (as amended).  The search returns the first tag, in the order of the
    list, whose trimmed and lower-cased name the expression matches, and
    nothing when no tag does.  The pattern built from the tag format starts
    with [^] and ends with [$]; format and version stand between them as
    they are, and where the pattern has neither an alternation bar nor a
    backslash the match of the tag found starts at the first code unit of the
    normalised name and is the whole of it.  The tag named [" V1.0.0 "]
    matches the pattern of the format [v{version}] at version 1.0.0, and
    names that only contain [v1.0.0] do not. *)
Theorem search_returns_first_anchored_match :
  (forall (engine : Engine) (re : RegExp) (tags : list TagItem),
      match searchMatchingTag tags re with
      | Some mt =>
          exists before tag after,
            tags = (before ++ tag :: after)%list /\
            (forall t, In t before -> exec re (normalised t) = None) /\
            exec re (normalised tag) = Some (match_ mt) /\
            name mt = GitHub.name tag /\ sha mt = commit_sha tag
      | None => forall t, In t tags -> exec re (normalised t) = None
      end)
  /\ (forall tagFormat version : string,
        exists body, tagPattern tagFormat version = "^" ++ body ++ "$")
  /\ (forall (engine : Engine) (anchoring : Anchoring engine)
             (tagFormat version : string) (re : RegExp) (tags : list TagItem)
             (mt : MatchingTag),
        includes "|" (tagPattern tagFormat version) = false ->
        includes "\" (tagPattern tagFormat version) = false ->
        newRegExp (tagPattern tagFormat version) "" = inr re ->
        searchMatchingTag tags re = Some mt ->
        index (match_ mt) = 0 /\ matched (match_ mt) = toLowerCase (trim (name mt)))
  /\ (exists re,
        @newRegExp Mini.engine (tagPattern "v{version}" "1.0.0") "" = inr re /\
        @searchMatchingTag Mini.engine
          [mkTag "v1.0.1" "0d1e2f"; mkTag " V1.0.0 " "def456"; mkTag "v1.0.0" "9fceb0"] re
        = Some (mkMatchingTag " V1.0.0 " "def456" (RegExp.mkMatch 0 "v1.0.0" None)) /\
        @searchMatchingTag Mini.engine
          [mkTag "v1.0.0-rc" "0d1e2f"; mkTag "xv1.0.0" "def456"; mkTag "v1.0" "9fceb0"] re
        = None).
Proof.
  split; [|split; [|split]].
  - intros engine re tags.
    destruct (searchMatchingTag tags re) as [mt|] eqn:E.
    + now apply search_found.
    + now apply search_none.
  - apply tagPattern_anchored.
  - intros engine anchoring tagFormat version re tags mt Hbar Hback Hre Hmt.
    apply search_found in Hmt as (before & tag & after & _ & _ & Hm & Hname & _).
    rewrite Hname.
    exact (exec_whole anchoring tagFormat version re _ _ Hbar Hback Hre Hm).
  - eexists. split; [vm_compute; reflexivity|]. split; vm_compute; reflexivity.
Qed.

(** The pattern of the format [v{version}] at version 1.0.0, with the
    executable engine: the tag found is matched as a whole. *)
Lemma search_returns_first_anchored_match_witness :
  exists re,
    @newRegExp Mini.engine (tagPattern "v{version}" "1.0.0") "" = inr re /\
    @searchMatchingTag Mini.engine
      [mkTag "v1.0.0-rc" "0d1e2f"; mkTag " V1.0.0 " "def456"] re
    = Some (mkMatchingTag " V1.0.0 " "def456" (RegExp.mkMatch 0 "v1.0.0" None)) /\
    index (RegExp.mkMatch 0 "v1.0.0" None) = 0 /\
    matched (RegExp.mkMatch 0 "v1.0.0" None) = toLowerCase (trim " V1.0.0 ").
Proof.
  destruct search_returns_first_anchored_match as (_ & _ & whole & _).
  eexists. split; [vm_compute; reflexivity|]. split; [vm_compute; reflexivity|].
  refine (whole Mini.engine MiniAnchors.anchoring "v{version}" "1.0.0" _
            [mkTag "v1.0.0-rc" "0d1e2f"; mkTag " V1.0.0 " "def456"]
            (mkMatchingTag " V1.0.0 " "def456" (RegExp.mkMatch 0 "v1.0.0" None))
            _ _ _ _);
    [ vm_compute; reflexivity | vm_compute; reflexivity | vm_compute; reflexivity
    | vm_compute; reflexivity ].
Defined.

(** The claim as stated fails where the version holds an alternation bar or
    ends with a backslash.  In [^v1|2$] each anchor binds one alternative
    only, and the tag [nightly-build-2] matches at its last code unit; in
    [^v1\$] the dollar sign is a character, and the tag [v1$-nightly] matches
    at its first three code units. *)
Lemma anchored_pattern_matches_part :
  exists re re',
    tagPattern "v{version}" "1|2" = "^v1|2$" /\
    @newRegExp Mini.engine (tagPattern "v{version}" "1|2") "" = inr re /\
    @searchMatchingTag Mini.engine [mkTag "nightly-build-2" "def456"] re
    = Some (mkMatchingTag "nightly-build-2" "def456" (RegExp.mkMatch 14 "2" None)) /\
    "2" <> toLowerCase (trim "nightly-build-2") /\
    tagPattern "v{version}" "1\" = "^v1\$" /\
    @newRegExp Mini.engine (tagPattern "v{version}" "1\") "" = inr re' /\
    @searchMatchingTag Mini.engine [mkTag "v1$-nightly" "def456"] re'
    = Some (mkMatchingTag "v1$-nightly" "def456" (RegExp.mkMatch 0 "v1$" None)) /\
    "v1$" <> toLowerCase (trim "v1$-nightly").
Proof.
  do 2 eexists.
  split; [reflexivity|]. split; [vm_compute; reflexivity|].
  split; [vm_compute; reflexivity|]. split; [discriminate|].
  split; [reflexivity|]. split; [vm_compute; reflexivity|].
  split; [vm_compute; reflexivity|]. discriminate.
Defined.

End Pattern.

(* ------------------------------------------------------------------------- *)
(** ** The placeholders *)

Module Placeholders.
Import JsString JsNumber Main StringFacts Text Pattern.
Local Open Scope string_scope.
#[local] Arguments startsWith : simpl never.

Lemma startsWith_nil (s : string) : startsWith "" s = true.
Proof. destruct s; reflexivity. Qed.

Lemma startsWith_cons (c d : ascii) (p s : string) :
  startsWith (String c p) (String d s) = Ascii.eqb c d && startsWith p s.
Proof.
  unfold startsWith. simpl. destruct (ascii_dec c d) as [->|H].
  - now rewrite Ascii.eqb_refl.
  - apply Ascii.eqb_neq in H. now rewrite H.
Qed.

Lemma startsWith_empty (c : ascii) (p : string) : startsWith (String c p) "" = false.
Proof. reflexivity. Qed.

Lemma startsWith_append (p s y : string) :
  startsWith p s = true -> startsWith p (s ++ y) = true.
Proof.
  rewrite !startsWith_spec. intros [r ->]. exists (r ++ y). now rewrite append_assoc.
Qed.

Lemma count_append_ge (p x y : string) :
  p <> "" -> count p x + count p y <= count p (x ++ y).
Proof.
  intros Hp. induction x as [|c x IH].
  - destruct p as [|d p]; [congruence|]. simpl. lia.
  - cbn [append count].
    destruct (startsWith p (String c x)) eqn:E.
    + pose proof (startsWith_append _ _ y E) as E'. cbn [append] in E'. rewrite E'. lia.
    + destruct (startsWith p (String c (x ++ y))); lia.
Qed.

(** Text without a brace that starts within [b] does not reach over a
    brace that follows [b]. *)
Lemma startsWith_before_brace (q b t : string) :
  free "{" q = true -> startsWith q (b ++ String "{" t) = startsWith q b.
Proof.
  revert b; induction q as [|c q IH]; intros b Hq.
  - now rewrite !startsWith_nil.
  - cbn [free] in Hq. apply andb_true_iff in Hq as [Hc Hq].
    destruct b as [|d b]; cbn [append].
    + rewrite startsWith_cons, startsWith_empty.
      rewrite Ascii.eqb_sym. apply negb_true_iff in Hc. now rewrite Hc.
    + rewrite !startsWith_cons. now rewrite IH.
Qed.

Lemma count_before_brace (q b t : string) :
  placeholder q -> count q (b ++ String "{" t) = count q b + count q (String "{" t).
Proof.
  intros (q' & -> & Hq). remember (count (String "{" q') (String "{" t)) as n.
  induction b as [|c b IH].
  - cbn [append]. rewrite <- Heqn. reflexivity.
  - cbn [append]. cbn [count]. rewrite IH.
    rewrite !startsWith_cons, startsWith_before_brace by exact Hq.
    destruct (Ascii.eqb "{" c && startsWith q' b); lia.
Qed.

Lemma count_cons_other (q' s : string) (c : ascii) :
  Ascii.eqb "{" c = false -> count (String "{" q') (String c s) = count (String "{" q') s.
Proof. intros H. cbn [count]. now rewrite startsWith_cons, H. Qed.

Lemma count_cons (q s : string) (c : ascii) :
  count q (String c s) = (if startsWith q (String c s) then 1 else 0) + count q s.
Proof. reflexivity. Qed.

(** The occurrences of a placeholder in text that starts with a
    placeholder. *)
Ltac count_through :=
  cbn [append]; rewrite count_cons; rewrite !count_cons_other by reflexivity;
  rewrite !startsWith_cons, ?startsWith_nil; reflexivity.

Lemma count_version_version (a : string) :
  count "{version}" ("{version}" ++ a) = 1 + count "{version}" a.
Proof. count_through. Qed.

Lemma count_version_revision (a : string) :
  count "{version}" ("{revision}" ++ a) = count "{version}" a.
Proof. count_through. Qed.

Lemma count_revision_version (a : string) :
  count "{revision}" ("{version}" ++ a) = count "{revision}" a.
Proof. count_through. Qed.

Lemma count_revision_revision (a : string) :
  count "{revision}" ("{revision}" ++ a) = 1 + count "{revision}" a.
Proof. count_through. Qed.

(** A replacement of [pat] takes away at most the [k] occurrences of [q] that
    start where [pat] does. *)
Lemma count_replace (q pat s replacement : string) (k : nat) (rest : string) :
  placeholder q -> pat = String "{" rest ->
  (forall a, count q (pat ++ a) = k + count q a) ->
  count q s <= k + count q (replace s pat replacement).
Proof.
  intros Hq Hpat Hk. unfold replace.
  destruct (splitAtFirst pat s) as [[b a]|] eqn:E; [|lia].
  apply splitAtFirst_sound in E. rewrite E at 1.
  assert (q <> "") as Hne by (destruct Hq as (q' & -> & _); discriminate).
  rewrite Hpat at 1. cbn [append]. rewrite count_before_brace by exact Hq.
  change (String "{" (rest ++ a)) with (String "{" rest ++ a).
  rewrite <- Hpat, Hk.
  pose proof (count_append_ge q b (GetSubstitution pat b a replacement ++ a) Hne).
  pose proof (count_append_ge q (GetSubstitution pat b a replacement) a Hne).
  lia.
Qed.

Lemma startsWith_toLowerCase (q s : string) :
  toLowerCase q = q -> startsWith q s = true -> startsWith q (toLowerCase s) = true.
Proof.
  intros Hq. rewrite !startsWith_spec. intros [r ->].
  exists (toLowerCase r). now rewrite toLowerCase_append, Hq.
Qed.

Lemma count_toLowerCase (q s : string) :
  toLowerCase q = q -> count q s <= count q (toLowerCase s).
Proof.
  intros Hq. induction s as [|c s IH].
  - cbn [toLowerCase]. lia.
  - cbn [count]. change (toLowerCase (String c s)) with (String (lowerChar c) (toLowerCase s)).
    cbn [count].
    destruct (startsWith q (String c s)) eqn:E.
    + apply (startsWith_toLowerCase q _ Hq) in E. cbn [toLowerCase] in E. rewrite E. lia.
    + destruct (startsWith q (String (lowerChar c) (toLowerCase s))); lia.
Qed.

Lemma placeholder_version : placeholder "{version}".
Proof. now exists "version}". Qed.

Lemma placeholder_revision : placeholder "{revision}".
Proof. now exists "revision}". Qed.

(** The first occurrence of a placeholder in the format is its first
    occurrence between the anchors. *)
Lemma first_between_anchors (pat s before after : string) (last : ascii) (rest : string) :
  pat = String "{" rest -> lastChar pat = Some last -> last <> "$"%char ->
  s = before ++ pat ++ after ->
  (forall x y, s = x ++ pat ++ y -> length before <= length x) ->
  forall x y, "^" ++ s ++ "$" = x ++ pat ++ y -> length ("^" ++ before) <= length x.
Proof.
  intros Hpat Hlast Hlast' Hs Hfirst x y E.
  destruct x as [|c x].
  { exfalso. rewrite Hpat in E. discriminate E. }
  cbn [append] in E. injection E as <- E. cbn [append length]. apply le_n_S.
  destruct y as [|d y].
  - exfalso. assert (lastChar (s ++ "$") = lastChar (x ++ pat ++ "")) as L by now rewrite E.
    rewrite lastChar_append in L by discriminate.
    rewrite append_nil_r, lastChar_append in L by (rewrite Hpat; discriminate).
    rewrite Hlast in L. simpl in L. congruence.
  - assert (lastChar (String d y) = Some "$"%char) as Hy.
    { assert (lastChar (s ++ "$") = lastChar (x ++ pat ++ String d y)) as L by now rewrite E.
      rewrite lastChar_append in L by discriminate.
      rewrite <- append_assoc, lastChar_append in L by discriminate.
      now rewrite <- L. }
    destruct (lastChar_split _ _ Hy) as [y' Ey]. rewrite Ey in E.
    apply (Hfirst x y').
    assert ((s ++ "$") = (x ++ pat ++ y') ++ "$") as E'
      by (rewrite E; now rewrite !append_assoc).
    clear -E'. revert E'. generalize (x ++ pat ++ y') as u. intros u.
    revert u; induction s as [|c s IH]; intros [|e u] E'; cbn [append] in E'.
    + reflexivity.
    + injection E' as _ E'. destruct u; discriminate E'.
    + injection E' as _ E'. destruct s; discriminate E'.
    + injection E' as <- E'. f_equal. now apply IH.
Qed.

(** C9.  Each placeholder is replaced once, at its first occurrence.  Of the
    occurrences of [{version}] and of [{revision}] in the tag format, all but
    one are still there, as text, in the desired tag name and in the derived
    pattern; with the format split at the first [{version}], the text after
    it goes unchanged into the second replacement; and that one, as every
    replacement, leaves the text after the first [{revision}] as it is. *)
Theorem placeholders_replaced_once (tagFormat version : string) (revision : Number) :
  (forall q, q = "{version}" \/ q = "{revision}" ->
     count q tagFormat <= 1 + count q (tagName tagFormat version revision) /\
     count q tagFormat <= 1 + count q (tagPattern tagFormat version))
  /\ (forall before after,
        tagFormat = before ++ "{version}" ++ after ->
        (forall x y, tagFormat = x ++ "{version}" ++ y -> length before <= length x) ->
        tagName tagFormat version revision
        = replace (before ++ GetSubstitution "{version}" before after version ++ after)
            "{revision}" (JsNumber.toString revision)
        /\ tagPattern tagFormat version
           = toLowerCase
               (replace ("^" ++ before
                         ++ GetSubstitution "{version}" ("^" ++ before) (after ++ "$") version
                         ++ after ++ "$")
                  "{revision}" "(?<revision>[0-9]+)"))
  /\ (forall s x before after,
        s = before ++ "{revision}" ++ after ->
        (forall x y, s = x ++ "{revision}" ++ y -> length before <= length x) ->
        replace s "{revision}" x
        = before ++ GetSubstitution "{revision}" before after x ++ after).
Proof.
  split; [|split].
  - intros q Hq. unfold tagName, tagPattern.
    pose proof (count_append_ge q "^" (tagFormat ++ "$")) as A1.
    pose proof (count_append_ge q tagFormat "$") as A2.
    destruct Hq as [-> | ->].
    + pose proof (count_replace "{version}" "{version}" tagFormat version 1 "version}"
                    placeholder_version eq_refl count_version_version) as B1.
      pose proof (count_replace "{version}" "{revision}"
                    (replace tagFormat "{version}" version) (JsNumber.toString revision)
                    0 "revision}" placeholder_version eq_refl count_version_revision) as B2.
      pose proof (count_replace "{version}" "{version}" ("^" ++ tagFormat ++ "$") version 1
                    "version}" placeholder_version eq_refl count_version_version) as B3.
      pose proof (count_replace "{version}" "{revision}"
                    (replace ("^" ++ tagFormat ++ "$") "{version}" version)
                    "(?<revision>[0-9]+)" 0 "revision}" placeholder_version eq_refl
                    count_version_revision) as B4.
      pose proof (count_toLowerCase "{version}"
                    (replace (replace ("^" ++ tagFormat ++ "$") "{version}" version)
                       "{revision}" "(?<revision>[0-9]+)") eq_refl) as B5.
      specialize (A1 ltac:(discriminate)). specialize (A2 ltac:(discriminate)).
      split; lia.
    + pose proof (count_replace "{revision}" "{version}" tagFormat version 0 "version}"
                    placeholder_revision eq_refl count_revision_version) as B1.
      pose proof (count_replace "{revision}" "{revision}"
                    (replace tagFormat "{version}" version) (JsNumber.toString revision)
                    1 "revision}" placeholder_revision eq_refl count_revision_revision) as B2.
      pose proof (count_replace "{revision}" "{version}" ("^" ++ tagFormat ++ "$") version 0
                    "version}" placeholder_revision eq_refl count_revision_version) as B3.
      pose proof (count_replace "{revision}" "{revision}"
                    (replace ("^" ++ tagFormat ++ "$") "{version}" version)
                    "(?<revision>[0-9]+)" 1 "revision}" placeholder_revision eq_refl
                    count_revision_revision) as B4.
      pose proof (count_toLowerCase "{revision}"
                    (replace (replace ("^" ++ tagFormat ++ "$") "{version}" version)
                       "{revision}" "(?<revision>[0-9]+)") eq_refl) as B5.
      specialize (A1 ltac:(discriminate)). specialize (A2 ltac:(discriminate)).
      split; lia.
  - intros before after Hs Hfirst. unfold tagName, tagPattern. split.
    + now rewrite (replace_first tagFormat "{version}" version before after Hs Hfirst).
    + rewrite (replace_first ("^" ++ tagFormat ++ "$") "{version}" version
                 ("^" ++ before) (after ++ "$")).
      * now rewrite !append_assoc.
      * rewrite Hs. cbn [append]. now rewrite !append_assoc.
      * eapply first_between_anchors;
          [reflexivity | reflexivity | discriminate | exact Hs | exact Hfirst].
  - intros s x before after Hs Hfirst. now apply replace_first.
Qed.

(** A format that names each placeholder twice. *)
Lemma placeholders_replaced_once_witness :
  tagName "{version}.{version}-{revision}.{revision}" "1.0" (Num 2)
  = "1.0.{version}-2.{revision}"
  /\ tagPattern "{version}.{version}-{revision}.{revision}" "1.0"
     = "^1.0.{version}-(?<revision>[0-9]+).{revision}$".
Proof.
  destruct (placeholders_replaced_once "{version}.{version}-{revision}.{revision}" "1.0"
              (Num 2)) as (_ & split_at_version & _).
  exact (split_at_version "" ".{version}-{revision}.{revision}" eq_refl
           (fun x y _ => Nat.le_0_l (length x))).
Defined.

End Placeholders.

(* ------------------------------------------------------------------------- *)
(** ** Every way a run can end *)

Module Outcomes.
Import JsString JsNumber GitHub Effects Main Trace TraceFacts Paths Stages.
Import RegExp(Engine, RegExp, newRegExp, exec, RegExpExecArray, groups, get).
Import SemVer(Parser, parse, major, prerelease).
Local Open Scope string_scope.

Ltac reduce := Run.reduce.

(** Rewrite with the facts at hand about what the environment answers. *)
Ltac answers :=
  repeat match goal with
         | E : ?x = _ |- context [?x] => rewrite E; reduce
         end.

Section Program.
Context {engine : Engine} {semver : Parser}.

(** The head of the trace of every run that read a version. *)
Lemma Extracted_extract (env : Env) (version : string) :
  Extracted env version -> extract env = Some version.
Proof.
  intros (vre & contents & m & g & H1 & H2 & H3 & H4 & H5 & H6 & H7).
  unfold extract. rewrite H1, H2, H3, H4, H5, H6. cbn [nonEmpty]. now rewrite H7.
Qed.

(** A run that reads no version reports a failure and does nothing else. *)
Lemma main_no_version (env : Env) :
  extract env = None -> exists f, main env = [SetFailed f].
Proof.
  unfold extract.
  destruct (newRegExp (getInput env "version_pattern") "gm") as [e|vre] eqn:E1.
  { intros _. eexists. unfold main, run; cbv zeta. answers. reflexivity. }
  destruct (existsSync env (getInput env "source_file")) eqn:E2.
  2:{ intros _. eexists. unfold main, run; cbv zeta. answers. reflexivity. }
  destruct (readFileSync env (getInput env "source_file")) as [e|contents] eqn:E3.
  { intros _. eexists. unfold main, run; cbv zeta. answers. reflexivity. }
  destruct (exec vre contents) as [m|] eqn:E4.
  2:{ intros _. eexists. unfold main, run; cbv zeta. answers. reflexivity. }
  intros E5. eexists. unfold main, run; cbv zeta. answers. reflexivity.
Qed.

(** A run that read [version] and stops before the search is over. *)
Lemma main_stopped (env : Env) (version : string) :
  extract env = Some version -> reach env = None ->
  let tagFormat := getInput env "tag_format" in
  (allZeros version = true /\
   main env = (head version ++
     [ Info ("Aborting execution as version [" ++ version ++ "] can not be all zeros") ])%list)
  \/ (allZeros version = false /\
      ((exists e,
           newRegExp (tagPattern tagFormat version) "" = inl e /\
           main env = (head version ++ [ SetFailed (Caught e) ])%list)
       \/ (exists re e,
             newRegExp (tagPattern tagFormat version) "" = inr re /\
             newGitHub env (getInput env "api_token") = inl e /\
             main env = (head version ++
               [ Info ("Searching for existing tag with pattern: " ++ RegExp.toString re);
                 SetFailed (Caught e) ])%list)
       \/ (exists re git e,
             newRegExp (tagPattern tagFormat version) "" = inr re /\
             newGitHub env (getInput env "api_token") = inr git /\
             context_repo env = inl e /\
             main env = (head version ++
               [ Info ("Searching for existing tag with pattern: " ++ RegExp.toString re);
                 SetFailed (Caught (JsError.newError
                   ("could not fetch repository tags: " ++ JsError.toString e))) ])%list)
       \/ (exists re git r e,
             newRegExp (tagPattern tagFormat version) "" = inr re /\
             newGitHub env (getInput env "api_token") = inr git /\
             context_repo env = inr r /\
             listTags git r 100 = inl e /\
             main env = (head version ++
               [ Info ("Searching for existing tag with pattern: " ++ RegExp.toString re);
                 Call (ListTags r 100);
                 SetFailed (Caught (JsError.newError
                   ("could not fetch repository tags: " ++ JsError.toString e))) ])%list))).
Proof.
  intros Hx Hr tagFormat. unfold reach in Hr. rewrite Hx in Hr.
  apply Run.extract_Extracted in Hx as Hx'.
  destruct (allZeros version) eqn:Ez.
  { left. split; [reflexivity|]. now apply Run.main_allZeros. }
  right. split; [reflexivity|].
  destruct Hx' as (vre & contents & m & g & H1 & H2 & H3 & H4 & H5 & H6 & H7).
  unfold allZeros in Ez. fold tagFormat in Hr.
  destruct (newRegExp (tagPattern tagFormat version) "") as [e|re] eqn:E8.
  { left. exists e. split; [first [reflexivity | assumption]|].
    unfold main, run; cbv zeta. fold tagFormat. answers. reflexivity. }
  right.
  destruct (newGitHub env (getInput env "api_token")) as [e|git] eqn:E9.
  { left. exists re, e. do 2 (split; [first [reflexivity | assumption]|]).
    unfold main, run; cbv zeta. fold tagFormat. answers. reflexivity. }
  right.
  destruct (context_repo env) as [e|r] eqn:E10.
  { left. exists re, git, e. do 3 (split; [first [reflexivity | assumption]|]).
    unfold main, run, getRepoTags; cbv zeta. fold tagFormat. answers. reflexivity. }
  right.
  destruct (listTags git r 100) as [e|tags] eqn:E11; [|discriminate Hr].
  exists re, git, r, e. do 4 (split; [first [reflexivity | assumption]|]).
  unfold main, run, getRepoTags; cbv zeta. fold tagFormat. answers. reflexivity.
Qed.

(** The publishing part, event by event. *)
Lemma publish_outcome (env : Env) (version : string) (git : Client) (r : Repo)
  (tags : list TagItem) (sha desired : string) (revision : Number) :
  context_repo env = inr r ->
  finish (publish env version git tags sha desired revision) =
  (Info ("Generating tag message from [" ++ orNull (changelogFrom tags) ++ "] to ["
         ++ sha ++ "]") ::
  fst (getTagMessage git env (changelogFrom tags) (Some sha)) ++
  match snd (getTagMessage git env (changelogFrom tags) (Some sha)) with
  | Thrown e => [ SetFailed (Caught e) ]
  | Returned => []
  | Normal message =>
      Info ("Generated tag message: " ++ message) ::
      Info ("Creating new tag [" ++ desired ++ "] at [" ++ sha ++ "]...") ::
      Call (CreateTag r desired (desired ++ nl ++ nl ++ message) sha "commit") ::
      match createTag git r desired (desired ++ nl ++ nl ++ message) sha "commit" with
      | inl e => [ SetFailed (Caught e) ]
      | inr tag =>
          Info ("Created new tag [" ++ GitHub.tag tag ++ "] at [" ++ sha ++ "]") ::
          Info ("Creating new reference [" ++ GitHub.tag tag ++ " => "
                ++ GitHub.sha tag ++ "]...") ::
          Call (CreateRef r ("refs/tags/" ++ GitHub.tag tag) (GitHub.sha tag)) ::
          match createRef git r ("refs/tags/" ++ GitHub.tag tag) (GitHub.sha tag) with
          | inl e => [ SetFailed (Caught e) ]
          | inr tagRef =>
              Info ("Created new reference [" ++ ref tagRef ++ "] at ["
                    ++ url tagRef ++ "]") ::
              Info ("Creating new release [" ++ desired ++ "]...") ::
              Call (CreateRelease r desired message desired false (isPrerelease version)) ::
              match createRelease git r desired message desired false
                      (isPrerelease version) with
              | inl e => [ SetFailed (Caught e) ]
              | inr release =>
                  [ Info ("Created new release [" ++ release_url release ++ "]");
                    SetOutput "tag_name" (VString desired);
                    SetOutput "tag_revision" (VNumber revision);
                    SetOutput "tag_sha" (VString (GitHub.sha tag));
                    SetOutput "tag_uri" (VString (url tagRef));
                    SetOutput "release_uri" (VString (release_url release));
                    Info ("Created new tag [" ++ desired ++ "] for commit [" ++ sha ++ "]") ]
              end
          end
      end
  end)%list.
Proof.
  intros Hrepo. unfold publish. rewrite Hrepo. reduce.
  destruct (getTagMessage git env (changelogFrom tags) (Some sha)) as [tr [msg| |e]];
    reduce.
  - destruct (createTag git r desired _ sha "commit") as [e|tag]; reduce;
      [cbn [finish app]; rewrite <- ?app_assoc; reflexivity|].
    destruct (createRef git r _ _) as [e|tagRef]; reduce;
      [cbn [finish app]; rewrite <- ?app_assoc; reflexivity|].
    destruct (createRelease git r _ _ _ _ _) as [e|release]; reduce;
      cbn [finish app]; rewrite <- ?app_assoc; reflexivity.
  - cbn [finish]. now rewrite app_nil_r.
  - reflexivity.
Qed.

(** The changelog of a run that has a commit. *)
Lemma getTagMessage_outcome (git : Client) (env : Env) (r : Repo) (from : option string)
  (sha : string) :
  context_repo env = inr r -> truthy sha = true ->
  getTagMessage git env from (Some sha) =
  match nonEmpty from with
  | None => ([], Normal "Initial tag")
  | Some base =>
      ([Call (CompareCommits r base sha)],
       match compareCommits git r base sha with
       | inl e => Thrown (JsError.newError
                            ("could not generate changelog: " ++ JsError.toString e))
       | inr None | inr (Some []) => Normal "Initial tag"
       | inr (Some commits) => Normal (render commits)
       end)
  end.
Proof.
  intros Hrepo Hsha. rewrite Run.getTagMessage_cases, Hrepo.
  cbn [nonEmpty]. rewrite Hsha.
  destruct (nonEmpty from) as [base|]; [|reflexivity].
  destruct (compareCommits git r base sha) as [e|[[|c commits]|]]; reflexivity.
Qed.

(** A run that passed both guards with a commit. *)
Lemma main_passed (env : Env) (version : string) (re : RegExp) (git : Client)
  (r : Repo) (tags : list TagItem) (current : string) :
  Searched env version re git r tags ->
  let matchingTag := searchMatchingTag tags re in
  let desired := tagName (getInput env "tag_format") version (tagRevision matchingTag) in
  Unguarded env matchingTag desired ->
  nonEmpty (context_sha env) = Some current ->
  main env =
    (searchEvents version re r matchingTag ++
     Info ("Determined desired tag name: " ++ desired) ::
     finish (publish env version git tags current desired (tagRevision matchingTag)))%list.
Proof.
  intros Hs matchingTag desired Hu Hc.
  rewrite (Run.run_Searched env version re git r tags Hs); cbv zeta.
  fold matchingTag. fold desired. unfold Unguarded in Hu.
  destruct matchingTag as [mt|].
  - destruct Hu as [-> ->]. now rewrite Hc.
  - now rewrite Hc.
Qed.

Lemma in_outputs (tr : list Event) (k : string) (v : Value) :
  In (k, v) (outputs tr) <-> In (SetOutput k v) tr.
Proof.
  induction tr as [|ev tr IH]; simpl; [tauto|].
  destruct ev; simpl; rewrite IH; split; intros H;
    try (destruct H as [H|H]; [discriminate H|]); auto.
  - destruct H as [H|H]; [left; congruence | right; exact H].
  - destruct H as [H|H]; [left; congruence | right; exact H].
Qed.

End Program.

(** Split a statement about [main env] into the ways the run can end, with
    the trace of each written out. *)
Ltac publish_paths Hm env git r tags :=
  let current := fresh "current" in
  let Hcur := fresh "Hcur" in
  destruct (nonEmpty (context_sha env)) as [current|] eqn:Hcur;
  [ let Ht := fresh "Ht" in
    pose proof (proj2 (Run.nonEmpty_Some _ _ Hcur)) as Ht;
    match goal with
    | Hrepo : context_repo env = inr r |- _ =>
        rewrite (publish_outcome env _ git r tags current _ _ Hrepo) in Hm;
        rewrite (getTagMessage_outcome git env r _ current Hrepo Ht) in Hm
    end;
    let base := fresh "base" in
    let Hbase := fresh "Hbase" in
    (destruct (nonEmpty (changelogFrom tags)) as [base|] eqn:Hbase;
     [ let e := fresh "e" in
       let c := fresh "c" in
       let commits := fresh "commits" in
       let Hcmp := fresh "Hcmp" in
       destruct (compareCommits git r base current) as [e|[[|c commits]|]] eqn:Hcmp
     | ]);
    cbn [fst snd app] in Hm;
    repeat match type of Hm with
           | context [match ?x with inl _ => _ | inr _ => _ end] =>
               let E := fresh "E" in destruct x eqn:E
           end
  | ].

Ltac all_paths env :=
  let R := fresh "R" in
  let version := fresh "version" in
  let re := fresh "re" in
  let git := fresh "git" in
  let r := fresh "r" in
  let tags := fresh "tags" in
  let Hm := fresh "Hm" in
  destruct (reach env) as [[[[[version re] git] r] tags]|] eqn:R;
  [ let Hs := fresh "Hs" in
    pose proof (Run.reach_Searched env _ _ _ _ _ R) as Hs;
    pose proof (Run.run_Searched env _ _ _ _ _ Hs) as Hm; cbv zeta in Hm;
    let Hx := fresh "Hx" in
    let Hz := fresh "Hz" in
    let Hre := fresh "Hre" in
    let Hgit := fresh "Hgit" in
    let Hrepo := fresh "Hrepo" in
    let Htags := fresh "Htags" in
    pose proof Hs as (Hx & Hz & Hre & Hgit & Hrepo & Htags);
    let mt := fresh "mt" in
    let Hmt := fresh "Hmt" in
    (destruct (searchMatchingTag tags re) as [mt|] eqn:Hmt;
     [ let G1 := fresh "Hguard" in
       destruct (strictEq (sha mt) (context_sha env)) eqn:G1;
       [ | let G2 := fresh "Hname" in
           match type of Hm with
           | context [if name mt =? ?d then _ else _] =>
               destruct (name mt =? d) eqn:G2
           end;
           [ | publish_paths Hm env git r tags ] ]
     | publish_paths Hm env git r tags ])
  | let version := fresh "version" in
    let Hx := fresh "Hx" in
    destruct (extract env) as [version|] eqn:Hx;
    [ let e := fresh "e" in
      destruct (main_stopped env version Hx R)
        as [ [? Hm]
           | [? [ (e & ? & Hm)
                | [ (? & e & ? & ? & Hm)
                  | [ (? & ? & e & ? & ? & ? & Hm)
                    | (? & ? & ? & e & ? & ? & ? & ? & Hm) ]]]] ]
    | let f := fresh "f" in
      destruct (main_no_version env Hx) as [f Hm] ] ];
  unfold searchEvents, head in Hm; cbn [app] in Hm;
  rewrite Hm in *; clear Hm.

Section Order.
Context {engine : Engine} {semver : Parser}.

(** X2.  The requests of a run are, in this order, an initial part of: the
    listing of tags, the comparison (which a run may leave out), the tag
    object, the reference, the release. No request is sent twice, no reference
    without a tag object before it, no release without a reference before it. *)
Theorem requests_in_order (env : Env) :
  exists rest,
    (map stage (calls (main env)) ++ rest = [0; 1; 2; 3; 4]
     \/ map stage (calls (main env)) ++ rest = [0; 2; 3; 4])%list.
Proof.
  all_paths env; cbn -[append]; eexists; (left; reflexivity) || (right; reflexivity).
Qed.

(** X4.  A run reports at most one failure, as its last event, and a run that
    reports one has set no output but [version]. *)
Theorem failure_ends_the_run (env : Env) :
  failures (main env) = []
  \/ exists f,
       failures (main env) = [f]
       /\ last (main env) (Info "") = SetFailed f
       /\ forall k v, In (SetOutput k v) (main env) -> k = "version".
Proof.
  all_paths env; cbn -[append];
    first [ left; reflexivity
          | right; eexists; split; [reflexivity|]; split; [reflexivity|];
            intros k v Hin;
            repeat (destruct Hin as [Hin|Hin]; [try discriminate Hin|]);
            try contradiction; injection Hin as Hk _; now rewrite <- Hk ].
Qed.

(** X3.  The outputs are set all or none, [version] apart: a run sets no
    output, or [version] alone, or the six of them in the order of
    [action.yml]; and it sets the six exactly when it reports no failure and
    has sent the three creating requests. *)
Theorem outputs_all_or_version (env : Env) :
  let all := ["version"; "tag_name"; "tag_revision"; "tag_sha"; "tag_uri"; "release_uri"] in
  (outputNames (main env) = [] \/ outputNames (main env) = ["version"]
   \/ outputNames (main env) = all)
  /\ (outputNames (main env) = all <->
      failures (main env) = [] /\ map stage (creations (main env)) = [2; 3; 4]).
Proof.
  intros all. subst all. unfold outputNames, creations.
  all_paths env; cbn -[append]; (split; [auto|]); split;
    solve [ reflexivity | discriminate | intros [? ?]; discriminate | auto ].
Qed.

(** X12.  The reference is made from the answer to the tag request: its name
    is [refs/tags/] followed by the tag name the server returned, and it
    points at the SHA the server returned for the tag object. *)
Theorem reference_names_created_tag (env : Env) (r : Repo) (ref sha : string) :
  In (Call (CreateRef r ref sha)) (main env) ->
  exists git name message object tag,
    newGitHub env (getInput env "api_token") = inr git /\
    In (Call (CreateTag r name message object "commit")) (main env) /\
    createTag git r name message object "commit" = inr tag /\
    ref = "refs/tags/" ++ GitHub.tag tag /\
    sha = GitHub.sha tag.
Proof.
  intros Hin. apply in_calls in Hin.
  all_paths env; cbn [calls In] in Hin;
    repeat (destruct Hin as [Hin|Hin]; [try discriminate Hin|]);
    try contradiction;
    injection Hin as <- <- <-;
    do 5 eexists; (split; [eassumption|]);
    (split; [apply in_calls; cbn [calls In]; auto|]);
    (split; [eassumption|]); split; reflexivity.
Qed.

(** X13.  The release carries the desired tag name as its name and as its tag,
    is no draft, and its body is the changelog: the message of the tag object
    of the same run, at the commit of the context, is the name, an empty line,
    and that body. *)
Theorem release_is_named_after_tag (env : Env) (r : Repo) (name body tag_name : string)
  (draft flag : bool) :
  In (Call (CreateRelease r name body tag_name draft flag)) (main env) ->
  draft = false /\ tag_name = name /\
  exists object,
    context_sha env = Some object /\
    In (Call (CreateTag r name (name ++ nl ++ nl ++ body) object "commit")) (main env).
Proof.
  intros Hin. apply in_calls in Hin.
  all_paths env; cbn [calls In] in Hin;
    repeat (destruct Hin as [Hin|Hin]; [try discriminate Hin|]);
    try contradiction;
    injection Hin as <- <- <- <- <- <-;
    (split; [reflexivity|]); (split; [reflexivity|]);
    eexists; (split; [apply Run.nonEmpty_Some; eassumption|]);
    apply in_calls; cbn [calls In]; auto.
Qed.

(** X14.  The desired tag name is an output only of a run that created the tag
    object, the reference and the release; the outputs are then the version,
    the desired name and revision, and what the server answered: the SHA of
    the tag object and the URLs of the reference and of the release. *)
Theorem tag_outputs_report_the_answers (env : Env) (value : Value) :
  In (SetOutput "tag_name" value) (main env) ->
  exists version re git r tags current message tag tagRef release,
    let revision := tagRevision (searchMatchingTag tags re) in
    let desired := tagName (getInput env "tag_format") version revision in
    Searched env version re git r tags /\
    context_sha env = Some current /\
    createTag git r desired (desired ++ nl ++ nl ++ message) current "commit" = inr tag /\
    createRef git r ("refs/tags/" ++ GitHub.tag tag) (GitHub.sha tag) = inr tagRef /\
    createRelease git r desired message desired false (isPrerelease version)
    = inr release /\
    outputs (main env) =
      [ ("version", VString version);
        ("tag_name", VString desired);
        ("tag_revision", VNumber revision);
        ("tag_sha", VString (GitHub.sha tag));
        ("tag_uri", VString (url tagRef));
        ("release_uri", VString (release_url release)) ].
Proof.
  intros Hin. apply in_outputs in Hin.
  all_paths env; cbn [outputs In] in Hin;
    repeat (destruct Hin as [Hin|Hin]; [try discriminate Hin|]);
    try contradiction;
    do 10 eexists; cbv zeta;
    (split; [eassumption|]);
    (split; [apply Run.nonEmpty_Some; eassumption|]);
    rewrite ?Hmt;
    (split; [eassumption|]); (split; [eassumption|]); (split; [eassumption|]);
    reflexivity.
Qed.

(** X5.  A request the server refuses is the last request of the run, and the
    run reports one failure: the error of a creating request as it is, the
    error of the listing or of the comparison inside a new error that says
    which of the two failed. *)
Theorem refused_request_is_last (env : Env) (git : Client) (rq : Request)
  (e : JsError.Error) :
  newGitHub env (getInput env "api_token") = inr git ->
  In (Call rq) (main env) ->
  refusal git rq = Some e ->
  (exists before, calls (main env) = (before ++ [rq])%list)
  /\ failures (main env) =
       [ Caught match rq with
                | ListTags _ _ =>
                    JsError.newError
                      ("could not fetch repository tags: " ++ JsError.toString e)
                | CompareCommits _ _ _ =>
                    JsError.newError
                      ("could not generate changelog: " ++ JsError.toString e)
                | _ => e
                end ].
Proof.
  intros Hgit Hin Href. apply in_calls in Hin.
  all_paths env; cbn [calls In] in Hin;
    repeat (destruct Hin as [Hin|Hin]; [try discriminate Hin|]);
    try contradiction;
    subst rq; cbn [refusal] in Href;
    repeat match goal with
           | H : newGitHub env _ = _ |- _ => rewrite Hgit in H; try discriminate H;
                                             injection H as <-
           end;
    repeat match goal with
           | E : ?x = _, H : context [match ?x with _ => _ end] |- _ => rewrite E in H
           end;
    try discriminate Href; injection Href as <-;
    (split; [|reflexivity]);
    cbn [calls];
    match goal with |- exists before, ?l = _ => exists (removelast l) end;
    reflexivity.
Qed.

(** X6.  Every run either reports one failure and does nothing else, which is
    the case when it reads no version, or starts by setting the [version]
    output to the version it read. *)
Theorem version_or_failure (env : Env) :
  (extract env = None /\ exists f, main env = [SetFailed f])
  \/ exists version rest,
       Extracted env version /\
       main env =
         SetOutput "version" (VString version) ::
         Info ("Extracted version from source file: " ++ version) :: rest.
Proof.
  all_paths env;
    first [ left; split; [first [assumption | reflexivity] | eexists; reflexivity]
          | right; do 2 eexists; split;
            [first [eassumption | apply Run.extract_Extracted; eassumption]
            | reflexivity] ].
Qed.

(** X7.  The three failures of the extraction that the program words itself:
    no source file, no match of the version pattern in it, and a match without
    a group [version] or with an empty one. *)
Theorem extraction_failures (env : Env) (versionRegExp : RegExp) :
  let sourceFile := getInput env "source_file" in
  let versionPattern := getInput env "version_pattern" in
  newRegExp versionPattern "gm" = inr versionRegExp ->
  (existsSync env sourceFile = false ->
   main env = [SetFailed (Message ("Could not find source file: " ++ sourceFile))])
  /\ (forall contents,
        existsSync env sourceFile = true ->
        readFileSync env sourceFile = inr contents ->
        exec versionRegExp contents = None ->
        main env =
          [SetFailed (Message ("Could not find version pattern in source file: "
                               ++ versionPattern))])
  /\ (forall contents matches,
        existsSync env sourceFile = true ->
        readFileSync env sourceFile = inr contents ->
        exec versionRegExp contents = Some matches ->
        nonEmpty (match groups matches with
                  | Some g => get "version" g
                  | None => None
                  end) = None ->
        main env =
          [SetFailed (Message ("Could not find named capture group 'version' in pattern: "
                               ++ versionPattern))]).
Proof.
  intros sourceFile versionPattern E1. subst sourceFile versionPattern.
  split; [|split].
  - intros E2. unfold main, run; cbv zeta. answers. reflexivity.
  - intros contents E2 E3 E4. unfold main, run; cbv zeta. answers. reflexivity.
  - intros contents matches E2 E3 E4 E5. unfold main, run; cbv zeta. answers. reflexivity.
Qed.

(** X8.  A version that makes the derived pattern no valid expression: the run
    fails with the error of the constructor, after the [version] output and
    before it builds a client or sends a request. *)
Theorem invalid_tag_pattern_fails (env : Env) (version : string) (e : JsError.Error) :
  Extracted env version ->
  allZeros version = false ->
  newRegExp (tagPattern (getInput env "tag_format") version) "" = inl e ->
  main env =
    [ SetOutput "version" (VString version);
      Info ("Extracted version from source file: " ++ version);
      SetFailed (Caught e) ].
Proof.
  intros Hx Hz He.
  assert (reach env = None) as R.
  { unfold reach. now rewrite (Extracted_extract _ _ Hx), Hz, He. }
  destruct (main_stopped env version (Extracted_extract _ _ Hx) R)
    as [[Hz' _] | [_ [(e' & He' & Hm) | [(? & ? & He' & _) | [(? & ? & ? & He' & _)
                                                            | (? & ? & ? & ? & He' & _)]]]]];
    try congruence.
  rewrite Hm. unfold head. cbn [app]. congruence.
Qed.

(** X9.  Without a commit SHA in the context, empty or missing, a run sends no
    request but the listing of tags; when it passes both guards it fails with
    the message of the program. *)
Theorem missing_commit_creates_nothing (env : Env) :
  nonEmpty (context_sha env) = None ->
  (forall rq, In (Call rq) (main env) -> exists r, rq = ListTags r 100)
  /\ (forall version re git r tags,
        Searched env version re git r tags ->
        Unguarded env (searchMatchingTag tags re)
          (tagName (getInput env "tag_format") version
             (tagRevision (searchMatchingTag tags re))) ->
        failures (main env)
        = [Message "Can not create new tag as commit SHA is missing in context"]
        /\ outputs (main env) = [("version", VString version)]).
Proof.
  intros Hc. split.
  - intros rq Hin. apply in_calls in Hin.
    all_paths env; try discriminate Hc; cbn [calls In] in Hin;
      repeat (destruct Hin as [Hin|Hin]; [try discriminate Hin|]);
      try contradiction; subst rq; eexists; reflexivity.
  - intros version re git r tags Hs Hu.
    rewrite (Run.run_Searched env version re git r tags Hs); cbv zeta.
    unfold Unguarded in Hu. unfold searchEvents.
    destruct (searchMatchingTag tags re) as [mt|].
    + destruct Hu as [-> ->]. rewrite Hc. split; reflexivity.
    + rewrite Hc. split; reflexivity.
Qed.

(** X10.  The second guard: a matching tag at another commit whose name is the
    desired name stops the run without a failure, after the listing of tags
    and before the commit of the context is looked at. *)
Theorem tag_of_desired_name_stops (env : Env) (version : string) (re : RegExp)
  (git : Client) (r : Repo) (tags : list TagItem) (mt : MatchingTag) :
  Searched env version re git r tags ->
  searchMatchingTag tags re = Some mt ->
  strictEq (sha mt) (context_sha env) = false ->
  name mt = tagName (getInput env "tag_format") version (tagRevision (Some mt)) ->
  main env =
    (searchEvents version re r (Some mt) ++
     [ Info ("Determined desired tag name: " ++ name mt);
       Info ("Aborting execution as current tag [" ++ name mt
             ++ "] matches desired tag") ])%list
  /\ failures (main env) = []
  /\ calls (main env) = [ListTags r 100].
Proof.
  intros Hs Hmt Hsha Hname.
  rewrite (Run.run_Searched env version re git r tags Hs); cbv zeta.
  rewrite Hmt, Hsha, <- Hname, String.eqb_refl. unfold searchEvents.
  repeat split.
Qed.

(** X11.  Every request of a run addresses the repository of the context, and
    the tag object is requested with the desired name, at the commit of the
    context, with the type [commit], and with a message that is the name, an
    empty line, and the changelog. *)
Theorem requests_stay_in_context (env : Env) (rq : Request) :
  In (Call rq) (main env) ->
  context_repo env = inr (repoOf rq)
  /\ forall r tag message object type,
       rq = CreateTag r tag message object type ->
       context_sha env = Some object /\ type = "commit"
       /\ (exists changelog, message = tag ++ nl ++ nl ++ changelog)
       /\ exists version, Extracted env version
            /\ exists revision, tag = tagName (getInput env "tag_format") version revision.
Proof.
  intros Hin. apply in_calls in Hin.
  all_paths env; cbn [calls In] in Hin;
    repeat (destruct Hin as [Hin|Hin]; [try discriminate Hin|]);
    try contradiction; subst rq; cbn [repoOf];
    (split; [assumption|]);
    intros r' tag message object type Heq; try discriminate Heq;
    injection Heq as <- <- <- <- <-;
    (split; [apply Run.nonEmpty_Some; assumption|]); (split; [reflexivity|]);
    (split; [eexists; reflexivity|]);
    eexists; (split; [eassumption|]); eexists; reflexivity.
Qed.

(** X1.  A run that passes both guards with a commit, and whose requests the
    server all accepts, reports no failure, sends the three creating requests,
    each built from the answer to the one before, and sets the six outputs. *)
Theorem unguarded_run_completes (env : Env) (version : string) (re : RegExp)
  (git : Client) (r : Repo) (tags : list TagItem) (current message : string)
  (tag : TagData) (tagRef : RefData) (release : ReleaseData) :
  let revision := tagRevision (searchMatchingTag tags re) in
  let desired := tagName (getInput env "tag_format") version revision in
  Searched env version re git r tags ->
  Unguarded env (searchMatchingTag tags re) desired ->
  nonEmpty (context_sha env) = Some current ->
  snd (getTagMessage git env (changelogFrom tags) (Some current)) = Normal message ->
  createTag git r desired (desired ++ nl ++ nl ++ message) current "commit" = inr tag ->
  createRef git r ("refs/tags/" ++ GitHub.tag tag) (GitHub.sha tag) = inr tagRef ->
  createRelease git r desired message desired false (isPrerelease version)
  = inr release ->
  failures (main env) = []
  /\ creations (main env) =
       [ CreateTag r desired (desired ++ nl ++ nl ++ message) current "commit";
         CreateRef r ("refs/tags/" ++ GitHub.tag tag) (GitHub.sha tag);
         CreateRelease r desired message desired false (isPrerelease version) ]
  /\ outputs (main env) =
       [ ("version", VString version);
         ("tag_name", VString desired);
         ("tag_revision", VNumber revision);
         ("tag_sha", VString (GitHub.sha tag));
         ("tag_uri", VString (url tagRef));
         ("release_uri", VString (release_url release)) ].
Proof.
  intros revision desired Hs Hu Hc Hm Ht Hf Hl.
  pose proof Hs as (_ & _ & _ & _ & Hrepo & _).
  rewrite (main_passed env version re git r tags current Hs Hu Hc).
  fold revision. fold desired.
  rewrite (publish_outcome env version git r tags current desired revision Hrepo).
  rewrite (getTagMessage_outcome git env r _ current Hrepo
             (proj2 (Run.nonEmpty_Some _ _ Hc))) in Hm |- *.
  unfold creations, searchEvents.
  destruct (nonEmpty (changelogFrom tags)) as [base|];
    [destruct (compareCommits git r base current) as [e|[[|c commits]|]]|];
    cbn [fst snd] in Hm |- *; try discriminate Hm; injection Hm as Hm;
    rewrite Hm, Ht, Hf, Hl; repeat split.
Qed.

(** X23.  A creating request is sent only past both guards: by a run that
    has a non-empty commit SHA and in which the matching tag, if there is
    one, is neither at that commit nor named as the tag to create. *)
Theorem creation_passed_the_guards (env : Env) (rq : Request) :
  In (Call rq) (main env) ->
  creates rq = true ->
  exists version re git r tags current,
    Searched env version re git r tags /\
    context_sha env = Some current /\ current <> "" /\
    forall mt,
      searchMatchingTag tags re = Some mt ->
      sha mt <> current
      /\ name mt <> tagName (getInput env "tag_format") version (tagRevision (Some mt)).
Proof.
  intros Hin Hc.
  destruct (Run.main_late_call env rq Hin) as
    (version & re & git & r & tags & current & Hs & Hu & Hcur & _).
  { intros r n ->. discriminate Hc. }
  apply Run.nonEmpty_Some in Hcur as [Hsha Ht].
  exists version, re, git, r, tags, current.
  split; [exact Hs|]. split; [exact Hsha|]. split.
  - intros ->. discriminate Ht.
  - intros mt Hmt. rewrite Hmt in Hu. cbn [Unguarded] in Hu. destruct Hu as [H1 H2].
    rewrite Hsha in H1. cbn [strictEq] in H1.
    apply String.eqb_neq in H1. apply String.eqb_neq in H2. auto.
Qed.

End Order.

(** *** Concrete runs *)

Ltac conjs := repeat match goal with |- _ /\ _ => split end.
Ltac evaluate := vm_compute; reflexivity.
Ltac member := vm_compute; repeat (first [left; reflexivity | right]).

(** The second revision of version 1.2.0: the server lists [v1.2.0-1] at an
    earlier commit, and the run creates [v1.2.0-2]. *)
Lemma reference_names_created_tag_witness :
  exists git name message object tag,
    newGitHub
      (Sample.env "v{version}-{revision}" "1.2.0" [mkTag "v1.2.0-1" "def456"]
         [Some (mkCommit "Fix parser" None)] (Some "abc123"))
      "token" = inr git /\
    In (Call (CreateTag (mkRepo "snapserv" "demo") name message object "commit"))
      (Sample.main
         (Sample.env "v{version}-{revision}" "1.2.0" [mkTag "v1.2.0-1" "def456"]
            [Some (mkCommit "Fix parser" None)] (Some "abc123"))) /\
    createTag git (mkRepo "snapserv" "demo") name message object "commit" = inr tag /\
    "refs/tags/v1.2.0-2" = "refs/tags/" ++ GitHub.tag tag /\
    "7a9c" = GitHub.sha tag.
Proof.
  apply (@reference_names_created_tag Mini.engine SemVer.strict
           (Sample.env "v{version}-{revision}" "1.2.0" [mkTag "v1.2.0-1" "def456"]
              [Some (mkCommit "Fix parser" None)] (Some "abc123"))
           (mkRepo "snapserv" "demo") "refs/tags/v1.2.0-2" "7a9c").
  member.
Defined.

Lemma release_is_named_after_tag_witness :
  exists object,
    Some "abc123" = Some object /\
    In (Call (CreateTag (mkRepo "snapserv" "demo") "v1.2.0-2"
                ("v1.2.0-2" ++ nl ++ nl ++ "* Fix parser") object "commit"))
      (Sample.main
         (Sample.env "v{version}-{revision}" "1.2.0" [mkTag "v1.2.0-1" "def456"]
            [Some (mkCommit "Fix parser" None)] (Some "abc123"))).
Proof.
  edestruct (@release_is_named_after_tag Mini.engine SemVer.strict
               (Sample.env "v{version}-{revision}" "1.2.0" [mkTag "v1.2.0-1" "def456"]
                  [Some (mkCommit "Fix parser" None)] (Some "abc123"))
               (mkRepo "snapserv" "demo") "v1.2.0-2" "* Fix parser" "v1.2.0-2" false false)
    as (_ & _ & H); [member | exact H].
Defined.

Lemma tag_outputs_report_the_answers_witness :
  outputNames
    (Sample.main
       (Sample.env "v{version}-{revision}" "1.2.0" [mkTag "v1.2.0-1" "def456"]
          [Some (mkCommit "Fix parser" None)] (Some "abc123")))
  = ["version"; "tag_name"; "tag_revision"; "tag_sha"; "tag_uri"; "release_uri"].
Proof.
  edestruct (@tag_outputs_report_the_answers Mini.engine SemVer.strict
               (Sample.env "v{version}-{revision}" "1.2.0" [mkTag "v1.2.0-1" "def456"]
                  [Some (mkCommit "Fix parser" None)] (Some "abc123"))
               (VString "v1.2.0-2"))
    as (version & re & git & r & tags & current & message & tag & tagRef & release & H);
    [member|].
  cbv zeta in H. destruct H as (_ & _ & _ & _ & _ & H).
  unfold outputNames, Sample.main. rewrite H. reflexivity.
Defined.

(** The same run against a server that refuses the reference: the tag object
    is created, and the reference is the last request. *)
Lemma refused_request_is_last_witness :
  failures
    (Sample.main
       (Faulty.withClient
          (Sample.env "v{version}" "1.2.0" [] [] (Some "abc123"))
          (Faulty.noReference (Sample.client [] []))))
  = [Caught Faulty.refused].
Proof.
  edestruct (@refused_request_is_last Mini.engine SemVer.strict
               (Faulty.withClient
                  (Sample.env "v{version}" "1.2.0" [] [] (Some "abc123"))
                  (Faulty.noReference (Sample.client [] [])))
               (Faulty.noReference (Sample.client [] []))
               (CreateRef (mkRepo "snapserv" "demo") "refs/tags/v1.2.0" "7a9c")
               Faulty.refused)
    as [_ H]; [evaluate | member | evaluate | exact H].
Defined.

(** The configuration of the README in a checkout without [package.json]. *)
Lemma extraction_failures_witness :
  Sample.main
    (Faulty.withoutFile (Sample.env "v{version}" "1.2.0" [] [] (Some "abc123")))
  = [SetFailed (Message "Could not find source file: package.json")].
Proof.
  edestruct (@extraction_failures Mini.engine SemVer.strict
               (Faulty.withoutFile (Sample.env "v{version}" "1.2.0" [] [] (Some "abc123"))))
    as [H _]; [evaluate|].
  exact (H eq_refl).
Defined.

(** A version with an opening parenthesis. *)
Lemma invalid_tag_pattern_fails_witness :
  failures (Sample.main (Sample.env "v{version}" "1.0(" [] [] (Some "abc123")))
  = [Caught (Mini.syntaxError "^v1.0($" "Unterminated group")].
Proof.
  unfold Sample.main.
  rewrite (@invalid_tag_pattern_fails Mini.engine SemVer.strict
             (Sample.env "v{version}" "1.0(" [] [] (Some "abc123")) "1.0("
             (Mini.syntaxError "^v1.0($" "Unterminated group"));
    [reflexivity | apply Run.extract_Extracted; evaluate | evaluate | evaluate].
Defined.

(** A run outside a commit, in a repository without tags. *)
Lemma missing_commit_creates_nothing_witness :
  failures (Sample.main (Sample.env "v{version}" "1.0.0" [] [] None))
  = [Message "Can not create new tag as commit SHA is missing in context"].
Proof.
  edestruct (@missing_commit_creates_nothing Mini.engine SemVer.strict
               (Sample.env "v{version}" "1.0.0" [] [] None)) as [_ H]; [evaluate|].
  edestruct (H "1.0.0") as [H' _];
    [eapply Run.reach_Searched; evaluate | vm_compute; exact I | exact H'].
Defined.

(** A new commit at an unchanged version, with the default kind of format. *)
Lemma tag_of_desired_name_stops_witness :
  calls (Sample.main
           (Sample.env "v{version}" "1.0.0" [mkTag "v1.0.0" "def456"] [] (Some "abc123")))
  = [ListTags (mkRepo "snapserv" "demo") 100].
Proof.
  edestruct (@tag_of_desired_name_stops Mini.engine SemVer.strict
               (Sample.env "v{version}" "1.0.0" [mkTag "v1.0.0" "def456"] []
                  (Some "abc123")) "1.0.0")
    as (_ & _ & H);
    [eapply Run.reach_Searched; evaluate | evaluate | evaluate | evaluate | exact H].
Defined.

(** The listing of the same run. *)
Lemma requests_stay_in_context_witness :
  context_repo (Sample.env "v{version}" "1.0.0" [mkTag "v1.0.0" "def456"] [] (Some "abc123"))
  = inr (mkRepo "snapserv" "demo").
Proof.
  edestruct (@requests_stay_in_context Mini.engine SemVer.strict
               (Sample.env "v{version}" "1.0.0" [mkTag "v1.0.0" "def456"] []
                  (Some "abc123"))
               (ListTags (mkRepo "snapserv" "demo") 100)) as [H _]; [member | exact H].
Defined.

(** The first release of a repository without tags. *)
Lemma unguarded_run_completes_witness :
  creations (Sample.main (Sample.env "v{version}" "1.0.0" [] [] (Some "abc123")))
  = [ CreateTag (mkRepo "snapserv" "demo") "v1.0.0" ("v1.0.0" ++ nl ++ nl ++ "Initial tag")
        "abc123" "commit";
      CreateRef (mkRepo "snapserv" "demo") "refs/tags/v1.0.0" "7a9c";
      CreateRelease (mkRepo "snapserv" "demo") "v1.0.0" "Initial tag" "v1.0.0" false false ].
Proof.
  edestruct (@unguarded_run_completes Mini.engine SemVer.strict
               (Sample.env "v{version}" "1.0.0" [] [] (Some "abc123")) "1.0.0")
    as (_ & H & _);
    [ eapply Run.reach_Searched; evaluate | vm_compute; exact I | evaluate
    | evaluate | evaluate | evaluate | evaluate | exact H ].
Defined.

(** The second revision again: the tag listed is at another commit and has
    another name. *)
Lemma creation_passed_the_guards_witness :
  exists version re git r tags current,
    Searched
      (Sample.env "v{version}-{revision}" "1.2.0" [mkTag "v1.2.0-1" "def456"]
         [Some (mkCommit "Fix parser" None)] (Some "abc123"))
      version re git r tags /\
    Some "abc123" = Some current /\ current <> "" /\
    forall mt,
      @searchMatchingTag Mini.engine tags re = Some mt ->
      sha mt <> current
      /\ name mt <> tagName "v{version}-{revision}" version (tagRevision (Some mt)).
Proof.
  apply (@creation_passed_the_guards Mini.engine SemVer.strict
           (Sample.env "v{version}-{revision}" "1.2.0" [mkTag "v1.2.0-1" "def456"]
              [Some (mkCommit "Fix parser" None)] (Some "abc123"))
           (CreateRef (mkRepo "snapserv" "demo") "refs/tags/v1.2.0-2" "7a9c"));
    [member | reflexivity].
Defined.

End Outcomes.

(* ------------------------------------------------------------------------- *)
(** ** The revision through a tag name and back *)

Module Numbers.
Import JsString JsNumber Main.
Import RegExp(RegExpExecArray, groups, get).
Local Open Scope string_scope.
Local Open Scope Z_scope.

(** *** Reading decimal digits *)

(** The value of a digit string whose first digit is not alone in deciding
    it: the first digit times the power of ten of the rest, plus the rest. *)
Lemma of_uint_head (d : Decimal.uint) :
  Pos.of_uint d
  = (DecimalPos.Unsigned.hd d * 10 ^ DecimalPos.Unsigned.usize (DecimalPos.Unsigned.tl d)
     + Pos.of_uint (DecimalPos.Unsigned.tl d))%N.
Proof.
  rewrite !DecimalPos.Unsigned.of_uint_alt.
  destruct d; cbn [DecimalPos.Unsigned.hd DecimalPos.Unsigned.tl];
    [reflexivity | ..];
    unfold Decimal.rev at 1; cbn [Decimal.revapp];
    rewrite DecimalPos.Unsigned.of_lu_revapp; cbn [DecimalPos.Unsigned.of_lu];
    fold (Decimal.rev d); lia.
Qed.

(** One step of [mathInt] in radix ten. *)
Lemma digitsPrefix_uint (d : Decimal.uint) (rest : string) (acc : Z) :
  fold_left (fun acc d => acc * 10 + d)
    (digitsPrefix 10 (DecimalString.NilEmpty.string_of_uint d ++ rest)) acc
  = fold_left (fun acc d => acc * 10 + d) (digitsPrefix 10 rest)
      (acc * 10 ^ Z.of_N (DecimalPos.Unsigned.usize d) + Z.of_N (Pos.of_uint d)).
Proof.
  revert acc. induction d; intros acc;
    [ cbn [DecimalString.NilEmpty.string_of_uint append DecimalPos.Unsigned.usize];
      f_equal; change (Pos.of_uint Decimal.Nil) with 0%N; lia | .. ];
    rewrite (of_uint_head (_ d));
    cbn [DecimalString.NilEmpty.string_of_uint append DecimalPos.Unsigned.usize
         DecimalPos.Unsigned.hd DecimalPos.Unsigned.tl];
    match goal with
    | |- context [digitsPrefix 10 (String ?c ?s)] =>
        change (digitsPrefix 10 (String c s))
          with (Z.of_N (code c) - 48 :: digitsPrefix 10 s)
    end;
    cbn [fold_left]; rewrite IHd; f_equal;
    rewrite N2Z.inj_succ, Z.pow_succ_r by lia;
    rewrite N2Z.inj_add, N2Z.inj_mul, N2Z.inj_pow;
    match goal with
    | |- context [Z.of_N (code ?c) - 48] =>
        let v := eval vm_compute in (Z.of_N (code c) - 48) in
        change (Z.of_N (code c) - 48) with v
    end;
    match goal with
    | |- context [Z.of_N ?k * Z.of_N 10 ^ _] =>
        let v := eval vm_compute in (Z.of_N k) in
        change (Z.of_N k) with v; change (Z.of_N 10) with 10
    end;
    ring.
Qed.

Lemma digitsPrefix_zeros (j : nat) (acc : Z) :
  fold_left (fun acc d => acc * 10 + d) (digitsPrefix 10 (zeros j)) acc
  = acc * 10 ^ Z.of_nat j.
Proof.
  revert acc. induction j as [|j IH]; intros acc.
  - cbn [zeros digitsPrefix fold_left]. change (10 ^ Z.of_nat 0) with 1. lia.
  - cbn [zeros].
    change (digitsPrefix 10 (String "0" (zeros j))) with (0 :: digitsPrefix 10 (zeros j)).
    cbn [fold_left]. rewrite IH, Nat2Z.inj_succ, Z.pow_succ_r by lia. ring.
Qed.

(** The digits of a number are no radix prefix. *)
Lemma decimal_radix (c : ascii) (d : Decimal.uint) (j : nat) :
  In c ["0"; "1"; "2"; "3"; "4"; "5"; "6"; "7"; "8"; "9"]%char ->
  startsWith "0x" (String c (DecimalString.NilEmpty.string_of_uint d ++ zeros j))
  || startsWith "0X" (String c (DecimalString.NilEmpty.string_of_uint d ++ zeros j))
  = false.
Proof.
  intros H. cbn [In] in H.
  repeat (destruct H as [<-|H]; [first [reflexivity | destruct d, j; reflexivity]|]).
  contradiction.
Qed.

(** [parseInt] of decimal digits followed by zeros. *)
Lemma parseInt_decimal (d : Decimal.uint) (j : nat) :
  d <> Decimal.Nil ->
  parseInt (DecimalString.NilEmpty.string_of_uint d ++ zeros j)
  = (if Z.of_N (Pos.of_uint d) * 10 ^ Z.of_nat j =? 0 then Num 0
     else roundToDouble (Z.of_N (Pos.of_uint d) * 10 ^ Z.of_nat j)).
Proof.
  intros Hd.
  assert (forall v c s,
             digitValue c = Some v -> v < 10 ->
             isWhiteSpace c = false ->
             c <> "-"%char -> c <> "+"%char ->
             startsWith "0x" (String c s) || startsWith "0X" (String c s) = false ->
             parseInt (String c s)
             = (if mathInt 10 (v :: digitsPrefix 10 s) =? 0 then Num 0
                else roundToDouble (mathInt 10 (v :: digitsPrefix 10 s)))) as digit.
  { intros v c s Hv Hlt Hw Hm Hp Hr. unfold parseInt.
    cbn [trimStart]. rewrite Hw.
    assert ((match String c s with
             | String "-" r => (true, r)
             | String "+" r => (false, r)
             | _ => (false, String c s)
             end) = (false, String c s)) as ->.
    { destruct c as [[] [] [] [] [] [] [] []]; try reflexivity; congruence. }
    rewrite Hr. cbn [digitsPrefix]. rewrite Hv.
    apply Z.ltb_lt in Hlt. rewrite Hlt. reflexivity. }
  destruct d; [congruence | ..];
    cbn [DecimalString.NilEmpty.string_of_uint append];
    (erewrite digit;
     [ | reflexivity | reflexivity | reflexivity | discriminate | discriminate
       | apply decimal_radix; cbn [In]; auto 12 ]);
    unfold mathInt; cbn [fold_left];
    rewrite digitsPrefix_uint, digitsPrefix_zeros, (of_uint_head (_ d));
    cbn [DecimalPos.Unsigned.hd DecimalPos.Unsigned.tl];
    rewrite N2Z.inj_add, N2Z.inj_mul, N2Z.inj_pow;
    match goal with
    | |- context [Z.of_N ?k * Z.of_N 10 ^ _] =>
        let v := eval vm_compute in (Z.of_N k) in
        change (Z.of_N k) with v; change (Z.of_N 10) with 10
    end;
    match goal with
    | |- context [Z.of_N (code ?c) - 48] =>
        let v := eval vm_compute in (Z.of_N (code c) - 48) in
        change (Z.of_N (code c) - 48) with v
    end;
    match goal with
    | |- (if ?a =? 0 then _ else roundToDouble ?a') = (if ?b =? 0 then _ else _) =>
        replace b with a by ring; reflexivity
    end.
Qed.

(** *** Writing decimal digits *)

(** An integer from [2^53] on does not round below [2^53]. *)
Lemma roundToDouble_small (z x : Z) :
  0 < z -> 0 < x < 2 ^ 53 ->
  Number_eqb (roundToDouble z) (Num x) = true -> z = x.
Proof.
  intros Hz Hx. unfold roundToDouble. cbv zeta. rewrite (Z.abs_eq z) by lia.
  destruct (z <? 2 ^ 53) eqn:E.
  { cbn [Number_eqb]. now intros H%Z.eqb_eq. }
  apply Z.ltb_ge in E.
  set (e := Z.log2 z - 52).
  assert (53 <= Z.log2 z) as Hlog.
  { rewrite <- (Z.log2_pow2 53) by lia. now apply Z.log2_le_mono. }
  assert (1 <= e) as He by (unfold e; lia).
  assert (2 ^ 52 <= Z.shiftr z e) as Hq.
  { rewrite Z.shiftr_div_pow2 by lia.
    apply Z.div_le_lower_bound; [apply Z.pow_pos_nonneg; lia|].
    rewrite <- Z.pow_add_r by lia. replace (e + 52) with (Z.log2 z) by (unfold e; lia).
    apply Z.log2_spec. lia. }
  set (q := Z.shiftr z e) in *.
  match goal with
  | |- context [if ?c then q + 1 else q] => set (q' := if c then q + 1 else q)
  end.
  assert (q <= q') as Hq'.
  { unfold q'. match goal with |- context [if ?c then _ else _] => destruct c end; lia. }
  assert (2 ^ 53 <= Z.shiftl q' e) as Hm.
  { rewrite Z.shiftl_mul_pow2 by lia.
    replace (2 ^ 53) with (2 ^ 52 * 2 ^ 1) by reflexivity.
    apply Z.mul_le_mono_nonneg; try lia.
    apply Z.pow_le_mono_r; lia. }
  destruct (2 ^ 1024 <=? Z.shiftl q' e); [discriminate|].
  cbn [Number_eqb]. rewrite Z.sgn_pos by lia. intros H%Z.eqb_eq. lia.
Qed.

Lemma closest_In (x : Z) (cs : list (Z * Z * Z)) (c : Z * Z * Z) :
  closest x cs = Some c -> In c cs.
Proof.
  unfold closest.
  assert (forall best,
             fold_left
               (fun best c =>
                  let '(n, k, s) := c in
                  match best with
                  | None => Some c
                  | Some (n', k', s') =>
                      if Z.abs (s * 10 ^ (n - k) - x) <? Z.abs (s' * 10 ^ (n' - k') - x)
                      then Some c else best
                  end) cs best = Some c ->
             In c cs \/ best = Some c) as H.
  { induction cs as [|[[n k] s] cs IH]; intros best; cbn [fold_left In].
    - auto.
    - intros H. apply IH in H as [H|H]; [auto|].
      destruct best as [[[n' k'] s']|].
      + destruct (_ <? _); [left; left; congruence | auto].
      + left; left; congruence. }
  intros E. apply H in E as [E|E]; [exact E | discriminate E].
Qed.

Lemma candidates_spec (x d k n' k' s : Z) :
  In (n', k', s) (candidates x d k) ->
  n' <= d + 1 /\ k' = k /\ k <= n' /\ 10 ^ (k - 1) <= s
  /\ Number_eqb (roundToDouble (s * 10 ^ (n' - k'))) (Num x) = true.
Proof.
  unfold candidates. intros H. apply in_flat_map in H as (n & Hn & H).
  destruct (n <? k) eqn:E; [contradiction H|]. apply Z.ltb_ge in E.
  apply filter_In in H as [H P].
  assert (n' = n /\ k' = k) as [-> ->].
  { cbn [In] in H. destruct H as [H|[H|[]]]; injection H as <- <- _; auto. }
  apply andb_prop in P as [P P3]. apply andb_prop in P as [P1 P2].
  apply Z.leb_le in P1.
  cbn [In] in Hn. repeat split; try lia; try assumption.
Qed.

(** The digits the program prints for a positive integer below [2^53] are
    digits of that integer: [s * 10^(n-k)] is the number itself. *)
Lemma shortest_spec (x d : Z) (fuel : nat) :
  0 < x < 2 ^ 53 -> 0 <= d ->
  forall k n' k' s,
    1 <= k ->
    shortest x d fuel k = (n', k', s) ->
    n' <= d + 1 /\ k' <= n' /\ 0 < s /\ s * 10 ^ (n' - k') = x.
Proof.
  intros Hx Hd. induction fuel as [|fuel IH]; intros k n' k' s Hk; cbn [shortest].
  - intros H; injection H as <- <- <-. rewrite Z.sub_diag. lia.
  - destruct (closest x (candidates x d k)) as [[[n0 k0] s0]|] eqn:E.
    + intros H; injection H as <- <- <-.
      apply closest_In, candidates_spec in E as (H1 & -> & H3 & H4 & H5).
      assert (0 < 10 ^ (k - 1)) by (apply Z.pow_pos_nonneg; lia).
      assert (0 < 10 ^ (n0 - k)) by (apply Z.pow_pos_nonneg; lia).
      repeat split; try lia.
      apply roundToDouble_small; [nia | lia | exact H5].
    + apply IH. lia.
Qed.

Lemma length_string_of_uint (d : Decimal.uint) :
  Z.of_nat (String.length (DecimalString.NilEmpty.string_of_uint d))
  = Z.of_N (DecimalPos.Unsigned.usize d).
Proof.
  induction d;
    cbn [DecimalString.NilEmpty.string_of_uint String.length DecimalPos.Unsigned.usize];
    [reflexivity | ..]; rewrite Nat2Z.inj_succ, N2Z.inj_succ; lia.
Qed.

(** The digits of a positive number start with a digit that is not zero. *)
Lemma to_uint_head (p : positive) :
  Pos.to_uint p <> Decimal.Nil /\ DecimalPos.Unsigned.hd (Pos.to_uint p) <> 0%N.
Proof.
  split; [apply DecimalPos.Unsigned.to_uint_nonnil|].
  pose proof (DecimalPos.Unsigned.to_of (Pos.to_uint p)) as H.
  rewrite DecimalPos.Unsigned.of_to in H. cbn [N.to_uint] in H.
  pose proof (DecimalPos.Unsigned.to_uint_nonzero p) as Hz.
  destruct (Pos.to_uint p) as [|d|d|d|d|d|d|d|d|d|d] eqn:E; cbn; try discriminate.
  exfalso. unfold Decimal.unorm in H. cbn [Decimal.nzhead] in H.
  pose proof (DecimalFacts.nb_digits_nzhead d) as Hn.
  destruct (Decimal.nzhead d) eqn:En.
  - congruence.
  - rewrite <- H in Hn. cbn [Decimal.nb_digits] in Hn. lia.
  - rewrite <- H in Hn. cbn [Decimal.nb_digits] in Hn. lia.
  - rewrite <- H in Hn. cbn [Decimal.nb_digits] in Hn. lia.
  - rewrite <- H in Hn. cbn [Decimal.nb_digits] in Hn. lia.
  - rewrite <- H in Hn. cbn [Decimal.nb_digits] in Hn. lia.
  - rewrite <- H in Hn. cbn [Decimal.nb_digits] in Hn. lia.
  - rewrite <- H in Hn. cbn [Decimal.nb_digits] in Hn. lia.
  - rewrite <- H in Hn. cbn [Decimal.nb_digits] in Hn. lia.
  - rewrite <- H in Hn. cbn [Decimal.nb_digits] in Hn. lia.
  - rewrite <- H in Hn. cbn [Decimal.nb_digits] in Hn. lia.
Qed.

(** A number of [n] digits is at least [10^(n-1)]. *)
Lemma decimal_length (x : Z) :
  0 < x -> 10 ^ (Z.of_nat (String.length (decimal x)) - 1) <= x.
Proof.
  intros Hx. unfold decimal.
  destruct (Z.to_N x) as [|p] eqn:E; [lia|]. cbn [N.to_uint].
  destruct (to_uint_head p) as [Hnil Hhd].
  assert (x = Z.of_N (Pos.of_uint (Pos.to_uint p))) as ->.
  { rewrite DecimalPos.Unsigned.of_to, <- E, Z2N.id; lia. }
  unfold DecimalString.NilZero.string_of_uint.
  rewrite (of_uint_head (Pos.to_uint p)).
  destruct (Pos.to_uint p) as [|d|d|d|d|d|d|d|d|d|d]; try congruence;
    cbn [DecimalPos.Unsigned.hd] in Hhd; try congruence;
    cbn [DecimalString.NilEmpty.string_of_uint String.length
         DecimalPos.Unsigned.hd DecimalPos.Unsigned.tl];
    rewrite Nat2Z.inj_succ, length_string_of_uint;
    replace (Z.succ (Z.of_N (DecimalPos.Unsigned.usize d)) - 1)
      with (Z.of_N (DecimalPos.Unsigned.usize d)) by lia;
    rewrite N2Z.inj_add, N2Z.inj_mul, N2Z.inj_pow;
    change (Z.of_N 10) with 10;
    assert (0 < 10 ^ Z.of_N (DecimalPos.Unsigned.usize d))
      by (apply Z.pow_pos_nonneg; lia);
    lia.
Qed.

(** What the program prints for a positive revision below [2^53] reads back
    as that revision. *)
Lemma parseInt_toStringPositive (x : Z) :
  0 < x < 2 ^ 53 -> parseInt (toStringPositive x) = Num x.
Proof.
  intros Hx. unfold toStringPositive. cbv zeta.
  set (d := Z.of_nat (String.length (decimal x))).
  assert (d <= 20) as Hd.
  { pose proof (decimal_length x ltac:(lia)) as H. fold d in H.
    destruct (Z.le_gt_cases d 20) as [|Hgt]; [assumption|exfalso].
    assert (10 ^ 20 <= 10 ^ (d - 1)) by (apply Z.pow_le_mono_r; lia).
    assert (2 ^ 53 < 10 ^ 20) by reflexivity. lia. }
  destruct (shortest x d 17 1) as [[n k] s] eqn:E.
  apply shortest_spec in E as (H1 & H2 & H3 & H4); [|lia|unfold d; lia|lia].
  replace (n <=? 21) with true by (symmetry; apply Z.leb_le; lia).
  unfold decimal.
  destruct (Z.to_N s) as [|p] eqn:Ep; [lia|]. cbn [N.to_uint].
  destruct (to_uint_head p) as [Hnil _].
  unfold DecimalString.NilZero.string_of_uint.
  replace (match Pos.to_uint p with
           | Decimal.Nil => "0"%string
           | _ => DecimalString.NilEmpty.string_of_uint (Pos.to_uint p)
           end) with (DecimalString.NilEmpty.string_of_uint (Pos.to_uint p))
    by (destruct (Pos.to_uint p); [congruence | reflexivity ..]).
  rewrite parseInt_decimal by assumption.
  rewrite DecimalPos.Unsigned.of_to, <- Ep, Z2N.id, Z2Nat.id by lia.
  rewrite H4. replace (x =? 0) with false by (symmetry; apply Z.eqb_neq; lia).
  unfold roundToDouble. rewrite Z.abs_eq by lia.
  now replace (x <? 2 ^ 53) with true by (symmetry; apply Z.ltb_lt; lia).
Qed.

Lemma parseInt_toString (n : Z) :
  0 <= n < 2 ^ 53 -> parseInt (JsNumber.toString (Num n)) = Num n.
Proof.
  intros Hn. unfold JsNumber.toString.
  destruct (n =? 0) eqn:E.
  - apply Z.eqb_eq in E. subst n. reflexivity.
  - apply Z.eqb_neq in E.
    replace (n <? 0) with false by (symmetry; apply Z.ltb_ge; lia).
    apply parseInt_toStringPositive. lia.
Qed.

(** X16.  The revision a run writes into a tag name is the revision a later
    run reads from it: when the [revision] group of the matching tag holds the
    text of the revision [n], below [2^53], the next revision is [n + 1]. *)
Theorem revision_round_trip (n : Z) (mt : MatchingTag)
  (g : list (string * option string)) :
  0 <= n < 2 ^ 53 ->
  groups (match_ mt) = Some g ->
  get "revision" g = Some (JsNumber.toString (Num n)) ->
  tagRevision (Some mt) = Num (n + 1).
Proof.
  intros Hn Hg Hr. unfold tagRevision. rewrite Hg, Hr.
  unfold parseIntValue. rewrite parseInt_toString by assumption.
  cbn [addOne]. apply Revision.roundToDouble_exact. lia.
Qed.

(** X15.  The revision group of the derived pattern, [[0-9]+], captures a
    string of decimal digits. For every such string, leading zeros included,
    whose value is below [2^53], the next revision is that value plus one. *)
Theorem revision_of_digits (d : Decimal.uint) (mt : MatchingTag)
  (g : list (string * option string)) :
  d <> Decimal.Nil ->
  (N.of_uint d < 2 ^ 53)%N ->
  groups (match_ mt) = Some g ->
  get "revision" g = Some (DecimalString.NilEmpty.string_of_uint d) ->
  tagRevision (Some mt) = Num (Z.of_N (N.of_uint d) + 1).
Proof.
  intros Hd Hlt Hg Hr. unfold tagRevision. rewrite Hg, Hr.
  unfold parseIntValue.
  pose proof (parseInt_decimal d 0 Hd) as H. cbn [zeros] in H.
  rewrite StringFacts.append_nil_r in H. rewrite H.
  change (10 ^ Z.of_nat 0) with 1. rewrite Z.mul_1_r.
  change (Pos.of_uint d) with (N.of_uint d).
  assert (Z.of_N (N.of_uint d) < 2 ^ 53) as Hz.
  { change (2 ^ 53) with (Z.of_N (2 ^ 53)). lia. }
  destruct (Z.of_N (N.of_uint d) =? 0) eqn:E.
  - apply Z.eqb_eq in E. rewrite E. reflexivity.
  - rewrite (Revision.roundToDouble_exact (Z.of_N (N.of_uint d))) by lia.
    cbn [addOne]. apply Revision.roundToDouble_exact. lia.
Qed.

(** After [v1.0.0-007] comes the eighth revision. *)
Lemma revision_of_digits_witness :
  tagRevision
    (Some (mkMatchingTag "v1.0.0-007" "def456"
             (RegExp.mkMatch 0 "v1.0.0-007" (Some [("revision", Some "007")]))))
  = Num 8.
Proof.
  apply (revision_of_digits (Decimal.D0 (Decimal.D0 (Decimal.D7 Decimal.Nil))) _
           [("revision", Some "007")]);
    [discriminate | reflexivity | reflexivity | reflexivity].
Defined.

(** The forty-first revision. *)
Lemma revision_round_trip_witness :
  tagRevision
    (Some (mkMatchingTag "v1.0.0-41" "def456"
             (RegExp.mkMatch 0 "v1.0.0-41" (Some [("revision", Some "41")]))))
  = Num 42.
Proof.
  apply (revision_round_trip 41 _ [("revision", Some "41")]);
    [lia | reflexivity | vm_compute; reflexivity].
Defined.

End Numbers.

(* ------------------------------------------------------------------------- *)
(** ** The names of ordinary formats *)

Module Templates.
Import JsString JsNumber Main StringFacts Text.
Local Open Scope string_scope.
#[local] Arguments startsWith : simpl never.

Lemma free_append (c : ascii) (a b : string) :
  free c (a ++ b) = free c a && free c b.
Proof.
  induction a as [|d a IH]; cbn [append free]; [reflexivity|].
  now rewrite IH, andb_assoc.
Qed.

(** A replacement text without a dollar sign stands for itself. *)
Lemma GetSubstitution_plain (matched before after x : string) :
  free "$" x = true -> GetSubstitution matched before after x = x.
Proof.
  induction x as [|c x IH]; [reflexivity|].
  cbn [free]. intros H. apply andb_prop in H as [Hc Hx].
  specialize (IH Hx).
  destruct c as [[] [] [] [] [] [] [] []]; try discriminate Hc;
    cbn [GetSubstitution]; now rewrite IH.
Qed.

(** With no brace before it, an occurrence of a placeholder is the first. *)
Lemma splitAtFirst_brace (rest before after : string) :
  free "{" before = true ->
  splitAtFirst (String "{" rest) (before ++ String "{" rest ++ after)
  = Some (before, after).
Proof.
  intros H. induction before as [|c before IH].
  - cbn [append].
    assert (startsWith (String "{" rest) (String "{" (rest ++ after)) = true) as E
      by (apply startsWith_spec; now exists after).
    cbn [splitAtFirst]. rewrite E. do 2 f_equal.
    apply (drop_append (String "{" rest) after).
  - cbn [free] in H. apply andb_prop in H as [Hc Hb].
    specialize (IH Hb). cbn [append] in IH |- *. cbn [splitAtFirst].
    rewrite Placeholders.startsWith_cons.
    apply negb_true_iff in Hc. rewrite Hc. cbn [andb]. now rewrite IH.
Qed.

Lemma splitAtFirst_free (rest s : string) :
  free "{" s = true -> splitAtFirst (String "{" rest) s = None.
Proof.
  induction s as [|c s IH]; intros H.
  - reflexivity.
  - cbn [free] in H. apply andb_prop in H as [Hc Hs].
    cbn [splitAtFirst]. rewrite Placeholders.startsWith_cons.
    apply negb_true_iff in Hc. rewrite Hc. cbn [andb]. now rewrite (IH Hs).
Qed.

Lemma replace_brace (rest before after x : string) :
  free "{" before = true -> free "$" x = true ->
  replace (before ++ String "{" rest ++ after) (String "{" rest) x
  = before ++ x ++ after.
Proof.
  intros Hb Hx. unfold replace.
  now rewrite (splitAtFirst_brace rest before after Hb), GetSubstitution_plain.
Qed.

Lemma replace_free (rest s x : string) :
  free "{" s = true -> replace s (String "{" rest) x = s.
Proof. intros H. unfold replace. now rewrite splitAtFirst_free. Qed.

(** *** The text of a revision holds no dollar sign *)

Lemma free_string_of_uint (d : Decimal.uint) :
  free "$" (DecimalString.NilEmpty.string_of_uint d) = true.
Proof. induction d; cbn [DecimalString.NilEmpty.string_of_uint free]; auto. Qed.

Lemma free_decimal (z : Z) : free "$" (decimal z) = true.
Proof.
  unfold decimal, DecimalString.NilZero.string_of_uint.
  destruct (N.to_uint (Z.to_N z)) eqn:E; try reflexivity;
    rewrite <- E; apply free_string_of_uint.
Qed.

Lemma free_zeros (n : nat) : free "$" (zeros n) = true.
Proof. induction n; cbn [zeros free]; auto. Qed.

Lemma free_toString (x : Number) : free "$" (JsNumber.toString x) = true.
Proof.
  assert (forall z, free "$" (toStringPositive z) = true) as positive.
  { intros z. unfold toStringPositive. cbv zeta.
    destruct (shortest z _ 17 1) as [[n k] s].
    destruct (n <=? 21)%Z.
    - now rewrite free_append, free_decimal, free_zeros.
    - pose proof (free_decimal s) as Hs.
      destruct (decimal s) as [|c rest]; [reflexivity|].
      cbn [free] in Hs. apply andb_prop in Hs as [Hc Hrest].
      cbn [append free]. rewrite Hc. cbn [andb].
      rewrite free_append. cbn [free]. rewrite free_decimal.
      destruct (k =? 1)%Z; cbn [free]; rewrite ?Hrest; reflexivity. }
  destruct x as [| [] | | z]; try reflexivity.
  unfold JsNumber.toString.
  destruct (z =? 0)%Z; [reflexivity|].
  destruct (z <? 0)%Z; [|apply positive].
  cbn [append free]. apply positive.
Qed.

(** *** The theorem *)

(** X17.  For a format in which [{version}] is the first brace, and a version
    without brace or dollar sign: the tag name is the format with the version
    in the place of [{version}], and the pattern is that text in lower case
    between [^] and [$]. When the next brace of the format is [{revision}],
    the name has the revision in its place, and the pattern a named group of
    digits. *)
Theorem names_of_plain_formats (a b c version : string) (revision : Number) :
  free "{" a = true -> free "{" b = true ->
  free "{" version = true -> free "$" version = true ->
  (tagName (a ++ "{version}" ++ b) version revision = a ++ version ++ b
   /\ tagPattern (a ++ "{version}" ++ b) version
      = "^" ++ toLowerCase (a ++ version ++ b) ++ "$")
  /\ (tagName (a ++ "{version}" ++ b ++ "{revision}" ++ c) version revision
      = a ++ version ++ b ++ JsNumber.toString revision ++ c
      /\ tagPattern (a ++ "{version}" ++ b ++ "{revision}" ++ c) version
         = "^" ++ toLowerCase (a ++ version ++ b) ++ "(?<revision>[0-9]+)"
           ++ toLowerCase c ++ "$").
Proof.
  intros Ha Hb Hv Hd.
  assert (free "{" (a ++ version ++ b) = true) as Havb
    by (rewrite !free_append, Ha, Hv, Hb; reflexivity).
  assert (free "{" ("^" ++ a ++ version ++ b) = true) as Hcavb
    by (cbn [append free]; exact Havb).
  unfold tagName, tagPattern. repeat split.
  - rewrite (replace_brace "version}" a b version Ha Hd).
    now apply replace_free.
  - replace ("^" ++ (a ++ "{version}" ++ b) ++ "$")
      with (("^" ++ a) ++ "{version}" ++ (b ++ "$"))
      by (now rewrite !append_assoc).
    rewrite (replace_brace "version}" ("^" ++ a) (b ++ "$") version Ha Hd).
    rewrite replace_free.
    + rewrite ?append_assoc, ?toLowerCase_append.
      change (toLowerCase "^") with "^". change (toLowerCase "$") with "$".
      now rewrite ?append_assoc.
    + rewrite !free_append, Hv, Hb. cbn [append free]. now rewrite Ha.
  - rewrite (replace_brace "version}" a (b ++ "{revision}" ++ c) version Ha Hd).
    replace (a ++ version ++ b ++ "{revision}" ++ c)
      with ((a ++ version ++ b) ++ "{revision}" ++ c)
      by (now rewrite !append_assoc).
    rewrite (replace_brace "revision}" (a ++ version ++ b) c (JsNumber.toString revision)
               Havb (free_toString revision)).
    now rewrite !append_assoc.
  - replace ("^" ++ (a ++ "{version}" ++ b ++ "{revision}" ++ c) ++ "$")
      with (("^" ++ a) ++ "{version}" ++ (b ++ "{revision}" ++ c ++ "$"))
      by (now rewrite !append_assoc).
    rewrite (replace_brace "version}" ("^" ++ a) (b ++ "{revision}" ++ c ++ "$")
               version Ha Hd).
    replace (("^" ++ a) ++ version ++ b ++ "{revision}" ++ c ++ "$")
      with (("^" ++ a ++ version ++ b) ++ "{revision}" ++ (c ++ "$"))
      by (now rewrite !append_assoc).
    rewrite (replace_brace "revision}" ("^" ++ a ++ version ++ b) (c ++ "$")
               "(?<revision>[0-9]+)" Hcavb eq_refl).
    rewrite ?append_assoc, ?toLowerCase_append.
    change (toLowerCase "^") with "^". change (toLowerCase "$") with "$".
    change (toLowerCase "(?<revision>[0-9]+)") with "(?<revision>[0-9]+)".
    now rewrite ?append_assoc.
Qed.

(** The format of the README. *)
Lemma names_of_plain_formats_witness :
  tagName ("v" ++ "{version}" ++ "-" ++ "{revision}" ++ "") "1.2.0" (Num 7) = "v1.2.0-7"
  /\ tagPattern ("v" ++ "{version}" ++ "-" ++ "{revision}" ++ "") "1.2.0"
     = "^v1.2.0-(?<revision>[0-9]+)$".
Proof.
  destruct (names_of_plain_formats "v" "-" "" "1.2.0" (Num 7)
              eq_refl eq_refl eq_refl eq_refl) as [_ [H1 H2]].
  split; [rewrite H1 | rewrite H2]; vm_compute; reflexivity.
Defined.

End Templates.

(* ------------------------------------------------------------------------- *)
(** ** More about the changelog *)

Module Changelog.
Import JsString JsNumber GitHub Effects Main Trace Paths StringFacts.
Local Open Scope string_scope.

Ltac reduce := Run.reduce.

(** The first line survives [trim] as it starts: with the star. *)
Lemma trim_star (s : string) : exists text, trim (String "*" s) = String "*" text.
Proof. exists (trimEnd s). reflexivity. Qed.

Lemma join_cons (sep x : string) (l : list string) :
  exists tail, join sep (x :: l) = x ++ tail.
Proof.
  destruct l as [|y l]; cbn [join String.concat].
  - exists "". now rewrite append_nil_r.
  - eexists. reflexivity.
Qed.

(** X18.  A comparison that lists commits, every one of them [null], gives the
    empty changelog, not ["Initial tag"]; with a commit that is not [null] the
    changelog starts with the star of its first line. *)
Theorem changelog_of_listed_commits (git : Client) (env : Env) (from to : option string)
  (r : Repo) (base head : string) (c : option CommitItem)
  (commits : list (option CommitItem)) :
  nonEmpty from = Some base -> nonEmpty to = Some head ->
  context_repo env = inr r ->
  compareCommits git r base head = inr (Some (c :: commits)) ->
  exists message,
    getTagMessage git env from to
    = ([Call (CompareCommits r base head)], Normal message)
    /\ (present (c :: commits) = [] -> message = "")
    /\ (present (c :: commits) <> [] -> exists text, message = String "*" text).
Proof.
  intros Hf Ht Hr Hc. rewrite Run.getTagMessage_cases, Hf, Ht, Hr, Hc.
  eexists. split; [reflexivity|]. unfold render. split.
  - intros ->. reflexivity.
  - destruct (present (c :: commits)) as [|first rest]; [congruence|]. intros _.
    cbn [map]. destruct (join_cons nl (changelogLine first) (map changelogLine rest))
      as [tail ->].
    unfold changelogLine at 1. cbn [append]. apply trim_star.
Qed.

(** Two commits without an account behind them, reported as [null]. *)
Lemma changelog_of_listed_commits_witness :
  @getTagMessage (Sample.client [] [None; None])
    (Sample.env "v{version}" "1.0.0" [] [] (Some "abc123"))
    (Some "v0.9.0") (Some "abc123")
  = ([Call (CompareCommits (mkRepo "snapserv" "demo") "v0.9.0" "abc123")], Normal "").
Proof.
  destruct (changelog_of_listed_commits (Sample.client [] [None; None])
              (Sample.env "v{version}" "1.0.0" [] [] (Some "abc123"))
              (Some "v0.9.0") (Some "abc123") (mkRepo "snapserv" "demo")
              "v0.9.0" "abc123" None [None] eq_refl eq_refl eq_refl eq_refl)
    as (message & H & Hnull & _).
  rewrite H, (Hnull eq_refl). reflexivity.
Defined.

Lemma legacy_getTagMessage (git : Client) (env : Env) (from to : option string) :
  Legacy.getTagMessage git env from to = getTagMessage git env from to.
Proof.
  unfold Legacy.getTagMessage, getTagMessage.
  destruct (nonEmpty from) as [base|]; [|reflexivity].
  destruct (nonEmpty to) as [head|]; [|reflexivity].
  destruct (context_repo env) as [e|r]; [reflexivity|]. reduce.
  destruct (compareCommits git r base head) as [e|[[|c commits]|]]; try reflexivity.
  reduce. do 2 f_equal.
  rewrite (Run.fold_appendCommit (c :: commits) nl),
          (Run.fold_appendCommit (c :: commits) "").
  cbn [append]. unfold nl at 1. cbn [append].
  now apply trim_leading_whitespace.
Qed.

(** X20.  The earlier version starts the message with a line feed, where
    [main.js] starts with the empty string: the two send the same request
    and give the same result for every input. *)
Theorem legacy_changelog_agrees (git : Client) (env : Env) (from to : option string) :
  fst (Legacy.getTagMessage git env from to) = fst (getTagMessage git env from to)
  /\ snd (Legacy.getTagMessage git env from to) = snd (getTagMessage git env from to).
Proof. now rewrite legacy_getTagMessage. Qed.

(** X19.  The search in a list made of two is the search in the first and,
    when that finds nothing, the search in the second: what is listed after a
    matching tag has no part in the result. *)
Theorem search_of_appended_lists {engine : RegExp.Engine} (a b : list TagItem)
  (re : RegExp.RegExp) :
  searchMatchingTag (a ++ b) re
  = match searchMatchingTag a re with
    | Some mt => Some mt
    | None => searchMatchingTag b re
    end.
Proof.
  induction a as [|tag a IH]; cbn [app searchMatchingTag]; [reflexivity|].
  destruct (RegExp.exec re (toLowerCase (trim (GitHub.name tag)))); [reflexivity | exact IH].
Qed.

End Changelog.

(* ------------------------------------------------------------------------- *)
(** ** The run of the earlier version *)

Module LegacyFacts.
Import JsString JsNumber GitHub Effects Main Trace Paths Stages LegacyStages.
Import Outcomes(main_passed, publish_outcome).
Import RegExp(Engine, Lawful, groups_need_syntax, RegExp, newRegExp, exec, RegExpExecArray,
  groups, get).
Import SemVer(Parser).
Import LegacyEffects(Debug, Core).
Local Open Scope string_scope.

(** Unfold the plumbing of the earlier version and nothing else. *)
Ltac reduce :=
  cbn [LegacyEffects.bind LegacyEffects.lift LegacyEffects.ret LegacyEffects.throw
       LegacyEffects.returnIf LegacyEffects.emit LegacyEffects.info LegacyEffects.debug
       LegacyEffects.setOutput LegacyEffects.setFailed LegacyEffects.call
       LegacyEffects.returned LegacyEffects.require LegacyEffects.core
       Effects.bind Effects.lift Effects.ret Effects.throw Effects.emit Effects.call
       Effects.tryCatch nonEmpty negb fst snd app map].

(** *** Requests, step by step *)

Section Sending.
Variable P : Request -> Prop.

Lemma Sends_bind {A B : Type} (m : LegacyEffects.Action A)
  (k : A -> LegacyEffects.Action B) :
  Sends P m -> (forall a, snd m = Normal a -> Sends P (k a)) ->
  Sends P (LegacyEffects.bind m k).
Proof.
  intros Hm Hk rq. destruct m as [tr [a| |e]]; cbn [LegacyEffects.bind].
  - specialize (Hk a eq_refl). destruct (k a) as [tr' c]. cbn [fst].
    intros H. apply in_app_iff in H as [H|H]; [now apply Hm | now apply Hk].
  - apply Hm.
  - apply Hm.
Qed.

Lemma Sends_silent {A : Type} (m : LegacyEffects.Action A) :
  (forall rq, ~ In (Core (Call rq)) (fst m)) -> Sends P m.
Proof. intros H rq Hin. now elim (H rq). Qed.

Lemma Sends_lift {A : Type} (r : JsError.Error + A) : Sends P (LegacyEffects.lift r).
Proof. apply Sends_silent. destruct r; intros rq []. Qed.

Lemma Sends_ret {A : Type} (a : A) : Sends P (LegacyEffects.ret a).
Proof. apply Sends_silent. intros rq []. Qed.

Lemma Sends_debug (msg : string) : Sends P (LegacyEffects.debug msg).
Proof. apply Sends_silent. intros rq [H|[]]. discriminate H. Qed.

Lemma Sends_info (msg : string) : Sends P (LegacyEffects.info msg).
Proof. apply Sends_silent. intros rq [H|[]]. discriminate H. Qed.

Lemma Sends_setOutput (k : string) (v : Value) : Sends P (LegacyEffects.setOutput k v).
Proof. apply Sends_silent. intros rq [H|[]]. discriminate H. Qed.

Lemma Sends_setFailed (f : Failure) : Sends P (LegacyEffects.setFailed f).
Proof. apply Sends_silent. intros rq [H|[]]. discriminate H. Qed.

Lemma Sends_returnIf {A : Type} (c : bool) (last : LegacyEffects.Action unit)
  (k : LegacyEffects.Action A) :
  Sends P last -> (c = false -> Sends P k) ->
  Sends P (LegacyEffects.returnIf c last k).
Proof.
  intros Hl Hk. unfold LegacyEffects.returnIf. destruct c; [|now apply Hk].
  apply Sends_bind; [exact Hl|]. intros _ _ rq [].
Qed.

Lemma Sends_require {A : Type} (v : option A) (last : LegacyEffects.Action unit) :
  Sends P last -> Sends P (LegacyEffects.require v last).
Proof.
  intros Hl. destruct v; [apply Sends_ret|].
  apply Sends_bind; [exact Hl|]. intros _ _ rq [].
Qed.

Lemma Sends_call {A : Type} (rq : Request) (answer : JsError.Error + A) :
  P rq -> Sends P (LegacyEffects.call rq answer).
Proof.
  intros H rq'. unfold LegacyEffects.call, LegacyEffects.emit.
  destruct answer; cbn; intros [E|[]]; injection E as <-; exact H.
Qed.

Lemma Sends_core {A : Type} (m : Effects.Action A) :
  CoreSends P m -> Sends P (LegacyEffects.core m).
Proof.
  intros H rq Hin. unfold LegacyEffects.core in Hin. cbn [fst] in Hin.
  apply in_map_iff in Hin as (ev & E & Hin). injection E as ->. now apply H.
Qed.

Lemma Sends_tryCatch {A : Type} (body : LegacyEffects.Action A)
  (handler : JsError.Error -> LegacyEffects.Action A) :
  Sends P body -> (forall e, Sends P (handler e)) ->
  Sends P (LegacyEffects.tryCatch body handler).
Proof.
  intros Hb Hh rq. destruct body as [tr [a| |e]]; cbn [LegacyEffects.tryCatch];
    try apply Hb.
  specialize (Hh e). destruct (handler e) as [tr' c]. cbn [fst].
  intros H. apply in_app_iff in H as [H|H]; [now apply Hb | now apply Hh].
Qed.

End Sending.

Lemma Sends_returned (P : Request -> Prop) {A : Type} :
  Sends P (@LegacyEffects.returned A).
Proof. intros rq []. Qed.

Lemma getRepoTags_sends (P : Request -> Prop) (git : Client) (env : Env) :
  (forall r n, P (ListTags r n)) -> CoreSends P (getRepoTags git env).
Proof.
  intros H rq. unfold getRepoTags.
  destruct (context_repo env) as [e|r]; [intros []|]. Run.reduce.
  destruct (listTags git r 100); cbn; intros [E|[]]; injection E as <-; apply H.
Qed.

Lemma getTagMessage_sends (P : Request -> Prop) (git : Client) (env : Env)
  (from to : option string) :
  (forall r base head, P (CompareCommits r base head)) ->
  CoreSends P (Legacy.getTagMessage git env from to).
Proof.
  intros H rq. unfold Legacy.getTagMessage.
  destruct (nonEmpty from) as [base|]; [|intros []].
  destruct (nonEmpty to) as [head|]; [|intros []].
  destruct (context_repo env) as [e|r]; [intros []|]. Run.reduce.
  destruct (compareCommits git r base head) as [e|[[|c commits]|]]; cbn;
    intros [E|[]]; injection E as <-; apply H.
Qed.

(** Walk along the program text. *)
Ltac sends :=
  repeat first
    [ match goal with
      | |- Sends _ (LegacyEffects.call _ _) => apply Sends_call
      | |- Sends _ (LegacyEffects.core _) => apply Sends_core
      end
    | apply Sends_bind; [ | intros ? ? ]
    | apply Sends_lift | apply Sends_ret | apply Sends_debug | apply Sends_info
    | apply Sends_setOutput | apply Sends_setFailed | apply Sends_returned
    | apply Sends_returnIf; [ | intros ? ]
    | apply Sends_require
    | match goal with
      | |- Sends _ (match ?x with Some _ => _ | None => _ end) => destruct x eqn:?
      end ].

(** *** What the steps before a request tell *)

Lemma lift_Normal {A : Type} (r : JsError.Error + A) (a : A) :
  snd (LegacyEffects.lift r) = Normal a -> r = inr a.
Proof. destruct r; cbn; [discriminate | now intros [= ->]]. Qed.

Lemma require_Normal {A : Type} (v : option A) (last : LegacyEffects.Action unit) (a : A) :
  snd (LegacyEffects.require v last) = Normal a -> v = Some a.
Proof.
  destruct v; cbn; [now intros [= ->]|].
  destruct last as [tr [[]| |e]]; cbn; discriminate.
Qed.

Lemma getRepoTags_Normal (git : Client) (env : Env) (tags : list TagItem) :
  snd (getRepoTags git env) = Normal tags ->
  exists r, context_repo env = inr r /\ listTags git r 100 = inr tags.
Proof.
  unfold getRepoTags. destruct (context_repo env) as [e|r]; [discriminate|]. Run.reduce.
  destruct (listTags git r 100) as [e|tags'] eqn:E; cbn; [discriminate|].
  intros [= ->]. now exists r.
Qed.

Lemma returnIf_Normal (cond : bool) (last : LegacyEffects.Action unit) (a : unit) :
  snd (LegacyEffects.returnIf cond last (LegacyEffects.ret tt)) = Normal a ->
  cond = false.
Proof.
  unfold LegacyEffects.returnIf. destruct cond; [|reflexivity].
  destruct last as [tr [[]| |e]]; cbn; discriminate.
Qed.

Lemma legacy_revision (matchingTag : option MatchingTag) (n : Number) :
  Legacy.tagRevision matchingTag = inr n -> tagRevision matchingTag = n.
Proof.
  unfold Legacy.tagRevision, tagRevision. destruct matchingTag as [mt|].
  - destruct (groups (match_ mt)); [now intros [= ->] | discriminate].
  - now intros [= ->].
Qed.

Lemma message_alone (tag message : string) : message <> tag ++ nl ++ nl ++ message.
Proof.
  intros H. apply (f_equal String.length) in H.
  rewrite !StringFacts.length_append in H. cbn in H. lia.
Qed.

Section Program.
Context {engine : Engine}.

(** X22.  The earlier version creates no release, and the message of the tag
    object it requests is the changelog alone: what [getTagMessage] returned
    to this run, for the client of the run, from the first of the tags the
    server listed to the commit of the context, without the tag name and the
    empty line that [main.js] puts in front. *)
Theorem legacy_run_sends_no_release (env : Env) (rq : Request) :
  In (Core (Call rq)) (LegacyRun.main env) ->
  stage rq <= 3
  /\ forall r tag message object type,
       rq = CreateTag r tag message object type ->
       exists git tags,
         newGitHub env (getInput env "api_token") = inr git /\
         context_repo env = inr r /\
         listTags git r 100 = inr tags /\
         nonEmpty (context_sha env) = Some object /\
         snd (Legacy.getTagMessage git env (changelogFrom tags) (Some object))
         = Normal message /\
         message <> tag ++ nl ++ nl ++ message.
Proof.
  revert rq.
  change (Sends (fun rq =>
                   stage rq <= 3
                   /\ forall r tag message object type,
                        rq = CreateTag r tag message object type ->
                        exists git tags,
                          newGitHub env (getInput env "api_token") = inr git /\
                          context_repo env = inr r /\
                          listTags git r 100 = inr tags /\
                          nonEmpty (context_sha env) = Some object /\
                          snd (Legacy.getTagMessage git env (changelogFrom tags)
                                 (Some object))
                          = Normal message /\
                          message <> tag ++ nl ++ nl ++ message)
            (LegacyRun.run env)).
  unfold LegacyRun.run. cbv zeta.
  apply Sends_tryCatch; [|intros e; sends].
  sends.
  - apply getRepoTags_sends. intros r n. cbn [stage].
    split; [lia | intros; discriminate].
  - apply getTagMessage_sends. intros r base head. cbn [stage].
    split; [lia | intros; discriminate].
  - cbn [stage]. split; [lia|].
    intros r tag message object type E. injection E as <- <- <- <- <-.
    repeat match goal with
           | H : snd (LegacyEffects.lift _) = Normal _ |- _ => apply lift_Normal in H
           | H : snd (LegacyEffects.require _ _) = Normal _ |- _ =>
               apply require_Normal in H
           | H : snd (LegacyEffects.core (getRepoTags _ _)) = Normal _ |- _ =>
               apply getRepoTags_Normal in H as (? & ? & ?)
           end.
    match goal with
    | H : context_repo env = inr ?r1, H' : context_repo env = inr ?r2 |- _ =>
        rewrite H in H'; injection H' as <-
    end.
    match goal with
    | H : snd (LegacyEffects.core (Legacy.getTagMessage ?git env (changelogFrom ?tags) _))
          = _ |- _ =>
        exists git, tags; unfold LegacyEffects.core in H; cbn [snd] in H
    end.
    auto 10 using message_alone.
  - cbn [stage]. split; [lia | intros; discriminate].
Qed.

End Program.

Section Versions.
Context {engine : Engine} {semver : Parser}.

(** X24.  Every tag object the earlier version requests, [main.js] requests
    too on the same input: with the same name, at the same commit, and with
    the name and an empty line in front of the message. *)
Theorem legacy_tags_are_created (env : Env) (r : Repo)
  (tag message object type : string) :
  In (Core (Call (CreateTag r tag message object type))) (LegacyRun.main env) ->
  In (Call (CreateTag r tag (tag ++ nl ++ nl ++ message) object type)) (main env).
Proof.
  revert r tag message object type.
  assert (Sends (fun rq =>
                   forall r tag message object type,
                     rq = CreateTag r tag message object type ->
                     In (Call (CreateTag r tag (tag ++ nl ++ nl ++ message) object type))
                       (main env))
            (LegacyRun.run env)) as H.
  2:{ intros r tag message object type Hin. exact (H _ Hin _ _ _ _ _ eq_refl). }
  unfold LegacyRun.run. cbv zeta.
  apply Sends_tryCatch; [|intros e; sends; intros; discriminate].
  sends; try (intros; discriminate);
    try (apply getRepoTags_sends; intros; discriminate);
    try (apply getTagMessage_sends; intros; discriminate).
  all: intros r tag message object type E; injection E as <- <- <- <- <-.
  all: match goal with
       | H : context [searchMatchingTag ?tags ?re] |- _ =>
           destruct (searchMatchingTag tags re) eqn:Hsearch
       end.
  all: repeat match goal with
              | H : snd (LegacyEffects.lift _) = Normal _ |- _ => apply lift_Normal in H
              | H : snd (LegacyEffects.require _ _) = Normal _ |- _ =>
                  apply require_Normal in H
              | H : snd (LegacyEffects.core (getRepoTags _ _)) = Normal _ |- _ =>
                  apply getRepoTags_Normal in H as (? & ? & ?)
              | H : snd (LegacyEffects.returnIf _ _ _) = Normal _ |- _ =>
                  apply returnIf_Normal in H
              | H : negb _ = false |- _ => apply negb_false_iff in H
              end.
  all: match goal with
       | H : snd (LegacyEffects.core (Legacy.getTagMessage _ _ _ _)) = Normal _ |- _ =>
           unfold LegacyEffects.core in H; cbn [snd] in H;
           rewrite Changelog.legacy_getTagMessage in H; rename H into Hmessage
       end.
  all: match goal with
       | H : Legacy.tagRevision _ = inr _ |- _ => apply legacy_revision in H; subst
       end.
  all: match goal with
       | H : nonEmpty (match groups _ with Some _ => _ | None => _ end) = Some _ |- _ =>
           apply Run.nonEmpty_Some in H as [Hgroup Htruthy]
       end.
  all: match goal with
       | H : context_repo ?en = inr ?r1, H' : context_repo ?en = inr ?r2 |- _ =>
           rewrite H in H'; injection H' as <-
       end.
  all: match goal with
       | Hre : newRegExp (tagPattern _ ?version) "" = inr ?re,
         Hgit : newGitHub ?en _ = inr ?git,
         Hrepo : context_repo ?en = inr ?r,
         Htags : listTags ?git ?r 100 = inr ?tags,
         Hcur : nonEmpty (context_sha ?en) = Some ?current |- _ =>
           assert (Searched en version re git r tags) as Hs;
           [ split; [|auto 10];
             match goal with
             | H : exec _ _ = Some ?m |- _ =>
                 destruct (groups m) as [g|] eqn:Hg; [|discriminate Hgroup];
                 do 4 eexists; eauto 10
             end
           | rewrite (main_passed en version re git r tags current Hs);
             [ apply in_app_iff; right; right;
               rewrite (publish_outcome en _ _ _ _ _ _ _ Hrepo);
               right; apply in_app_iff; right; rewrite Hmessage;
               right; right; left;
               match goal with
               | H : searchMatchingTag _ _ = _ |- _ => rewrite H
               end; reflexivity
             | match goal with
               | H : searchMatchingTag _ _ = _ |- _ => rewrite H
               end; cbn [Unguarded]; first [split; assumption | exact I]
             | exact Hcur ] ]
       end.
Qed.

End Versions.

Section Groups.
Context {engine : Engine} {lawful : Lawful engine} {semver : Parser}.

(** X21.  Where the derived pattern holds no named group, as with every format
    without [{revision}] and an ordinary version, a matching tag at another
    commit makes the earlier version fail with a [TypeError], after the
    listing of tags: it reads [revision] of the [groups] that the match does
    not have. On the same input [main.js] goes on with the revision 1. *)
Theorem legacy_run_fails_on_match (env : Env) (version : string) (re : RegExp)
  (git : Client) (r : Repo) (tags : list TagItem) (mt : MatchingTag) :
  Searched env version re git r tags ->
  includes "(?<" (tagPattern (getInput env "tag_format") version) = false ->
  searchMatchingTag tags re = Some mt ->
  strictEq (sha mt) (context_sha env) = false ->
  LegacyRun.events (LegacyRun.main env)
  = [ SetOutput "version" (VString version);
      Call (ListTags r 100);
      SetFailed (Caught Legacy.noGroups) ]
  /\ In (Info ("Determined desired tag name: "
               ++ tagName (getInput env "tag_format") version (Num 1)))
       (main env).
Proof.
  intros Hs Hp Hmt Hsha.
  assert (groups (match_ mt) = None) as Hg.
  { destruct (Revision.searchMatchingTag_exec tags re mt Hmt) as (tag & _ & Hm).
    destruct Hs as (_ & _ & Hre & _).
    exact (groups_need_syntax _ _ _ _ _ Hre Hm Hp). }
  split.
  - destruct Hs as ((vre & contents & m & g & H1 & H2 & H3 & H4 & H5 & H6 & H7)
                    & Hz & Hre & Hgit & Hrepo & Htags).
    unfold LegacyRun.main, LegacyRun.run, getRepoTags; cbv zeta.
    rewrite H1; reduce. rewrite H2; reduce. rewrite H3; reduce. rewrite H4; reduce.
    rewrite H5, H6; reduce. rewrite H7; reduce.
    unfold allZeros in Hz; rewrite Hz; reduce.
    rewrite Hre; reduce. rewrite Hgit; reduce. rewrite Hrepo; reduce.
    rewrite Htags; reduce. rewrite Hmt; reduce. rewrite Hsha; reduce.
    unfold Legacy.tagRevision. rewrite Hg. reduce. reflexivity.
  - rewrite (Run.run_Searched env version re git r tags Hs); cbv zeta.
    rewrite Hmt, Hsha. unfold tagRevision. rewrite Hg.
    apply in_app_iff. right. left. reflexivity.
Qed.

End Groups.

(** *** Concrete runs of the earlier version *)

Ltac evaluate := vm_compute; reflexivity.
Ltac member := vm_compute; repeat (first [left; reflexivity | right]).

(** A repository with a tag already: the message is the changelog from that
    tag to the commit of the run. *)
Lemma legacy_run_sends_no_release_witness :
  exists git tags,
    newGitHub (Sample.env "v{version}" "1.0.0" [mkTag "v0.9.0" "def456"]
                 [Some (mkCommit "Fix parser" None)] (Some "abc123")) "token" = inr git /\
    listTags git (mkRepo "snapserv" "demo") 100 = inr tags /\
    tags = [mkTag "v0.9.0" "def456"] /\
    snd (Legacy.getTagMessage git
           (Sample.env "v{version}" "1.0.0" [mkTag "v0.9.0" "def456"]
              [Some (mkCommit "Fix parser" None)] (Some "abc123"))
           (Some "v0.9.0") (Some "abc123"))
    = Normal "* Fix parser".
Proof.
  edestruct (@legacy_run_sends_no_release Mini.engine
               (Sample.env "v{version}" "1.0.0" [mkTag "v0.9.0" "def456"]
                  [Some (mkCommit "Fix parser" None)] (Some "abc123"))
               (CreateTag (mkRepo "snapserv" "demo") "v1.0.0" "* Fix parser" "abc123"
                  "commit")) as [_ H]; [member|].
  destruct (H _ _ _ _ _ eq_refl) as (git & tags & Hgit & _ & Htags & _ & Hmessage & _).
  exists git, tags. split; [exact Hgit|]. split; [exact Htags|].
  cbn in Hgit. injection Hgit as <-. cbn in Htags. injection Htags as <-.
  split; [reflexivity | exact Hmessage].
Defined.

(** The first tag of a repository, in both versions. *)
Lemma legacy_tags_are_created_witness :
  In (Call (CreateTag (mkRepo "snapserv" "demo") "v1.0.0"
              ("v1.0.0" ++ nl ++ nl ++ "Initial tag") "abc123" "commit"))
    (Sample.main (Sample.env "v{version}" "1.0.0" [] [] (Some "abc123"))).
Proof.
  apply (@legacy_tags_are_created Mini.engine SemVer.strict
           (Sample.env "v{version}" "1.0.0" [] [] (Some "abc123"))
           (mkRepo "snapserv" "demo") "v1.0.0" "Initial tag" "abc123" "commit").
  member.
Defined.

(** A new commit at an unchanged version, with the default kind of format. *)
Lemma legacy_run_fails_on_match_witness :
  LegacyRun.events
    (@LegacyRun.main Mini.engine
       (Sample.env "v{version}" "1.0.0" [mkTag "v1.0.0" "def456"] [] (Some "abc123")))
  = [ SetOutput "version" (VString "1.0.0");
      Call (ListTags (mkRepo "snapserv" "demo") 100);
      SetFailed (Caught Legacy.noGroups) ].
Proof.
  edestruct (@legacy_run_fails_on_match Mini.engine MiniFacts.lawful SemVer.strict
               (Sample.env "v{version}" "1.0.0" [mkTag "v1.0.0" "def456"] []
                  (Some "abc123")) "1.0.0")
    as [H _];
    [eapply Run.reach_Searched; evaluate | evaluate | evaluate | evaluate | exact H].
Defined.

End LegacyFacts.
